(** * opencode-openai-multi-auth: account pool, selection, failover

    A shallow embedding of the account store and selector
    ([src/lib/accounts/manager.ts]), of the request orchestrator
    ([executeRequest] and the plugin's [fetch] wrapper), of the
    usage-snapshot tracker ([CodexStatusManager]), of the models cache
    ([fetchAvailableModels]) and of the plugin's toasts and [config] hook,
    followed by the properties the specification states about them and by
    further properties read off the code.

    Conventions of the embedding.
    - JavaScript numbers that hold epoch milliseconds, counters and array
      positions are integers of [Z], exact at any size: fractions, the
      rounding of doubles and their overflow to [Infinity] are left out.
      [NaN] is modelled where the code can produce it, which is the
      length of a rate-limit window and the reset instant computed from
      it ([JsNum]).
    - Account objects are mutable and shared by reference between the pool
      and the caller's local variables, so they live in a heap ([heap], a
      list indexed by object identity) and the pool [accounts] is a list of
      references into it.
    - The manager's methods run in a state-and-exception monad [M] over
      [World]; [try ... catch] is [try_catch].
    - The environment (clock, refresh endpoint, transport, JWT decoder,
      process id) is an [Env] of oracles; the k-th interaction reads the
      oracle at position [tick], so every behaviour of the outside world is
      some [Env].
    - Writing files is taken to succeed; console output is left out, and
      so are the toasts where the account store is concerned: they have no
      effect on it and are modelled on their own ([Toasts]).
    - Where a method reads the clock and the model is a plain function,
      the readings are arguments ([now], [nowSave], ...). *)

From Stdlib Require Import ZArith List Bool Lia QArith.
From stdpp Require Import base option list strings gmap.
From stdpp Require Import pretty.

Local Open Scope Z_scope.

(** ** JavaScript primitives *)

(** Truthiness of a possibly-undefined string: [undefined] and the empty
    string are falsy. *)
Definition truthyS (s : option string) : bool :=
  match s with
  | Some s' => negb (String.eqb s' "")
  | None => false
  end.

(** Truthiness of a possibly-undefined number: [undefined] and [0] are
    falsy. *)
Definition truthyZ (n : option Z) : bool :=
  match n with
  | Some z => negb (z =? 0)
  | None => false
  end.

(** Truthiness of a possibly-undefined boolean. *)
Definition truthyB (b : option bool) : bool :=
  match b with
  | Some b' => b'
  | None => false
  end.

(** [a || b] on possibly-undefined strings. *)
Definition orS (a b : option string) : option string :=
  if truthyS a then a else b.

(** [n || 0] on a possibly-undefined number. *)
Definition orZero (n : option Z) : Z :=
  match n with
  | Some z => z
  | None => 0
  end.

(** A number that may be [NaN]. [parseInt] gives [NaN] for a string that
    does not start with an integer and [getTime()] gives it for an invalid
    date; arithmetic on [NaN] gives [NaN]. [JSON.stringify] writes [null]
    for [NaN] and [JSON.parse] reads [null] back; the code treats that
    [null] as it treats [NaN] (falsy, never greater than anything), and it
    is [NaN] here too. *)
Inductive JsNum :=
  | NaN
  | Num (z : Z).

Coercion Num : Z >-> JsNum.

(** [f(x)] for an arithmetic [f]: [NaN] for [NaN]. *)
Definition jsArith (f : Z -> Z) (x : JsNum) : JsNum :=
  match x with
  | NaN => NaN
  | Num z => Num (f z)
  end.

(** Truthiness of a possibly-undefined number that may be [NaN]:
    [undefined], [NaN] and [0] are falsy. *)
Definition truthyN (n : option JsNum) : bool :=
  match n with
  | Some (Num z) => negb (z =? 0)
  | _ => false
  end.

(** [n || 0] on such a number. *)
Definition orZeroN (n : option JsNum) : Z :=
  match n with
  | Some (Num z) => z
  | _ => 0
  end.

(** [a === b] on possibly-undefined strings. *)
Definition eqS (a b : option string) : bool :=
  match a, b with
  | Some x, Some y => String.eqb x y
  | None, None => true
  | _, _ => false
  end.

(** [hay.includes(needle)]. *)
Fixpoint includes (needle hay : string) : bool :=
  String.prefix needle hay ||
  match hay with
  | EmptyString => false
  | String _ rest => includes needle rest
  end.

(** [a % b] of JavaScript on integers: the sign follows the dividend. *)
Definition jsRem (a b : Z) : Z := Z.rem a b.

(** [arr[i]]: [undefined] outside the array, and for a negative [i]. *)
Definition arrayGet {A : Type} (arr : list A) (i : Z) : option A :=
  if i <? 0 then None else arr !! Z.to_nat i.

(** [arr.findIndex(p)], with [None] for [-1]. *)
Fixpoint findIndex {A : Type} (p : A -> bool) (arr : list A) : option nat :=
  match arr with
  | [] => None
  | x :: rest => if p x then Some 0%nat else S <$> findIndex p rest
  end.

(** ** Data model ([src/lib/accounts/types.ts]) *)

Record ManagedAccount := mkAccount {
  index : Z;
  email : option string;
  userId : option string;
  accountId : option string;
  planType : option string;
  addedAt : Z;
  lastUsed : option Z;
  refreshToken : string;            (* parts.refreshToken *)
  access : option string;
  expires : option Z;
  rateLimitResets : gmap string JsNum;
  globalRateLimitReset : option JsNum;
  consecutiveFailures : Z;
  isRefreshing : option bool;
  lastRefreshError : option string;
}.

Inductive Strategy := Sticky | RoundRobin | Hybrid.

Record MultiAccountConfig := mkConfig {
  accountSelectionStrategy : Strategy;
  debug : bool;
  quietMode : bool;
  pidOffsetEnabled : bool;
  proactiveRefreshThresholdMs : Z;
  removeOnInvalidGrant : bool;
  perModelRateLimits : bool;
}.

Definition DEFAULT_MULTI_ACCOUNT_CONFIG : MultiAccountConfig :=
  {| accountSelectionStrategy := Sticky;
     debug := false;
     quietMode := false;
     pidOffsetEnabled := false;
     proactiveRefreshThresholdMs := 5 * 60 * 1000;
     removeOnInvalidGrant := true;
     perModelRateLimits := true |}.

Definition isRoundRobin (c : MultiAccountConfig) : bool :=
  match accountSelectionStrategy c with RoundRobin => true | _ => false end.

Definition isHybrid (c : MultiAccountConfig) : bool :=
  match accountSelectionStrategy c with Hybrid => true | _ => false end.

(** Field assignments [account.f = v]. *)
Definition set_index (v : Z) (a : ManagedAccount) : ManagedAccount :=
  mkAccount v (email a) (userId a) (accountId a) (planType a) (addedAt a)
    (lastUsed a) (refreshToken a) (access a) (expires a) (rateLimitResets a)
    (globalRateLimitReset a) (consecutiveFailures a) (isRefreshing a)
    (lastRefreshError a).

Definition set_email (v : option string) (a : ManagedAccount) : ManagedAccount :=
  mkAccount (index a) v (userId a) (accountId a) (planType a) (addedAt a)
    (lastUsed a) (refreshToken a) (access a) (expires a) (rateLimitResets a)
    (globalRateLimitReset a) (consecutiveFailures a) (isRefreshing a)
    (lastRefreshError a).

Definition set_userId (v : option string) (a : ManagedAccount) : ManagedAccount :=
  mkAccount (index a) (email a) v (accountId a) (planType a) (addedAt a)
    (lastUsed a) (refreshToken a) (access a) (expires a) (rateLimitResets a)
    (globalRateLimitReset a) (consecutiveFailures a) (isRefreshing a)
    (lastRefreshError a).

Definition set_accountId (v : option string) (a : ManagedAccount) : ManagedAccount :=
  mkAccount (index a) (email a) (userId a) v (planType a) (addedAt a)
    (lastUsed a) (refreshToken a) (access a) (expires a) (rateLimitResets a)
    (globalRateLimitReset a) (consecutiveFailures a) (isRefreshing a)
    (lastRefreshError a).

Definition set_planType (v : option string) (a : ManagedAccount) : ManagedAccount :=
  mkAccount (index a) (email a) (userId a) (accountId a) v (addedAt a)
    (lastUsed a) (refreshToken a) (access a) (expires a) (rateLimitResets a)
    (globalRateLimitReset a) (consecutiveFailures a) (isRefreshing a)
    (lastRefreshError a).

Definition set_lastUsed (v : option Z) (a : ManagedAccount) : ManagedAccount :=
  mkAccount (index a) (email a) (userId a) (accountId a) (planType a) (addedAt a)
    v (refreshToken a) (access a) (expires a) (rateLimitResets a)
    (globalRateLimitReset a) (consecutiveFailures a) (isRefreshing a)
    (lastRefreshError a).

Definition set_refreshToken (v : string) (a : ManagedAccount) : ManagedAccount :=
  mkAccount (index a) (email a) (userId a) (accountId a) (planType a) (addedAt a)
    (lastUsed a) v (access a) (expires a) (rateLimitResets a)
    (globalRateLimitReset a) (consecutiveFailures a) (isRefreshing a)
    (lastRefreshError a).

Definition set_access (v : option string) (a : ManagedAccount) : ManagedAccount :=
  mkAccount (index a) (email a) (userId a) (accountId a) (planType a) (addedAt a)
    (lastUsed a) (refreshToken a) v (expires a) (rateLimitResets a)
    (globalRateLimitReset a) (consecutiveFailures a) (isRefreshing a)
    (lastRefreshError a).

Definition set_expires (v : option Z) (a : ManagedAccount) : ManagedAccount :=
  mkAccount (index a) (email a) (userId a) (accountId a) (planType a) (addedAt a)
    (lastUsed a) (refreshToken a) (access a) v (rateLimitResets a)
    (globalRateLimitReset a) (consecutiveFailures a) (isRefreshing a)
    (lastRefreshError a).

Definition set_rateLimitResets (v : gmap string JsNum) (a : ManagedAccount) : ManagedAccount :=
  mkAccount (index a) (email a) (userId a) (accountId a) (planType a) (addedAt a)
    (lastUsed a) (refreshToken a) (access a) (expires a) v
    (globalRateLimitReset a) (consecutiveFailures a) (isRefreshing a)
    (lastRefreshError a).

Definition set_globalRateLimitReset (v : option JsNum) (a : ManagedAccount) : ManagedAccount :=
  mkAccount (index a) (email a) (userId a) (accountId a) (planType a) (addedAt a)
    (lastUsed a) (refreshToken a) (access a) (expires a) (rateLimitResets a)
    v (consecutiveFailures a) (isRefreshing a) (lastRefreshError a).

Definition set_consecutiveFailures (v : Z) (a : ManagedAccount) : ManagedAccount :=
  mkAccount (index a) (email a) (userId a) (accountId a) (planType a) (addedAt a)
    (lastUsed a) (refreshToken a) (access a) (expires a) (rateLimitResets a)
    (globalRateLimitReset a) v (isRefreshing a) (lastRefreshError a).

Definition set_isRefreshing (v : option bool) (a : ManagedAccount) : ManagedAccount :=
  mkAccount (index a) (email a) (userId a) (accountId a) (planType a) (addedAt a)
    (lastUsed a) (refreshToken a) (access a) (expires a) (rateLimitResets a)
    (globalRateLimitReset a) (consecutiveFailures a) v (lastRefreshError a).

Definition set_lastRefreshError (v : option string) (a : ManagedAccount) : ManagedAccount :=
  mkAccount (index a) (email a) (userId a) (accountId a) (planType a) (addedAt a)
    (lastUsed a) (refreshToken a) (access a) (expires a) (rateLimitResets a)
    (globalRateLimitReset a) (consecutiveFailures a) (isRefreshing a) v.

(** The value read through a reference that points nowhere; no reference
    held by the program does. *)
Definition blankAccount : ManagedAccount :=
  mkAccount 0 None None None None 0 None "" None None ∅ None 0 None None.

(** ** The accounts file *)

(** What [JSON.parse(readFileSync(ACCOUNTS_FILE))] evaluates to, as far as
    [loadFromDisk] looks at it. *)
Inductive JsonData :=
  | JNull          (* null: reading a property of it raises a TypeError *)
  | JPlain         (* a number, string, boolean or array: no such fields *)
  | JObject (version : option Z)
            (accountsField : option (list ManagedAccount))
            (activeAccountIndex : option Z).
    (* an object; [version] is [Some n] when the field is the number n,
       [accountsField] is [Some l] when the field is an array *)

Inductive AccountsFile :=
  | FileMissing                   (* existsSync is false *)
  | FileCorrupt                   (* reading or JSON.parse throws *)
  | FileJson (d : JsonData).

(** ** The environment *)

(** The claims [decodeJWT] recovers from an access token. *)
Record JwtClaims := mkClaims {
  chatgpt_account_id : option string;
  chatgpt_user_id : option string;
  chatgpt_plan_type : option string;
  profile_email : option string;
}.

Inductive RefreshOutcome :=
  | RefreshSuccess (newAccess newRefresh : string) (newExpires : Z)
  | RefreshFailed                          (* { type: "failed" } *)
  | RefreshThrows (err : string).          (* the call rejects *)

(** An upstream response, as far as the orchestrator inspects it.
    [retryAfterHeader] is [None] when there is no [Retry-After] header or
    it is the empty string, and otherwise what [parseInt] makes of it: a
    number of seconds, or [NaN] for a header that does not start with an
    integer, such as an HTTP date. [bodyResetsAt] is [None] when the body
    is not JSON or carries no truthy [resets_at] (under [error.details]
    or at the top), and otherwise [new Date(resets_at).getTime()]: epoch
    milliseconds, or [NaN] for what is not a date. [usageLimitBody] says
    that the body matches the usage-limit pattern of [mapUsageLimit404]. *)
Record Response := mkResponse {
  status : Z;
  retryAfterHeader : option JsNum;
  bodyResetsAt : option JsNum;
  usageLimitBody : bool;
}.

Inductive FetchOutcome :=
  | Responded (r : Response)
  | NetworkError (err : string).

(** What the transport call is given. *)
Record FetchCall := mkFetchCall {
  bearer : string;
  callAccountId : string;
  callModel : option string;
}.

(** The outside world. [decodeJWT] is the pure decoder of
    [lib/auth/auth.js]; the other oracles are asked at the position the
    state's [tick] has reached, so successive calls may answer
    differently. *)
Record Env := mkEnv {
  decodeJWT : string -> option JwtClaims;
  dateNow : nat -> Z;
  refreshAccessToken : nat -> string -> RefreshOutcome;
  fetch : nat -> FetchCall -> FetchOutcome;
  pid : Z;
}.

(** ** The state of one process *)

Record World := mkWorld {
  heap : list ManagedAccount;      (* every account object allocated so far *)
  accounts : list nat;             (* this.accounts, as references *)
  activeIndex : Z;
  roundRobinCursor : Z;
  strategyInitialized : bool;
  config : MultiAccountConfig;
  disk : AccountsFile;             (* ACCOUNTS_FILE *)
  tick : nat;                      (* interactions with the environment so far *)
  refreshLog : list string;        (* refresh tokens sent to the refresh endpoint *)
  fetchLog : list nat;             (* accounts the transport was called for *)
}.

Definition set_heap v (w : World) : World :=
  mkWorld v (accounts w) (activeIndex w) (roundRobinCursor w)
    (strategyInitialized w) (config w) (disk w) (tick w) (refreshLog w) (fetchLog w).

Definition set_accounts v (w : World) : World :=
  mkWorld (heap w) v (activeIndex w) (roundRobinCursor w)
    (strategyInitialized w) (config w) (disk w) (tick w) (refreshLog w) (fetchLog w).

Definition set_activeIndex v (w : World) : World :=
  mkWorld (heap w) (accounts w) v (roundRobinCursor w)
    (strategyInitialized w) (config w) (disk w) (tick w) (refreshLog w) (fetchLog w).

Definition set_roundRobinCursor v (w : World) : World :=
  mkWorld (heap w) (accounts w) (activeIndex w) v
    (strategyInitialized w) (config w) (disk w) (tick w) (refreshLog w) (fetchLog w).

Definition set_strategyInitialized v (w : World) : World :=
  mkWorld (heap w) (accounts w) (activeIndex w) (roundRobinCursor w)
    v (config w) (disk w) (tick w) (refreshLog w) (fetchLog w).

Definition set_disk v (w : World) : World :=
  mkWorld (heap w) (accounts w) (activeIndex w) (roundRobinCursor w)
    (strategyInitialized w) (config w) v (tick w) (refreshLog w) (fetchLog w).

Definition set_tick v (w : World) : World :=
  mkWorld (heap w) (accounts w) (activeIndex w) (roundRobinCursor w)
    (strategyInitialized w) (config w) (disk w) v (refreshLog w) (fetchLog w).

Definition set_refreshLog v (w : World) : World :=
  mkWorld (heap w) (accounts w) (activeIndex w) (roundRobinCursor w)
    (strategyInitialized w) (config w) (disk w) (tick w) v (fetchLog w).

Definition set_fetchLog v (w : World) : World :=
  mkWorld (heap w) (accounts w) (activeIndex w) (roundRobinCursor w)
    (strategyInitialized w) (config w) (disk w) (tick w) (refreshLog w) v.

(** [new AccountManager(config)]. *)
Definition newManager (c : MultiAccountConfig) (file : AccountsFile) : World :=
  mkWorld [] [] 0 0 false c file 0 [] [].

(** Reading an account object through a reference. *)
Definition deref (w : World) (r : nat) : ManagedAccount :=
  default blankAccount (heap w !! r).

(** [this.accounts.length]. *)
Definition getAccountCount (w : World) : Z := Z.of_nat (length (accounts w)).

(** ** The state-and-exception monad *)

Inductive Res (A : Type) :=
  | Ok (a : A)
  | Throw (e : string).
Arguments Ok {A} a.
Arguments Throw {A} e.

Definition M (A : Type) : Type := World -> Res A * World.

Definition ret {A} (a : A) : M A := fun w => (Ok a, w).

Definition bind {A B} (m : M A) (k : A -> M B) : M B :=
  fun w =>
    match m w with
    | (Ok a, w') => k a w'
    | (Throw e, w') => (Throw e, w')
    end.

Definition throw {A} (e : string) : M A := fun w => (Throw e, w).

(** [try { m } catch (err) { h(String(err)) }]: what [m] did to the state
    before it threw stays done. *)
Definition try_catch {A} (m : M A) (h : string -> M A) : M A :=
  fun w =>
    match m w with
    | (Ok a, w') => (Ok a, w')
    | (Throw e, w') => h e w'
    end.

Definition get : M World := fun w => (Ok w, w).
Definition modify (f : World -> World) : M unit := fun w => (Ok tt, f w).

Declare Scope js_scope.
Delimit Scope js_scope with js.
Notation "'do' x <- m ;; k" := (bind m (fun x => k))
  (at level 10, x name, m at level 99, k at level 200) : js_scope.
Notation "'run' m ;; k" := (bind m (fun _ => k))
  (at level 10, m at level 99, k at level 200) : js_scope.
Local Open Scope js_scope.

(** [account.f = v] on the object behind reference [r]. *)
Definition assign (r : nat) (f : ManagedAccount -> ManagedAccount) : M unit :=
  modify (fun w => set_heap (alter f r (heap w)) w).

(** ** Account store and selector ([src/lib/accounts/manager.ts]) *)

Section Manager.

Variable E : Env.

(** [Date.now()]. *)
Definition now_ : M Z :=
  fun w => (Ok (dateNow E (tick w)), set_tick (S (tick w)) w).

(** [saveToDisk]: the whole pool is serialised; nothing is merged. (A
    reset that is [NaN] is written as [null], for which [NaN] stands.) *)
Definition saveToDisk : M unit :=
  modify (fun w =>
    set_disk (FileJson (JObject (Some 1)
                                (Some (map (deref w) (accounts w)))
                                (Some (activeIndex w)))) w).

(** [JSON.parse(readFileSync(ACCOUNTS_FILE, "utf-8"))]. *)
Definition readAccountsFile : M JsonData :=
  fun w =>
    match disk w with
    | FileJson d => (Ok d, w)
    | _ => (Throw "SyntaxError", w)
    end.

(** [this.accounts = data.accounts]: the parsed objects are new ones. *)
Definition installAccounts (l : list ManagedAccount) (w : World) : World :=
  set_accounts (seq (length (heap w)) (length l)) (set_heap (heap w ++ l) w).

Definition loadFromDisk : M unit :=
  do w <- get ;;
  match disk w with
  | FileMissing => ret tt
  | _ =>
    try_catch
      (do data <- readAccountsFile ;;
       match data with
       | JNull => throw "TypeError"
       | JPlain => ret tt
       | JObject v accs act =>
         match v, accs with
         | Some 1, Some l =>
           run modify (installAccounts l) ;;
           run modify (set_activeIndex (orZero act)) ;;
           modify (set_strategyInitialized false)
         | _, _ => ret tt
         end
       end)
      (fun _ =>
         run modify (set_accounts []) ;;
         run modify (set_activeIndex 0) ;;
         run modify (set_roundRobinCursor 0) ;;
         modify (set_strategyInitialized false))
  end.

(** The predicate of [addAccount]'s [findIndex]. *)
Definition sameIdentity (userId' accountId' : option string) (refreshToken' : string)
    (a : ManagedAccount) : bool :=
  if truthyS userId' && truthyS (userId a)
  then eqS (userId a) userId' && eqS (accountId a) accountId'
  else String.eqb (refreshToken a) refreshToken'.

(** [if (v) existing.f = v]. *)
Definition assignIf (c : bool) (r : nat) (f : ManagedAccount -> ManagedAccount) : M unit :=
  if c then assign r f else ret tt.

Definition addAccount (email' : option string) (refreshToken' : string)
    (accessToken : option string) (expires' : option Z) : M nat :=
  let decoded :=
    if truthyS accessToken then decodeJWT E (default "" accessToken) else None in
  let accountId' := decoded ≫= chatgpt_account_id in
  let userId' := decoded ≫= chatgpt_user_id in
  let planType' := decoded ≫= chatgpt_plan_type in
  let extractedEmail :=
    match decoded with
    | Some c =>
      if negb (truthyS email') && truthyS (profile_email c)
      then profile_email c else email'
    | None => email'
    end in
  do w <- get ;;
  let existingIndex :=
    findIndex (fun r => sameIdentity userId' accountId' refreshToken' (deref w r))
              (accounts w) in
  match existingIndex ≫= (fun i => accounts w !! i) with
  | Some existing =>
    run assignIf (truthyS accessToken) existing (set_access accessToken) ;;
    run assignIf (negb (String.eqb refreshToken' "")) existing
          (set_refreshToken refreshToken') ;;
    run assignIf (truthyZ expires') existing (set_expires expires') ;;
    run assignIf (truthyS userId') existing (set_userId userId') ;;
    run assignIf (truthyS accountId') existing (set_accountId accountId') ;;
    run assignIf (truthyS planType') existing (set_planType planType') ;;
    run assignIf (truthyS extractedEmail) existing (set_email extractedEmail) ;;
    run assign existing (set_consecutiveFailures 0) ;;
    run saveToDisk ;;
    run modify (set_strategyInitialized false) ;;
    ret existing
  | None =>
    do addedAt' <- now_ ;;
    do w1 <- get ;;
    let account :=
      mkAccount (getAccountCount w1) extractedEmail userId' accountId' planType'
        addedAt' None refreshToken' accessToken expires' ∅ None 0 None None in
    let r := length (heap w1) in
    run modify (fun w => set_heap (heap w ++ [account]) w) ;;
    run modify (fun w => set_accounts (accounts w ++ [r]) w) ;;
    run modify (set_strategyInitialized false) ;;
    run saveToDisk ;;
    ret r
  end.

Definition normalizeIndex (i : Z) : M Z :=
  do w <- get ;;
  if getAccountCount w =? 0 then ret 0
  else if (i <? 0) || (i >=? getAccountCount w) then ret 0
  else ret i.

Definition initializeStrategyState : M unit :=
  do w <- get ;;
  if strategyInitialized w then ret tt
  else if getAccountCount w =? 0 then
    run modify (set_activeIndex 0) ;;
    run modify (set_roundRobinCursor 0) ;;
    modify (set_strategyInitialized true)
  else
    do i <- normalizeIndex (activeIndex w) ;;
    run modify (set_activeIndex i) ;;
    run (if isHybrid (config w) && (getAccountCount w >? 1) then
           run modify (fun w => set_activeIndex
                 (jsRem (activeIndex w + 1) (getAccountCount w)) w) ;;
           saveToDisk
         else ret tt) ;;
    run (if pidOffsetEnabled (config w) && (getAccountCount w >? 1) then
           let pidOffset := jsRem (Z.abs (pid E)) (getAccountCount w) in
           modify (fun w => set_activeIndex
                 (jsRem (activeIndex w + pidOffset) (getAccountCount w)) w)
         else ret tt) ;;
    run modify (fun w => set_roundRobinCursor (activeIndex w) w) ;;
    modify (set_strategyInitialized true).

Definition isAccountAvailable (c : MultiAccountConfig) (account : ManagedAccount)
    (model : option string) (now : Z) : bool :=
  if consecutiveFailures account >=? 3 then false
  else if truthyN (globalRateLimitReset account)
          && (orZeroN (globalRateLimitReset account) >? now) then false
  else if truthyS model && perModelRateLimits c then
    let modelReset := rateLimitResets account !! default "" model in
    if truthyN modelReset && (orZeroN modelReset >? now) then false else true
  else true.

(** The combined reset time the fallback compares. *)
Definition resetTimeOf (c : MultiAccountConfig) (model : option string)
    (account : ManagedAccount) : Z :=
  let resetTime := orZeroN (globalRateLimitReset account) in
  if truthyS model && perModelRateLimits c then
    let modelReset := orZeroN (rateLimitResets account !! default "" model) in
    Z.max resetTime modelReset
  else resetTime.

(** The [for ... of this.accounts] loop of [getLeastRateLimitedAccount];
    [earliestReset = None] is [Infinity]. *)
Fixpoint leastLoop (w : World) (model : option string) (rest : list nat)
    (bestAccount : option nat) (earliestReset : option Z) : option nat :=
  match rest with
  | [] => bestAccount
  | r :: rest' =>
    let account := deref w r in
    if consecutiveFailures account >=? 3
    then leastLoop w model rest' bestAccount earliestReset
    else
      let resetTime := resetTimeOf (config w) model account in
      let better :=
        match earliestReset with
        | None => true
        | Some e => resetTime <? e
        end in
      if better
      then leastLoop w model rest' (Some r) (Some resetTime)
      else leastLoop w model rest' bestAccount earliestReset
  end.

Definition getLeastRateLimitedAccount (model : option string) : M (option nat) :=
  do w <- get ;;
  if getAccountCount w =? 0 then ret None
  else
    do _now <- now_ ;;
    do w1 <- get ;;
    ret (leastLoop w1 model (accounts w1) None None).

(** What [getNextAvailableAccount] does once it has settled on [account]
    at position [i]. *)
Definition selectAt (i : Z) (account : nat) (now : Z) : M unit :=
  run modify (set_activeIndex i) ;;
  do w <- get ;;
  run (if isRoundRobin (config w)
       then modify (set_roundRobinCursor (jsRem (i + 1) (getAccountCount w)))
       else ret tt) ;;
  assign account (set_lastUsed (Some now)).

(** The [while (attempts < this.accounts.length)] loop; [remaining] is the
    number of iterations left. The result is the account returned from
    inside the loop, if any. *)
Fixpoint scanLoop (model : option string) (now startIndex : Z)
    (remaining : nat) (attempts : Z) : M (option nat) :=
  match remaining with
  | O => ret None
  | S remaining' =>
    do w <- get ;;
    let i := jsRem (startIndex + attempts) (getAccountCount w) in
    match arrayGet (accounts w) i with
    | None => throw "TypeError"
    | Some account =>
      if isAccountAvailable (config w) (deref w account) model now then
        run selectAt i account now ;;
        ret (Some account)
      else scanLoop model now startIndex remaining' (attempts + 1)
    end
  end.

Definition getNextAvailableAccount (model : option string) : M (option nat) :=
  do w <- get ;;
  if getAccountCount w =? 0 then ret None
  else
    run initializeStrategyState ;;
    do now <- now_ ;;
    do w1 <- get ;;
    let startIndex :=
      if isRoundRobin (config w1) then roundRobinCursor w1 else activeIndex w1 in
    do hit <- scanLoop model now startIndex (length (accounts w1)) 0 ;;
    match hit with
    | Some account => ret (Some account)
    | None =>
      do fallback <- getLeastRateLimitedAccount model ;;
      match fallback with
      | Some f =>
        do w2 <- get ;;
        run selectAt (index (deref w2 f)) f now ;;
        ret (Some f)
      | None => ret None
      end
    end.

(** [new Date(t).toISOString()] raises a RangeError unless [t] is a time
    value: a number at most 8.64e15 ms away from the epoch. *)
Definition validTime (t : JsNum) : bool :=
  match t with
  | NaN => false
  | Num z => Z.abs z <=? 8640000000000000
  end.

(** [markRateLimited]. Of the debug branch the line printed is left out;
    what stays is that [new Date(resetTime).toISOString()] is evaluated
    for it. *)
Definition markRateLimited (account : nat) (retryAfterMs : JsNum)
    (model : option string) : M unit :=
  do now <- now_ ;;
  let resetTime := jsArith (fun ms => now + ms) retryAfterMs in
  do w <- get ;;
  run (if truthyS model && perModelRateLimits (config w)
       then assign account (fun a =>
              set_rateLimitResets (<[default "" model := resetTime]> (rateLimitResets a)) a)
       else assign account (set_globalRateLimitReset (Some resetTime))) ;;
  if debug (config w) && negb (validTime resetTime)
  then throw "RangeError"
  else ret tt.

(** [this.accounts.forEach((a, i) => (a.index = i))], from position [i]. *)
Fixpoint reindexFrom (i : Z) (l : list nat) : M unit :=
  match l with
  | [] => ret tt
  | r :: rest => run assign r (set_index i) ;; reindexFrom (i + 1) rest
  end.

Definition removeAccount (account : nat) : M unit :=
  do w <- get ;;
  let target := index (deref w account) in
  match findIndex (fun r => index (deref w r) =? target) (accounts w) with
  | Some i =>
    run modify (fun w => set_accounts (delete i (accounts w)) w) ;;
    do w1 <- get ;;
    run reindexFrom 0 (accounts w1) ;;
    run (if activeIndex w1 >=? getAccountCount w1
         then modify (set_activeIndex (Z.max 0 (getAccountCount w1 - 1)))
         else ret tt) ;;
    run modify (fun w => set_roundRobinCursor (activeIndex w) w) ;;
    run modify (set_strategyInitialized false) ;;
    saveToDisk
  | None => ret tt
  end.

Definition markRefreshFailed (account : nat) (error : string) : M unit :=
  run assign account (fun a => set_consecutiveFailures (consecutiveFailures a + 1) a) ;;
  run assign account (set_lastRefreshError (Some error)) ;;
  run assign account (set_isRefreshing (Some false)) ;;
  do w <- get ;;
  if removeOnInvalidGrant (config w) && includes "invalid_grant" error
  then removeAccount account
  else ret tt.

Definition updateAccountTokens (account : nat) (accessToken refreshToken' : string)
    (expires' : Z) : M unit :=
  run assign account (set_access (Some accessToken)) ;;
  run assign account (set_refreshToken refreshToken') ;;
  run assign account (set_expires (Some expires')) ;;
  run assign account (set_consecutiveFailures 0) ;;
  run assign account (set_isRefreshing (Some false)) ;;
  run assign account (set_lastRefreshError None) ;;
  run match decodeJWT E accessToken with
      | Some c =>
        run assignIf (truthyS (chatgpt_account_id c)) account
              (set_accountId (chatgpt_account_id c)) ;;
        run assignIf (truthyS (chatgpt_user_id c)) account
              (set_userId (chatgpt_user_id c)) ;;
        assignIf (truthyS (chatgpt_plan_type c)) account
              (set_planType (chatgpt_plan_type c))
      | None => ret tt
      end ;;
  saveToDisk.

(** The awaited call [refreshAccessToken(token)]: one interaction with the
    refresh endpoint, which answers or rejects. *)
Definition callRefresh (token : string) : M RefreshOutcome :=
  fun w =>
    let w' := set_refreshLog (refreshLog w ++ [token]) (set_tick (S (tick w)) w) in
    match refreshAccessToken E (tick w) token with
    | RefreshThrows err => (Throw err, w')
    | out => (Ok out, w')
    end.

Definition ensureValidToken (account : nat) : M bool :=
  do w <- get ;;
  let a := deref w account in
  do fresh <-
    (if negb (truthyZ (expires a)) then ret true
     else
       do now <- now_ ;;
       ret (orZero (expires a) >? now + proactiveRefreshThresholdMs (config w))) ;;
  if (fresh : bool) then ret true
  else if truthyB (isRefreshing a) then ret (truthyS (access a))
  else
    run assign account (set_isRefreshing (Some true)) ;;
    try_catch
      (do result <- callRefresh (refreshToken a) ;;
       match result with
       | RefreshSuccess acc ref exp =>
         run updateAccountTokens account acc ref exp ;;
         ret true
       | _ =>
         run markRefreshFailed account "Token refresh failed" ;;
         ret false
       end)
      (fun err =>
         run markRefreshFailed account err ;;
         ret false).

Definition getActiveAccount (w : World) : option nat :=
  if getAccountCount w =? 0 then None
  else match arrayGet (accounts w) (activeIndex w) with
       | Some r => Some r
       | None => accounts w !! 0%nat
       end.

End Manager.

(** ** Request orchestrator ([executeRequest] and the plugin's [fetch]) *)

(** Modelled from the spec: the status codes of [HTTP_STATUS] in
    [lib/constants.js], which is not among the sources; the specification
    names 429 as "rate limited" and 401 as "unauthorized", and
    [mapUsageLimit404] remaps the "not found" status. *)
Definition TOO_MANY_REQUESTS : Z := 429.
Definition UNAUTHORIZED : Z := 401.
Definition NOT_FOUND : Z := 404.

(** [init.body], as far as it is looked at. *)
Inductive RequestBody :=
  | NoBody
  | BodyUnparseable                       (* JSON.parse throws on it *)
  | BodyJson (model : option string) (stream : bool).

(** The synthetic error responses the plugin builds itself. *)
Inductive SyntheticError :=
  | AllAccountsFailedTokenRefresh   (* "All accounts failed token refresh" *)
  | NoAccountId                     (* ERROR_MESSAGES.NO_ACCOUNT_ID *)
  | NoAvailableAccounts.            (* "No available OpenAI accounts" *)

Inductive Reply :=
  | Synthetic (st : Z) (error : SyntheticError)
  | ErrorReply (r : Response)             (* handleErrorResponse's result *)
  | SuccessReply (r : Response) (isStreaming : bool).
                                          (* handleSuccessResponse(r, isStreaming) *)

(** One activation of [executeRequest] either returns a response or ends
    in the tail call [executeRequest(nextAccount, input, init, retryCount')]. *)
Inductive StepResult :=
  | Done (reply : Reply)
  | Recurse (nextAccount : nat) (retryCount' : Z).

Definition extractModelFromBody (body : RequestBody) : option string :=
  match body with
  | BodyJson model _ => model
  | _ => None
  end.

Definition responseOk (r : Response) : bool :=
  (200 <=? status r) && (status r <=? 299).

Definition mapUsageLimit404 (r : Response) : option Response :=
  if negb (status r =? NOT_FOUND) then None
  else if usageLimitBody r
  then Some (mkResponse TOO_MANY_REQUESTS (retryAfterHeader r) (bodyResetsAt r)
                        (usageLimitBody r))
  else None.

Definition handleErrorResponse (r : Response) : Response :=
  match mapUsageLimit404 r with
  | Some mapped => mapped
  | None => r
  end.

Section Orchestrator.

Variable E : Env.

(** The awaited [fetch(url, { ...requestInit, headers })]. *)
Definition callFetch (account : nat) (c : FetchCall) : M Response :=
  fun w =>
    let w' := set_fetchLog (fetchLog w ++ [account]) (set_tick (S (tick w)) w) in
    match fetch E (tick w) c with
    | Responded r => (Ok r, w')
    | NetworkError err => (Throw err, w')
    end.

(** Reselection after a failure: the tail call is made only for an account
    with another index. *)
Definition failover (account : nat) (nextAccount : option nat)
    (retryCount' : Z) : M (option StepResult) :=
  do w <- get ;;
  match nextAccount with
  | Some n =>
    if negb (index (deref w n) =? index (deref w account))
    then ret (Some (Recurse n retryCount'))
    else ret None
  | None => ret None
  end.

(** Lines 345-367: the length of the rate-limit window, then
    [markRateLimited]. *)
Definition noteRateLimit (account : nat) (response : Response)
    (model : option string) : M unit :=
  do retryAfterMs <-
    (match retryAfterHeader response with
     | Some parsed => ret (jsArith (fun seconds => seconds * 1000) parsed)
     | None =>
       match bodyResetsAt response with
       | Some time =>
         do now <- now_ E ;;
         ret (jsArith (fun t => t - now) time)
       | None => ret (Num 60000)
       end
     end) ;;
  markRateLimited E account retryAfterMs model.

(** The [if (response.status === HTTP_STATUS.TOO_MANY_REQUESTS)] block;
    [None] when control falls out of it. *)
Definition onTooManyRequests (account : nat) (response : Response)
    (model : option string) (retryCount : Z) : M (option StepResult) :=
  if status response =? TOO_MANY_REQUESTS then
    run noteRateLimit account response model ;;
    do w <- get ;;
    if retryCount <? getAccountCount w - 1 then
      do nextAccount <- getNextAvailableAccount E model ;;
      failover account nextAccount (retryCount + 1)
    else ret None
  else ret None.

(** The [if (response.status === HTTP_STATUS.UNAUTHORIZED && retryCount < 1)]
    block. *)
Definition onUnauthorized (account : nat) (response : Response)
    (model : option string) (retryCount : Z) : M (option StepResult) :=
  if (status response =? UNAUTHORIZED) && (retryCount <? 1) then
    run markRefreshFailed account "401 Unauthorized" ;;
    do nextAccount <- getNextAvailableAccount E model ;;
    failover account nextAccount (retryCount + 1)
  else ret None.

(** Lines 344-407: what is done with the upstream response. *)
Definition classifyResponse (account : nat) (response : Response)
    (model : option string) (isStreaming : bool) (retryCount : Z) : M StepResult :=
  do r429 <- onTooManyRequests account response model retryCount ;;
  match r429 with
  | Some out => ret out
  | None =>
    do r401 <- onUnauthorized account response model retryCount ;;
    match r401 with
    | Some out => ret out
    | None =>
      if negb (responseOk response)
      then ret (Done (ErrorReply (handleErrorResponse response)))
      else ret (Done (SuccessReply response isStreaming))
    end
  end.

(** Lines 256-270: the token could not be validated. *)
Definition onInvalidToken (account : nat) (retryCount : Z) : M StepResult :=
  do nextAccount <- getNextAvailableAccount E None ;;
  do out <- failover account nextAccount retryCount ;;
  match out with
  | Some o => ret o
  | None => ret (Done (Synthetic UNAUTHORIZED AllAccountsFailedTokenRefresh))
  end.

(** The body of [executeRequest], up to its tail call. *)
Definition executeStep (body : RequestBody) (account : nat) (retryCount : Z)
    : M StepResult :=
  do isTokenValid <- ensureValidToken E account ;;
  if negb isTokenValid then onInvalidToken account retryCount
  else
    do parsed <-
      (match body with
       | NoBody => ret (None, false)
       | BodyUnparseable => throw "SyntaxError"
       | BodyJson model stream => ret (model, stream)
       end) ;;
    let model : option string := fst parsed in
    let isStreaming : bool := snd parsed in
    do w <- get ;;
    let a := deref w account in
    let accessToken := if truthyS (access a) then default "" (access a) else "" in
    let accountId' :=
      orS (accountId a) (decodeJWT E accessToken ≫= chatgpt_account_id) in
    if negb (truthyS accountId') then ret (Done (Synthetic UNAUTHORIZED NoAccountId))
    else
      do response <-
        callFetch account (mkFetchCall accessToken (default "" accountId') model) ;;
      classifyResponse account response model isStreaming retryCount.

(** [executeRequest]: the recursion of the source, with [fuel] bounding the
    number of activations; [None] when the fuel does not suffice. *)
Fixpoint executeRequest (fuel : nat) (body : RequestBody) (account : nat)
    (retryCount : Z) (w : World) : option (Res Reply * World) :=
  match fuel with
  | O => None
  | S fuel' =>
    match executeStep body account retryCount w with
    | (Throw err, w') => Some (Throw err, w')
    | (Ok (Done reply), w') => Some (Ok reply, w')
    | (Ok (Recurse nextAccount retryCount'), w') =>
      executeRequest fuel' body nextAccount retryCount' w'
    end
  end.

(** The [fetch] the plugin hands to the SDK. *)
Definition pluginFetch (fuel : nat) (body : RequestBody) (w : World)
    : option (Res Reply * World) :=
  let model := extractModelFromBody body in
  match getNextAvailableAccount E model w with
  | (Throw err, w') => Some (Throw err, w')
  | (Ok None, w') => Some (Ok (Synthetic 503 NoAvailableAccounts), w')
  | (Ok (Some account), w') => executeRequest fuel body account 0 w'
  end.

End Orchestrator.

(** ** Usage-snapshot tracker ([CodexStatusManager]) *)

Module CodexStatusManager.

Record RateWindow := mkWindow {
  usedPercent : Q;
  windowMinutes : Q;
  resetAt : Z;
}.

Record Credits := mkCredits {
  hasCredits : bool;
  unlimited : bool;
  balance : string;
}.

Record CodexRateLimitSnapshot := mkSnapshot {
  key : option string;
  accountId : string;
  email : string;
  plan : string;
  updatedAt : Z;
  primary : option RateWindow;
  secondary : option RateWindow;
  credits : option Credits;
}.

Definition STALENESS_TTL_MS : Z := 15 * 60 * 1000.
Definition SNAPSHOT_RETENTION_MS : Z := 7 * 24 * 60 * 60 * 1000.

(** A JavaScript [Map] with string keys: its entries in insertion order,
    no key twice. *)
Definition JsMap (V : Type) : Type := list (string * V).

Fixpoint mapGet {V} (k : string) (m : JsMap V) : option V :=
  match m with
  | [] => None
  | (k', v) :: rest => if String.eqb k' k then Some v else mapGet k rest
  end.

(** [m.set(k, v)]: an existing key keeps its place, a new one goes last. *)
Fixpoint mapSet {V} (k : string) (v : V) (m : JsMap V) : JsMap V :=
  match m with
  | [] => [(k, v)]
  | (k', v') :: rest =>
    if String.eqb k' k then (k, v) :: rest else (k', v') :: mapSet k v rest
  end.

(** [m.delete(k)]. *)
Fixpoint mapDelete {V} (k : string) (m : JsMap V) : JsMap V :=
  match m with
  | [] => []
  | (k', v') :: rest =>
    if String.eqb k' k then mapDelete k rest else (k', v') :: mapDelete k rest
  end.

(** [new Map(entries)]. *)
Definition mapOfEntries {V} (entries : list (string * V)) : JsMap V :=
  fold_left (fun m kv => mapSet (fst kv) (snd kv) m) entries [].

(** What [JSON.parse] of the snapshots file gives, when the file is there. *)
Inductive SnapshotsFile :=
  | SnapMissing
  | SnapUnparseable
  | SnapNotArray
  | SnapArray (entries : list (string * CodexRateLimitSnapshot)).

Record Tracker := mkTracker {
  snapshots : JsMap CodexRateLimitSnapshot;
  file : SnapshotsFile;
}.

(** [for (const [key, memoryValue] of this.snapshots)]: the newer of the
    two entries goes into [diskMap]. *)
Fixpoint mergeLoop (memory : list (string * CodexRateLimitSnapshot))
    (diskMap : JsMap CodexRateLimitSnapshot) : JsMap CodexRateLimitSnapshot :=
  match memory with
  | [] => diskMap
  | (k, memoryValue) :: rest =>
    let keepMemory :=
      match mapGet k diskMap with
      | None => true
      | Some diskValue => updatedAt memoryValue >? updatedAt diskValue
      end in
    mergeLoop rest (if keepMemory then mapSet k memoryValue diskMap else diskMap)
  end.

(** [for (const [key, value] of diskMap)]: entries past the retention
    window are deleted; [todo] is what the iteration has yet to visit. *)
Fixpoint pruneLoop (now : Z) (todo : list (string * CodexRateLimitSnapshot))
    (diskMap : JsMap CodexRateLimitSnapshot) : JsMap CodexRateLimitSnapshot :=
  match todo with
  | [] => diskMap
  | (k, value) :: rest =>
    pruneLoop now rest
      (if now - updatedAt value >? SNAPSHOT_RETENTION_MS
       then mapDelete k diskMap else diskMap)
  end.

(** [saveToDisk], with [now] the value of [Date.now()]. *)
Definition saveToDisk (now : Z) (t : Tracker) : Tracker :=
  let diskData :=
    match file t with
    | SnapArray entries => Some entries
    | _ => None
    end in
  let snapshots' :=
    match diskData with
    | Some entries =>
      let diskMap := mapOfEntries entries in
      let merged := mergeLoop (snapshots t) diskMap in
      pruneLoop now merged merged
    | None => snapshots t
    end in
  mkTracker snapshots' (SnapArray snapshots').

(** [updatedAt] lies outside the retention window at [now]. *)
Definition expired (now : Z) (v : CodexRateLimitSnapshot) : bool :=
  now - updatedAt v >? SNAPSHOT_RETENTION_MS.

(** The entry the merge keeps for a key, from what memory and disk hold. *)
Definition mergedEntry (memory disk : option CodexRateLimitSnapshot)
    : option CodexRateLimitSnapshot :=
  match memory, disk with
  | Some m, Some d => Some (if updatedAt m >? updatedAt d then m else d)
  | Some m, None => Some m
  | None, d => d
  end.

(** The keys of a map are pairwise distinct, as in every JavaScript [Map]. *)
Definition distinctKeys {V} (m : JsMap V) : Prop := NoDup ((fst <$> m)).

End CodexStatusManager.

(** ** Further parts of the account store *)

(** The [openai] entry of the host's [auth.json], as far as
    [importFromOpenCodeAuth] looks at it; its fields hold what the host
    writes there, strings and a number. *)
Record OpenAIAuth := mkOpenAIAuth {
  authType : option string;
  authRefresh : option string;
  authAccess : option string;
  authExpires : option Z;
}.

(** [OPENCODE_AUTH_FILE] at the time of the call; [AuthJson None] is a file
    that parses to a value without an [openai] entry. *)
Inductive OpenCodeAuthFile :=
  | AuthMissing                   (* existsSync is false *)
  | AuthCorrupt                   (* reading or JSON.parse throws *)
  | AuthJson (openai : option OpenAIAuth).

Section HostCredentials.

Variable E : Env.

Definition importFromOpenCodeAuth (authFile : OpenCodeAuthFile) : M unit :=
  match authFile with
  | AuthMissing => ret tt
  | _ =>
    try_catch
      (do openaiAuth <-
         (match authFile with
          | AuthJson openai => ret openai
          | _ => throw "SyntaxError"
          end) ;;
       match openaiAuth with
       | Some auth =>
         if eqS (authType auth) (Some "oauth") && truthyS (authRefresh auth) then
           let refresh := default "" (authRefresh auth) in
           do w <- get ;;
           let existingAccount :=
             find (fun r => String.eqb (refreshToken (deref w r)) refresh)
                  (accounts w) in
           match existingAccount with
           | Some _ => ret tt
           | None =>
             run addAccount E None refresh (authAccess auth) (authExpires auth) ;;
             ret tt
           end
         else ret tt
       | None => ret tt
       end)
      (fun _ => ret tt)
  end.

End HostCredentials.

(** ** The tracker's other methods ([CodexStatusManager]) *)

Module CodexStatus.

Module CSM := CodexStatusManager.

(** [Math.max] and [Math.min] on rationals. *)
Definition mathMax (a b : Q) : Q := if Qle_bool a b then b else a.
Definition mathMin (a b : Q) : Q := if Qle_bool a b then a else b.

(** The tracker with its [initPromise]: whether [loadFromDisk] has been
    started. *)
Record Manager := mkManager {
  tracker : CSM.Tracker;
  initPromise : bool;
}.

(** [loadFromDisk]: a file that is missing, unparseable or not an array
    leaves the map as it is. *)
Definition loadFromDisk (t : CSM.Tracker) : CSM.Tracker :=
  match CSM.file t with
  | CSM.SnapArray data => CSM.mkTracker (CSM.mapOfEntries data) (CSM.file t)
  | _ => t
  end.

Definition ensureInitialized (m : Manager) : Manager :=
  if initPromise m then m else mkManager (loadFromDisk (tracker m)) true.

Section Keys.

(** [String.prototype.toLowerCase], the hex digest of SHA-256, and
    [Number] read as a rational and as an instant ([None] is [NaN]). *)
Variables (toLowerCase sha256hex : string -> string).
Variables (numberQ : string -> option Q) (numberZ : string -> option Z).

(** [getSnapshotKey] for a [ManagedAccount]: such an object has no [plan],
    always has [parts] and a numeric [index], so the last line of the
    source, "unknown", is not reached. *)
Definition getSnapshotKey (account : ManagedAccount) : string :=
  let plan := default "" (orS (planType account) None) in
  if truthyS (accountId account) && truthyS (email account)
     && negb (String.eqb plan "")
  then default "" (accountId account) +:+ "|" +:+
       toLowerCase (default "" (email account)) +:+ "|" +:+ plan
  else if negb (String.eqb (refreshToken account) "")
  then sha256hex (refreshToken account)
  else if truthyS (email account)
  then "email:" +:+ toLowerCase (default "" (email account))
  else if truthyS (accountId account)
  then "account:" +:+ default "" (accountId account)
  else "index:" +:+ pretty (index account).

(** The closures of [updateFromHeaders]. The header object the orchestrator
    passes maps names to strings. *)
Definition getHeader (headers : gmap string string) (name : string) : option string :=
  if truthyS (headers !! name) then headers !! name else headers !! toLowerCase name.

Definition parseNum {N : Type} (number : string -> option N) (val : option string)
    : option N :=
  match val with
  | None => None
  | Some s => if String.eqb s "" then None else number s
  end.

Definition parseBool (val : option string) : option bool :=
  match val with
  | None => None
  | Some s => if String.eqb s "" then None
              else Some (String.eqb s "true" || String.eqb s "1")
  end.

(** [let reset = parseNum(...); if (reset !== null && reset < 2000000000)
    reset *= 1000]. *)
Definition parseReset (val : option string) : option Z :=
  match parseNum numberZ val with
  | Some reset => if reset <? 2000000000 then Some (reset * 1000) else Some reset
  | None => None
  end.

(** [v !== null]. *)
Definition notNull {A : Type} (v : option A) : bool :=
  match v with Some _ => true | None => false end.

(** One of the two window fields of the new snapshot. *)
Definition headerWindow (used window : option Q) (reset : option Z)
    (existing : option CSM.RateWindow) : option CSM.RateWindow :=
  if notNull used || notNull window || notNull reset then
    Some (CSM.mkWindow
            (mathMax 0%Q (mathMin 100%Q
               (default (default 0%Q (CSM.usedPercent <$> existing)) used)))
            (mathMax 0%Q (default (default 0%Q (CSM.windowMinutes <$> existing)) window))
            (default (default 0 (CSM.resetAt <$> existing)) reset))
  else existing.

Definition headerCredits (hasCredits unlimited : option bool) (balance : option string)
    (existing : option CSM.Credits) : option CSM.Credits :=
  if notNull hasCredits || notNull unlimited || notNull balance then
    Some (CSM.mkCredits
            (default (default false (CSM.hasCredits <$> existing)) hasCredits)
            (default (default false (CSM.unlimited <$> existing)) unlimited)
            (default (default "0" (orS (CSM.balance <$> existing) None)) balance))
  else existing.

(** The object literal [snapshot] of [updateFromHeaders]; [now] is the
    [Date.now()] in it. *)
Definition headerSnapshot (now : Z) (account : ManagedAccount)
    (headers : gmap string string) (existing : option CSM.CodexRateLimitSnapshot)
    : CSM.CodexRateLimitSnapshot :=
  let primaryUsed := parseNum numberQ (getHeader headers "x-codex-primary-used-percent") in
  let primaryWindow :=
    parseNum numberQ (getHeader headers "x-codex-primary-window-minutes") in
  let primaryReset := parseReset (getHeader headers "x-codex-primary-reset-at") in
  let secondaryUsed :=
    parseNum numberQ (getHeader headers "x-codex-secondary-used-percent") in
  let secondaryWindow :=
    parseNum numberQ (getHeader headers "x-codex-secondary-window-minutes") in
  let secondaryReset := parseReset (getHeader headers "x-codex-secondary-reset-at") in
  let hasCredits := parseBool (getHeader headers "x-codex-credits-has-credits") in
  let unlimited := parseBool (getHeader headers "x-codex-credits-unlimited") in
  let balance := getHeader headers "x-codex-credits-balance" in
  CSM.mkSnapshot None
    (default "" (orS (accountId account) None))
    (default "" (orS (email account) None))
    (default "" (orS (planType account) None))
    now
    (headerWindow primaryUsed primaryWindow primaryReset (existing ≫= CSM.primary))
    (headerWindow secondaryUsed secondaryWindow secondaryReset
       (existing ≫= CSM.secondary))
    (headerCredits hasCredits unlimited balance (existing ≫= CSM.credits)).

(** [updateFromHeaders]; [now] is the [Date.now()] of the snapshot,
    [nowSave] the one of [saveToDisk]. *)
Definition updateFromHeaders (now nowSave : Z) (account : ManagedAccount)
    (headers : gmap string string) (m : Manager) : Manager :=
  let m1 := ensureInitialized m in
  let key := getSnapshotKey account in
  let existing := CSM.mapGet key (CSM.snapshots (tracker m1)) in
  let snapshot := headerSnapshot now account headers existing in
  let snapshots' := CSM.mapSet key snapshot (CSM.snapshots (tracker m1)) in
  mkManager (CSM.saveToDisk nowSave (CSM.mkTracker snapshots' (CSM.file (tracker m1))))
            (initPromise m1).

(** [getSnapshot]: the snapshot with its [isStale], or null. *)
Definition getSnapshot (now : Z) (account : ManagedAccount) (m : Manager)
    : option (CSM.CodexRateLimitSnapshot * bool) * Manager :=
  let m1 := ensureInitialized m in
  let key := getSnapshotKey account in
  match CSM.mapGet key (CSM.snapshots (tracker m1)) with
  | None => (None, m1)
  | Some snapshot =>
    (Some (snapshot, now - CSM.updatedAt snapshot >? CSM.STALENESS_TTL_MS), m1)
  end.

(** [getAllSnapshots]: every snapshot, with its key in it. *)
Definition getAllSnapshots (m : Manager) : list CSM.CodexRateLimitSnapshot * Manager :=
  let m1 := ensureInitialized m in
  (map (fun kv =>
          CSM.mkSnapshot (Some (fst kv)) (CSM.accountId (snd kv)) (CSM.email (snd kv))
            (CSM.plan (snd kv)) (CSM.updatedAt (snd kv)) (CSM.primary (snd kv))
            (CSM.secondary (snd kv)) (CSM.credits (snd kv)))
       (CSM.snapshots (tracker m1)),
   m1).

End Keys.

(** A window's figures are in range: a percentage between 0 and 100 and a
    length that is not negative. *)
Definition windowOk (p : option CSM.RateWindow) : Prop :=
  match p with
  | Some p => (0 <= CSM.usedPercent p <= 100)%Q /\ (0 <= CSM.windowMinutes p)%Q
  | None => True
  end.

Definition snapshotOk (s : CSM.CodexRateLimitSnapshot) : Prop :=
  windowOk (CSM.primary s) /\ windowOk (CSM.secondary s).

(** Every snapshot held in memory and in the file is in range. *)
Definition allOk (m : CSM.JsMap CSM.CodexRateLimitSnapshot) : Prop :=
  Forall (fun kv => snapshotOk (snd kv)) m.

Definition trackerOk (t : CSM.Tracker) : Prop :=
  allOk (CSM.snapshots t) /\
  match CSM.file t with
  | CSM.SnapArray entries => allOk entries
  | _ => True
  end.

(** A tracker as the module creates it, on the snapshots file [f]. *)
Definition newTracker (f : CSM.SnapshotsFile) : Manager :=
  mkManager (CSM.mkTracker [] f) false.

End CodexStatus.

(** ** The models cache ([fetchAvailableModels]) *)

Module CodexModels.

(** A model as the [/models] endpoint lists it; the optional fields are
    carried along unread and left out here. *)
Record ModelInfo := mkModelInfo {
  slug : string;
  display_name : string;
}.

Definition CACHE_TTL_MS : Z := 5 * 60 * 1000.

Record CacheEntry := mkEntry {
  models : list ModelInfo;
  fetchedAt : Z;
}.

(** What the request to the endpoint comes to. *)
Inductive ModelsOutcome :=
  | ModelsOk (dataModels : option (list ModelInfo))
      (* response.ok; [None] when the body has no [models] *)
  | ModelsNotOk (status : Z)
  | ModelsThrows.         (* fetch or response.json() rejects *)

(** [fetchAvailableModels]; [nowCheck] is the [Date.now()] of the cache
    test, [nowStore] the one stored with a new entry. The result comes
    with the cache as the call leaves it and with whether the endpoint was
    asked. *)
Definition fetchAvailableModels (nowCheck nowStore : Z) (net : ModelsOutcome)
    (accessToken accountId : string) (modelsCache : gmap string CacheEntry)
    : list ModelInfo * gmap string CacheEntry * bool :=
  let cacheKey := accountId in
  let cached := modelsCache !! cacheKey in
  let valid :=
    match cached with
    | Some c => nowCheck - fetchedAt c <? CACHE_TTL_MS
    | None => false
    end in
  if valid then (default [] (models <$> cached), modelsCache, false)
  else
    match net with
    | ModelsOk dataModels =>
      let models' := default [] dataModels in
      (models', <[cacheKey := mkEntry models' nowStore]> modelsCache, true)
    | _ => (default [] (models <$> cached), modelsCache, true)
    end.

Definition isModelAvailable (nowCheck nowStore : Z) (net : ModelsOutcome)
    (modelSlug accessToken accountId : string) (modelsCache : gmap string CacheEntry)
    : bool * gmap string CacheEntry * bool :=
  let '(models', cache', asked) :=
    fetchAvailableModels nowCheck nowStore net accessToken accountId modelsCache in
  (existsb (fun m => String.eqb (slug m) modelSlug) models', cache', asked).

End CodexModels.

(** ** The plugin's toasts *)

Module Toasts.

Record Toast := mkToast {
  message : string;
  variant : string;
}.

(** The module's two debounce variables, and the toasts handed to
    [client.tui.showToast] so far (a call that fails is caught and has no
    further effect). *)
Record ToastState := mkToastState {
  lastToastAccountIndex : option Z;
  lastToastTime : Z;
  shown : list Toast;
}.

Definition TOAST_DEBOUNCE_MS : Z := 5000.

Definition initialToastState : ToastState := mkToastState None 0 [].

(** [Math.ceil(a / b)] for integers and a positive [b]. *)
Definition ceilDiv (a b : Z) : Z := - ((- a) / b).

(** [account.email || `Account ${account.index + 1}`]. *)
Definition accountLabel (account : ManagedAccount) : string :=
  if truthyS (email account) then default "" (email account)
  else "Account " +:+ pretty (index account + 1).

(** For [NaN], [retryMinutes] is [NaN], [retryMinutes >= 60] is false and
    the template prints it as it is. *)
Definition retryText (retryAfterMs : JsNum) : string :=
  match retryAfterMs with
  | NaN => "NaN" +:+ "m"
  | Num ms =>
    let retryMinutes := ceilDiv ms 60000 in
    if retryMinutes >=? 60
    then pretty (ceilDiv retryMinutes 60) +:+ "h"
    else pretty retryMinutes +:+ "m"
  end.

Definition showRateLimitToast (quietMode : bool) (account : ManagedAccount)
    (retryAfterMs : JsNum) (st : ToastState) : ToastState :=
  if quietMode then st
  else
    mkToastState (lastToastAccountIndex st) (lastToastTime st)
      (shown st ++
       [mkToast (accountLabel account +:+ " rate limited. Retry in " +:+
                 retryText retryAfterMs +:+ ".")
                "warning"]).

(** [showAccountToast]; [now] is its [Date.now()]. *)
Definition showAccountToast (quietMode : bool) (now : Z) (account : ManagedAccount)
    (totalAccounts : Z) (st : ToastState) : ToastState :=
  if quietMode then st
  else if totalAccounts <=? 1 then st
  else if match lastToastAccountIndex st with
          | Some i => i =? index account
          | None => false
          end && (now - lastToastTime st <? TOAST_DEBOUNCE_MS)
  then st
  else
    let planLabel :=
      if truthyS (planType account)
      then " [" +:+ default "" (planType account) +:+ "]" else "" in
    mkToastState (Some (index account)) now
      (shown st ++
       [mkToast ("Using " +:+ accountLabel account +:+ planLabel +:+ " (" +:+
                 pretty (index account + 1) +:+ "/" +:+ pretty totalAccounts +:+ ")")
                "info"]).

End Toasts.

(** ** The plugin's [config] hook *)

Module PluginConfig.

Record Command := mkCommand {
  template : string;
  description : string;
}.

(** [cfg.experimental], as far as the hook touches it. *)
Record Experimental := mkExperimental {
  primary_tools : option (list string);
}.

(** The host's configuration, as far as the hook touches it; [None] is a
    field that is not there. *)
Record Config := mkCfg {
  command : option (gmap string Command);
  experimental : option Experimental;
}.

Definition configHook (cfg : Config) : Config :=
  let command' :=
    <["codex-status" :=
        mkCommand
          "Run the codex-status tool and output the result EXACTLY as returned by the tool, without any additional text or commentary."
          "List all configured OpenAI accounts and their current usage status."]>
      (default ∅ (command cfg)) in
  let experimental' := default (mkExperimental None) (experimental cfg) in
  let tools := default [] (primary_tools experimental') in
  let tools' :=
    if bool_decide ("codex-status" ∈ tools) then tools else tools ++ ["codex-status"] in
  mkCfg (Some command') (Some (mkExperimental (Some tools'))).

End PluginConfig.

(** ** Notions used in the statements *)

(** [r] refers to an allocated account object. *)
Definition valid (w : World) (r : nat) : Prop := (r < length (heap w))%nat.

(** The pool holds distinct, allocated objects. *)
Definition poolOk (w : World) : Prop :=
  NoDup (accounts w) /\ Forall (valid w) (accounts w).

(** The index the linear scan starts from. *)
Definition startIndexOf (w : World) : Z :=
  if isRoundRobin (config w) then roundRobinCursor w else activeIndex w.

(** Once the strategy state is initialised, the scan start is not negative
    (it then is a position the selector itself has stored). *)
Definition cursorOk (w : World) : Prop :=
  strategyInitialized w = true -> 0 <= startIndexOf w.

(** Availability in the words of the specification. A reset that is
    [NaN] is no instant, so it is not in the future. *)
Definition available (c : MultiAccountConfig) (a : ManagedAccount)
    (model : option string) (now : Z) : Prop :=
  consecutiveFailures a < 3 /\
  (forall t : Z, globalRateLimitReset a = Some (Num t) -> ~ t > now) /\
  (perModelRateLimits c = true -> forall m (t : Z),
     model = Some m -> m <> "" -> rateLimitResets a !! m = Some (Num t) -> ~ t > now).

(** The account the scan looks at in its [k]-th iteration. *)
Definition scanned (w : World) (k : Z) : option nat :=
  arrayGet (accounts w) (jsRem (startIndexOf w + k) (getAccountCount w)).

(** The next account has the same index as the current one, or there is
    none. *)
Definition sameOrNull (w : World) (account : nat) (nextAccount : option nat) : Prop :=
  match nextAccount with
  | None => True
  | Some n => index (deref w n) = index (deref w account)
  end.

(** [m] returns normally, whatever the state. *)
Definition total {A} (m : M A) : Prop :=
  forall w, exists a w', m w = (Ok a, w').

(** [m] leaves the part [proj] of the state as it was, also when it
    throws. *)
Definition preserves {A B} (proj : World -> B) (m : M A) : Prop :=
  forall w, proj (snd (m w)) = proj w.

(** The state in which [ensureValidToken] has the refresh endpoint's
    answer: the account is flagged, the clock was read once, the call is
    logged. *)
Definition refreshing (w : World) (r : nat) : World :=
  set_refreshLog (refreshLog w ++ [refreshToken (deref w r)])
    (set_tick (S (S (tick w)))
       (set_heap (alter (set_isRefreshing (Some true)) r (heap w)) w)).

(** The token of [a] has to be refreshed at time [now]: an expiry is set
    and it is not more than the lead time away. *)
Definition needsRefresh (c : MultiAccountConfig) (a : ManagedAccount) (now : Z) : Prop :=
  exists e, expires a = Some e /\ e <> 0 /\ e <= now + proactiveRefreshThresholdMs c.

(** Every account's [index] is its position in the pool. *)
Definition dense (w : World) : Prop :=
  forall j r, accounts w !! j = Some r -> index (deref w r) = Z.of_nat j.

(** The [index] fields of the pool, in pool order. *)
Definition poolIndices (w : World) : list Z :=
  map (fun r => index (deref w r)) (accounts w).

(** The claims [addAccount] reads from the access token it is given. *)
Definition claimsOf (E : Env) (accessToken : option string) : option JwtClaims :=
  if truthyS accessToken then decodeJWT E (default "" accessToken) else None.

(** [if (c) account.f = v] as one assignment. *)
Definition onlyIf (c : bool) (f : ManagedAccount -> ManagedAccount)
    : ManagedAccount -> ManagedAccount :=
  if c then f else id.

(** The file is missing, cannot be read or parsed, or parses to something
    that is not a version-1 snapshot: null, a value without the fields, an
    object whose version is not 1 or whose accounts are not an array. *)
Definition unusableFile (f : AccountsFile) : Prop :=
  f = FileMissing \/ f = FileCorrupt \/ f = FileJson JNull \/ f = FileJson JPlain \/
  exists v accs act, f = FileJson (JObject v accs act) /\ (v <> Some 1 \/ accs = None).

(** What [markRefreshFailed] writes of each account object. *)
Definition failureNotes (w : World) : list (Z * option string * option bool) :=
  (fun a => (consecutiveFailures a, lastRefreshError a, isRefreshing a)) <$> heap w.

(** What a tail call of one activation looks like. *)
Definition recursesTo (rc : Z) (out : StepResult) (w' : World) (account : nat) : Prop :=
  match out with
  | Done _ => True
  | Recurse n rc' => rc' = rc /\ index (deref w' n) <> index (deref w' account)
  end.

(** [m] does not add accounts to the pool. *)
Definition shrinks {A} (m : M A) : Prop :=
  forall w, (length (accounts (snd (m w))) <= length (accounts w))%nat.

(** The upstream attempts made so far. *)
Definition attempts (w : World) : Z := Z.of_nat (length (fetchLog w)).

(** The tail calls the retry count still allows: a 429 is retried while
    [retryCount < poolSize - 1], a 401 while [retryCount < 1]. *)
Definition retryBudget (w : World) (rc : Z) : Z :=
  Z.max 0 (Z.max (getAccountCount w - 1) 1 - rc).

(** No account's token is due: [expires] is unset on all of them. *)
Definition tokensFresh (w : World) : Prop :=
  forall r, truthyZ (expires (deref w r)) = false.

(** The [expires] fields of the heap. *)
Definition expiries (w : World) : list (option Z) := expires <$> heap w.

(** ** Sample data *)

Definition sampleAccount (i : Z) (token : string) : ManagedAccount :=
  mkAccount i None None (Some "acct") None 0 None token (Some "jwt") None ∅ None 0
    None None.

Definition sampleConfig (s : Strategy) : MultiAccountConfig :=
  mkConfig s false true false (5 * 60 * 1000) true true.

Definition sampleResponse (st : Z) : Response := mkResponse st None None false.

(** An environment whose refresh endpoint answers [refresh] and whose
    upstream always answers with status [st]. *)
Definition sampleEnv (refresh : RefreshOutcome) (st : Z) : Env :=
  mkEnv (fun _ => None) (fun k => 1700000000000 + Z.of_nat k)
        (fun _ _ => refresh) (fun _ _ => Responded (sampleResponse st)) 4242.

Definition samplePool (s : Strategy) (l : list ManagedAccount) : World :=
  mkWorld l (seq 0 (length l)) 0 0 false (sampleConfig s) FileMissing 0 [] [].

Definition threeAccounts : list ManagedAccount :=
  [sampleAccount 0 "rt-1"; sampleAccount 1 "rt-2"; sampleAccount 2 "rt-3"].

(** An account whose token expired, whose refresh is marked as in flight
    and which holds no access token: [ensureValidToken] answers false for
    it without calling the refresh endpoint and without counting a
    failure. *)
Definition stuckAccount (i : Z) (token : string) : ManagedAccount :=
  set_isRefreshing (Some true)
    (set_access None (set_expires (Some 1) (sampleAccount i token))).

(** Two such accounts under round-robin, as loaded from the accounts file. *)
Definition stuckPool : World :=
  samplePool RoundRobin [stuckAccount 0 "rt-1"; stuckAccount 1 "rt-2"].

(** The states the request moves through. *)
Definition stuckWorld (t : nat) (active cursor : Z) (used0 used1 : option Z) : World :=
  mkWorld [set_lastUsed used0 (stuckAccount 0 "rt-1");
           set_lastUsed used1 (stuckAccount 1 "rt-2")]
          [0; 1]%nat active cursor true (sampleConfig RoundRobin) FileMissing t [] [].

(** ** Notions used in the further properties *)

(** [a] passes the availability test for [model] at every time. *)
Definition alwaysAvailable (c : MultiAccountConfig) (a : ManagedAccount)
    (model : option string) : Prop :=
  forall now, isAccountAvailable c a model now = true.

(** [k] calls of [getNextAvailableAccount(model)] in a row, with what each
    returned. *)
Fixpoint picks (E : Env) (model : option string) (k : nat) : M (list (option nat)) :=
  match k with
  | O => ret []
  | S k' =>
    do r <- getNextAvailableAccount E model ;;
    do rest <- picks E model k' ;;
    ret (r :: rest)
  end.

(** A process that starts on the accounts file [file]: a new manager that
    loads it. *)
Definition startSession (c : MultiAccountConfig) (file : AccountsFile) : World :=
  snd (loadFromDisk (newManager c file)).

(** The account records of the pool, in pool order. *)
Definition poolRecords (w : World) : list ManagedAccount :=
  map (deref w) (accounts w).

(** [k] failures in a row reported for [account]. *)
Fixpoint failures (account : nat) (error : string) (k : nat) : M unit :=
  match k with
  | O => ret tt
  | S k' => run markRefreshFailed account error ;; failures account error k'
  end.

(** The accounts file holds the pool as it is. *)
Definition saved (w : World) : Prop :=
  disk w = FileJson (JObject (Some 1) (Some (poolRecords w)) (Some (activeIndex w))).

(** What the availability test reads of each account object. *)
Definition limits (w : World) : list (Z * option JsNum * gmap string JsNum) :=
  (fun a => (consecutiveFailures a, globalRateLimitReset a, rateLimitResets a)) <$> heap w.

(** ** Basic facts about references and the monad *)

Lemma valid_lookup w r : valid w r -> heap w !! r = Some (deref w r).
Proof.
  unfold valid, deref. intros H.
  destruct (lookup_lt_is_Some_2 (heap w) r H) as [a Ha]. by rewrite Ha.
Qed.

Lemma deref_alter_eq w w' f r :
  heap w' = alter f r (heap w) -> valid w r -> deref w' r = f (deref w r).
Proof.
  intros Hh Hv. unfold deref at 1. rewrite Hh, list_lookup_alter_eq.
  by rewrite (valid_lookup _ _ Hv).
Qed.

Lemma deref_alter_ne w w' f r r' :
  heap w' = alter f r (heap w) -> r <> r' -> deref w' r' = deref w r'.
Proof.
  intros Hh Hne. unfold deref. by rewrite Hh, list_lookup_alter_ne.
Qed.

Lemma deref_same_heap w w' r : heap w' = heap w -> deref w' r = deref w r.
Proof. unfold deref. by intros ->. Qed.

Lemma getAccountCount_nonneg w : 0 <= getAccountCount w.
Proof. unfold getAccountCount. lia. Qed.

Lemma findIndex_Some {A} (p : A -> bool) (l : list A) i :
  findIndex p l = Some i <->
  exists x, l !! i = Some x /\ p x = true /\
            forall j y, (j < i)%nat -> l !! j = Some y -> p y = false.
Proof.
  revert i. induction l as [|x l IH]; intros i; cbn [findIndex].
  - split; [discriminate|]. by intros (y & Hy & _).
  - destruct (p x) eqn:Hp.
    + split.
      * intros [= <-]. exists x. repeat split; [done|]. intros j y Hj. lia.
      * intros (y & Hy & Hpy & Hmin). destruct i as [|i]; [done|].
        specialize (Hmin 0%nat x ltac:(lia) eq_refl). congruence.
    + split.
      * destruct (findIndex p l) as [i'|] eqn:Hf; [|discriminate].
        intros [= <-]. destruct (proj1 (IH i') eq_refl) as (y & Hy & Hpy & Hmin).
        exists y. repeat split; [done..|]. intros [|j] z Hj Hz.
        -- cbn in Hz. congruence.
        -- apply (Hmin j z); [lia|exact Hz].
      * intros (y & Hy & Hpy & Hmin). destruct i as [|i].
        -- cbn in Hy. congruence.
        -- assert (Hi : findIndex p l = Some i).
           { apply IH. exists y. repeat split; [done..|]. intros j z Hj Hz.
             apply (Hmin (S j) z); [lia|exact Hz]. }
           by rewrite Hi.
Qed.

(** ** Operations that cannot throw *)

Ltac wnorm :=
  cbn [set_heap set_accounts set_activeIndex set_roundRobinCursor
       set_strategyInitialized set_disk set_tick set_refreshLog set_fetchLog
       heap accounts activeIndex roundRobinCursor strategyInitialized config
       disk tick refreshLog fetchLog fst snd].

Ltac mrun :=
  cbn [bind ret get modify throw try_catch assign assignIf saveToDisk now_
       negb andb orb
       set_heap set_accounts set_activeIndex set_roundRobinCursor
       set_strategyInitialized set_disk set_tick set_refreshLog set_fetchLog
       heap accounts activeIndex roundRobinCursor strategyInitialized config
       disk tick refreshLog fetchLog fst snd].

Lemma total_unit (m : M unit) : total m -> forall w, m w = (Ok tt, snd (m w)).
Proof. intros H w. destruct (H w) as ([] & w' & ->). reflexivity. Qed.

Lemma total_ret {A} (a : A) : total (ret a).
Proof. intros w. by exists a, w. Qed.

Lemma total_bind {A B} (m : M A) (k : A -> M B) :
  total m -> (forall a, total (k a)) -> total (bind m k).
Proof.
  intros Hm Hk w. unfold bind. destruct (Hm w) as (a & w' & ->). apply Hk.
Qed.

Lemma total_get : total get.
Proof. intros w. by exists w, w. Qed.

Lemma total_modify f : total (modify f).
Proof. intros w. by exists tt, (f w). Qed.

Lemma total_assign r f : total (assign r f).
Proof. apply total_modify. Qed.

Lemma total_assignIf c r f : total (assignIf c r f).
Proof. destruct c; [apply total_assign|apply total_ret]. Qed.

Lemma total_saveToDisk : total saveToDisk.
Proof. apply total_modify. Qed.

Lemma total_now E : total (now_ E).
Proof. intros w. by eexists _, _. Qed.

Lemma total_if {A} (c : bool) (m1 m2 : M A) :
  total m1 -> total m2 -> total (if c then m1 else m2).
Proof. by destruct c. Qed.

Create HintDb total discriminated.
#[local] Hint Resolve total_ret total_get total_modify total_assign total_assignIf
  total_saveToDisk total_now : total.

Ltac total_tac :=
  repeat first
    [ solve [auto with total]
    | apply total_bind; [|intros ?]
    | apply total_if
    | match goal with |- total (match ?x with _ => _ end) => destruct x end ].

Lemma total_reindexFrom l : forall i, total (reindexFrom i l).
Proof.
  induction l as [|r l IH]; intros i; cbn [reindexFrom]; total_tac.
Qed.
#[local] Hint Resolve total_reindexFrom : total.

Lemma total_removeAccount r : total (removeAccount r).
Proof. unfold removeAccount. total_tac. Qed.
#[local] Hint Resolve total_removeAccount : total.

Lemma total_markRefreshFailed r e : total (markRefreshFailed r e).
Proof. unfold markRefreshFailed. total_tac. Qed.
#[local] Hint Resolve total_markRefreshFailed : total.

Lemma total_updateAccountTokens E r acc ref exp :
  total (updateAccountTokens E r acc ref exp).
Proof. unfold updateAccountTokens. total_tac. Qed.
#[local] Hint Resolve total_updateAccountTokens : total.


Lemma total_normalizeIndex i : total (normalizeIndex i).
Proof. unfold normalizeIndex. total_tac. Qed.
#[local] Hint Resolve total_normalizeIndex : total.

Lemma total_initializeStrategyState E : total (initializeStrategyState E).
Proof. unfold initializeStrategyState. total_tac. Qed.
#[local] Hint Resolve total_initializeStrategyState : total.

Lemma total_getLeastRateLimitedAccount E model :
  total (getLeastRateLimitedAccount E model).
Proof. unfold getLeastRateLimitedAccount. total_tac. Qed.
#[local] Hint Resolve total_getLeastRateLimitedAccount : total.

Lemma total_selectAt i r now : total (selectAt i r now).
Proof. unfold selectAt. total_tac. Qed.
#[local] Hint Resolve total_selectAt : total.

(** ** Running the monad one operation at a time *)

Lemma run_ret {A B} (a : A) (k : A -> M B) w : bind (ret a) k w = k a w.
Proof. reflexivity. Qed.

Lemma run_get {B} (k : World -> M B) w : bind get k w = k w w.
Proof. reflexivity. Qed.

Lemma run_modify {B} f (k : unit -> M B) w : bind (modify f) k w = k tt (f w).
Proof. reflexivity. Qed.

Lemma run_assign {B} r f (k : unit -> M B) w :
  bind (assign r f) k w = k tt (set_heap (alter f r (heap w)) w).
Proof. reflexivity. Qed.

Lemma run_throw {A B} e (k : A -> M B) w : bind (throw e) k w = (Throw e, w).
Proof. reflexivity. Qed.

Lemma run_now {B} E (k : Z -> M B) w :
  bind (now_ E) k w = k (dateNow E (tick w)) (set_tick (S (tick w)) w).
Proof. reflexivity. Qed.

Lemma run_saveToDisk {B} (k : unit -> M B) w :
  bind saveToDisk k w = k tt (snd (saveToDisk w)).
Proof. reflexivity. Qed.

Lemma run_unit {B} (m : M unit) (k : unit -> M B) w :
  total m -> bind m k w = k tt (snd (m w)).
Proof. intros H. unfold bind. by rewrite (total_unit m H w). Qed.

Lemma run_bind {A B C} (m : M A) (f : A -> M B) (k : B -> M C) w :
  bind (bind m f) k w = bind m (fun a => bind (f a) k) w.
Proof. unfold bind. by destruct (m w) as [[a|e] w']. Qed.

Ltac mstep :=
  first
    [ rewrite run_ret
    | rewrite run_get
    | rewrite run_modify
    | rewrite run_assign
    | rewrite run_throw
    | rewrite run_now
    | rewrite run_saveToDisk ];
  cbn beta.

Ltac msteps := repeat mstep.

(** ** Frame conditions *)

Lemma pres_bind {A B C} (proj : World -> B) (m : M A) (k : A -> M C) :
  preserves proj m -> (forall a, preserves proj (k a)) -> preserves proj (bind m k).
Proof.
  intros Hm Hk w. unfold bind. specialize (Hm w).
  destruct (m w) as [[a|e] w']; cbn in *; [|exact Hm].
  rewrite (Hk a w'). exact Hm.
Qed.

Lemma pres_try_catch {A B} (proj : World -> B) (m : M A) (h : string -> M A) :
  preserves proj m -> (forall e, preserves proj (h e)) ->
  preserves proj (try_catch m h).
Proof.
  intros Hm Hh w. unfold try_catch. specialize (Hm w).
  destruct (m w) as [[a|e] w']; cbn in *; [exact Hm|].
  rewrite (Hh e w'). exact Hm.
Qed.

Lemma pres_if {A B} (proj : World -> B) (c : bool) (m1 m2 : M A) :
  preserves proj m1 -> preserves proj m2 -> preserves proj (if c then m1 else m2).
Proof. by destruct c. Qed.

Create HintDb pres discriminated.

(** An assignment that keeps the field [proj] keeps the heap's [proj]s. *)
Lemma fmap_alter_keep {A B} (proj : A -> B) (f : A -> A) (r : nat) (l : list A) :
  (forall a, proj (f a) = proj a) -> proj <$> alter f r l = proj <$> l.
Proof.
  intros Hf. apply list_eq. intros i. rewrite !list_lookup_fmap.
  destruct (decide (r = i)) as [->|Hne].
  - rewrite list_lookup_alter_eq. destruct (l !! i); cbn; [by rewrite Hf|done].
  - by rewrite list_lookup_alter_ne.
Qed.

(** Structural decomposition; a leaf (a single read or write of the state)
    is closed by computation. *)
Ltac pres_step :=
  first
    [ assumption
    | solve [auto with pres]
    | apply pres_bind; [|intros ?]
    | apply pres_try_catch; [|intros ?]
    | apply pres_if
    | match goal with
      | |- preserves _ (match ?x with _ => _ end) => destruct x
      end
    | solve [unfold preserves; intros ?; reflexivity]
    | solve [unfold preserves; intros ?; cbn; apply fmap_alter_keep; intros ?; reflexivity] ].

Ltac pres_tac := cbn zeta; repeat pres_step.

(** *** The log of refresh calls *)

Lemma refreshLog_reindexFrom l : forall i, preserves refreshLog (reindexFrom i l).
Proof. induction l as [|r l IH]; intros i; cbn [reindexFrom]; pres_tac. Qed.
#[local] Hint Resolve refreshLog_reindexFrom : pres.

Lemma refreshLog_removeAccount r : preserves refreshLog (removeAccount r).
Proof. unfold removeAccount. pres_tac. Qed.
#[local] Hint Resolve refreshLog_removeAccount : pres.

Lemma refreshLog_markRefreshFailed r e : preserves refreshLog (markRefreshFailed r e).
Proof. unfold markRefreshFailed. pres_tac. Qed.

Lemma refreshLog_updateAccountTokens E r acc ref exp :
  preserves refreshLog (updateAccountTokens E r acc ref exp).
Proof. unfold updateAccountTokens, assignIf. pres_tac. Qed.

(** ** C2 and C3: selection *)

Lemma active_reset_iff (o : option JsNum) now :
  0 <= now ->
  truthyN o && (orZeroN o >? now) = true <-> exists t : Z, o = Some (Num t) /\ t > now.
Proof.
  intros Hnow. destruct o as [[|t]|]; cbn.
  - split; [discriminate|]. by intros (t & Ht & _).
  - rewrite andb_true_iff, negb_true_iff, Z.eqb_neq, Z.gtb_ltb, Z.ltb_lt. split.
    + intros [_ Ht]. exists t. split; [done|lia].
    + intros (t' & [= <-] & Ht). lia.
  - split; [discriminate|]. by intros (t & Ht & _).
Qed.

Lemma truthyS_iff (s : option string) :
  truthyS s = true <-> exists m, s = Some m /\ m <> "".
Proof.
  destruct s as [m|]; cbn.
  - rewrite negb_true_iff, String.eqb_neq. split; [by exists m|]. by intros (m' & [= <-] & H).
  - split; [discriminate|]. by intros (m & Hm & _).
Qed.

Lemma isAccountAvailable_iff c a model now :
  0 <= now ->
  isAccountAvailable c a model now = true <-> available c a model now.
Proof.
  intros Hnow. unfold isAccountAvailable, available.
  destruct (consecutiveFailures a >=? 3) eqn:Hf.
  { rewrite Z.geb_leb in Hf. apply Z.leb_le in Hf. split; [discriminate|]. lia. }
  rewrite Z.geb_leb in Hf. apply Z.leb_gt in Hf.
  pose proof (active_reset_iff (globalRateLimitReset a) now Hnow) as Hg.
  destruct (truthyN (globalRateLimitReset a) && (orZeroN (globalRateLimitReset a) >? now)).
  { split; [discriminate|]. intros (_ & Hno & _).
    destruct (proj1 Hg eq_refl) as (t & Ht & Hgt). by destruct (Hno t Ht). }
  assert (Hglob : forall t : Z, globalRateLimitReset a = Some (Num t) -> ~ t > now).
  { intros t Ht Hgt. assert (Hx : false = true) by (apply Hg; eauto). discriminate Hx. }
  destruct (truthyS model) eqn:Hm; cbn [andb].
  - apply truthyS_iff in Hm as (m & -> & Hne). change (default "" (Some m)) with m.
    destruct (perModelRateLimits c); cbn iota; [|by split; [intros _; repeat split|]].
    pose proof (active_reset_iff (rateLimitResets a !! m) now Hnow) as Hr.
    destruct (truthyN (rateLimitResets a !! m) && (orZeroN (rateLimitResets a !! m) >? now)).
    + split; [discriminate|]. intros (_ & _ & Hno).
      destruct (proj1 Hr eq_refl) as (t & Ht & Hgt).
      by destruct (Hno eq_refl m t eq_refl Hne Ht).
    + split; [|done]. intros _. repeat split; [done..|].
      intros _ m' t [= <-] _ Ht Hgt.
      assert (Hx : false = true) by (apply Hr; eauto). discriminate Hx.
  - split; [|done]. intros _. repeat split; [done..|].
    intros _ m t -> Hne. exfalso.
    assert (truthyS (Some m) = true) by (apply truthyS_iff; eauto). congruence.
Qed.

(** *** The strategy state after initialisation *)

Lemma rem_in_range a n : 0 <= a -> 0 < n -> 0 <= jsRem a n < n.
Proof. intros Ha Hn. unfold jsRem. rewrite Z.rem_mod_nonneg by lia. by apply Z.mod_pos_bound. Qed.

Lemma initializeStrategyState_facts E w :
  accounts w <> [] -> cursorOk w ->
  let w1 := snd (initializeStrategyState E w) in
  initializeStrategyState E w = (Ok tt, w1) /\
  heap w1 = heap w /\ accounts w1 = accounts w /\ config w1 = config w /\
  tick w1 = tick w /\ refreshLog w1 = refreshLog w /\ fetchLog w1 = fetchLog w /\
  strategyInitialized w1 = true /\ 0 <= startIndexOf w1.
Proof.
  intros Hne Hc. cbn zeta.
  split; [apply (total_unit _ (total_initializeStrategyState E))|].
  assert (Hlen : 0 < getAccountCount w).
  { unfold getAccountCount. destruct (accounts w); [done|cbn; lia]. }
  unfold initializeStrategyState. rewrite run_get.
  destruct (strategyInitialized w) eqn:Hi.
  { cbn. repeat split; try done. by apply Hc. }
  assert (Hz : (getAccountCount w =? 0) = false) by (apply Z.eqb_neq; lia).
  rewrite Hz. unfold normalizeIndex. rewrite run_bind, run_get, Hz.
  set (i0 := if (activeIndex w <? 0) || (activeIndex w >=? getAccountCount w)
             then 0 else activeIndex w).
  assert (Hi0 : 0 <= i0 < getAccountCount w).
  { unfold i0. destruct (activeIndex w <? 0) eqn:H1; cbn [orb]; [lia|].
    destruct (activeIndex w >=? getAccountCount w) eqn:H2; [lia|].
    apply Z.ltb_ge in H1. rewrite Z.geb_leb in H2. apply Z.leb_gt in H2. lia. }
  assert (Hnorm : forall (k : Z -> M unit),
            bind (if (activeIndex w <? 0) || (activeIndex w >=? getAccountCount w)
                  then ret 0 else ret (activeIndex w)) k w = k i0 w).
  { intros k. unfold i0. by destruct ((activeIndex w <? 0) || _). }
  rewrite Hnorm, run_modify.
  set (i1 := if isHybrid (config w) && (getAccountCount w >? 1)
             then jsRem (i0 + 1) (getAccountCount w) else i0).
  assert (Hi1 : 0 <= i1 < getAccountCount w).
  { unfold i1. destruct (isHybrid (config w) && (getAccountCount w >? 1));
      [apply rem_in_range; lia|exact Hi0]. }
  set (i2 := if pidOffsetEnabled (config w) && (getAccountCount w >? 1)
             then jsRem (i1 + jsRem (Z.abs (pid E)) (getAccountCount w)) (getAccountCount w)
             else i1).
  assert (Hi2 : 0 <= i2 < getAccountCount w).
  { unfold i2. destruct (pidOffsetEnabled (config w) && (getAccountCount w >? 1));
      [|exact Hi1].
    pose proof (rem_in_range (Z.abs (pid E)) (getAccountCount w) ltac:(lia) Hlen).
    apply rem_in_range; lia. }
  assert (Hstart : forall w0, activeIndex w0 = i2 -> roundRobinCursor w0 = i2 ->
                     0 <= startIndexOf w0).
  { intros w0 Ha Hr. unfold startIndexOf. destruct (isRoundRobin _); lia. }
  unfold i2, i1 in Hstart.
  destruct (isHybrid (config w) && (getAccountCount w >? 1));
    destruct (pidOffsetEnabled (config w) && (getAccountCount w >? 1));
    cbn; repeat split; try reflexivity; by apply Hstart.
Qed.

(** *** The linear scan *)

Lemma arrayGet_in_range {A} (l : list A) i :
  0 <= i < Z.of_nat (length l) ->
  exists r, arrayGet l i = Some r /\ l !! Z.to_nat i = Some r.
Proof.
  intros Hi. unfold arrayGet.
  assert (Hneg : (i <? 0) = false) by (apply Z.ltb_ge; lia). rewrite Hneg.
  destruct (lookup_lt_is_Some_2 l (Z.to_nat i) ltac:(lia)) as [r Hr].
  exists r. by rewrite Hr.
Qed.

Lemma arrayGet_elem {A} (l : list A) i r : arrayGet l i = Some r -> r ∈ l.
Proof.
  unfold arrayGet. destruct (i <? 0); [discriminate|].
  intros H. apply list_elem_of_lookup. eauto.
Qed.

Lemma count_accounts w w' :
  accounts w' = accounts w -> getAccountCount w' = getAccountCount w.
Proof. unfold getAccountCount. by intros ->. Qed.

Lemma count_pos w : accounts w <> [] -> 0 < getAccountCount w.
Proof. unfold getAccountCount. destruct (accounts w); [done|cbn; lia]. Qed.

Section Scan.

Variables (model : option string) (now s : Z) (W : World).
Hypothesis s_nonneg : 0 <= s.
Hypothesis pool_nonempty : accounts W <> [].

Let at_ (k : Z) : option nat :=
  arrayGet (accounts W) (jsRem (s + k) (getAccountCount W)).
Let avail (r : nat) : bool :=
  isAccountAvailable (config W) (deref W r) model now.

Lemma scan_position k : 0 <= k -> exists r, at_ k = Some r.
Proof.
  intros Hk. unfold at_.
  destruct (arrayGet_in_range (accounts W) (jsRem (s + k) (getAccountCount W)))
    as (r & Hr & _); [|eauto].
  apply rem_in_range; [lia|by apply count_pos].
Qed.

Lemma scanLoop_spec remaining : forall attempts, 0 <= attempts ->
  (exists k r,
     attempts <= k < attempts + Z.of_nat remaining /\
     at_ k = Some r /\ avail r = true /\
     (forall j r', attempts <= j < k -> at_ j = Some r' -> avail r' = false) /\
     scanLoop model now s remaining attempts W =
     (Ok (Some r), snd (selectAt (jsRem (s + k) (getAccountCount W)) r now W))) \/
  ((forall j r', attempts <= j < attempts + Z.of_nat remaining ->
      at_ j = Some r' -> avail r' = false) /\
   scanLoop model now s remaining attempts W = (Ok None, W)).
Proof.
  induction remaining as [|n IH]; intros attempts Ha.
  - right. split; [intros j r' Hj; lia|reflexivity].
  - cbn [scanLoop]. rewrite run_get.
    destruct (scan_position attempts Ha) as (r0 & Hr0). unfold at_ in Hr0.
    rewrite Hr0. destruct (isAccountAvailable (config W) (deref W r0) model now) eqn:Hav.
    + left. exists attempts, r0. split; [lia|]. split; [exact Hr0|].
      split; [exact Hav|]. split; [intros j r' Hj; lia|].
      by rewrite (run_unit _ _ _ (total_selectAt _ _ _)).
    + destruct (IH (attempts + 1) ltac:(lia))
        as [(k & r & Hk & Hat & Havk & Hmin & Hrun)|(Hnone & Hrun)].
      * left. exists k, r. split; [lia|]. split; [exact Hat|]. split; [exact Havk|].
        split; [|exact Hrun]. intros j r' Hj Hatj.
        destruct (decide (j = attempts)) as [->|Hne].
        -- unfold at_ in Hatj. rewrite Hr0 in Hatj. injection Hatj as <-. exact Hav.
        -- apply (Hmin j r'); [lia|exact Hatj].
      * right. split; [|exact Hrun]. intros j r' Hj Hatj.
        destruct (decide (j = attempts)) as [->|Hne].
        -- unfold at_ in Hatj. rewrite Hr0 in Hatj. injection Hatj as <-. exact Hav.
        -- apply (Hnone j r'); [lia|exact Hatj].
Qed.

(** Within [poolSize] iterations the scan has looked at every account. *)
Lemma scan_covers r :
  r ∈ accounts W -> exists k, 0 <= k < getAccountCount W /\ at_ k = Some r.
Proof.
  intros Hin. apply list_elem_of_lookup in Hin as (p & Hp).
  pose proof (count_pos W pool_nonempty) as Hn.
  pose proof (lookup_lt_Some _ _ _ Hp) as Hlt.
  set (n := getAccountCount W) in *.
  exists ((Z.of_nat p - s) mod n). split; [by apply Z.mod_pos_bound|].
  unfold at_. fold n. unfold jsRem.
  rewrite Z.rem_mod_nonneg; [|pose proof (Z.mod_pos_bound (Z.of_nat p - s) n Hn); lia|lia].
  rewrite Z.add_mod_idemp_r by lia.
  replace (s + (Z.of_nat p - s)) with (Z.of_nat p) by lia.
  rewrite Z.mod_small by (unfold n, getAccountCount; lia).
  unfold arrayGet.
  assert (Hneg : (Z.of_nat p <? 0) = false) by (apply Z.ltb_ge; lia).
  by rewrite Hneg, Nat2Z.id.
Qed.

End Scan.

(** *** The least-rate-limited fallback *)

Lemma leastLoop_ext w w' model l best e :
  heap w' = heap w -> config w' = config w ->
  leastLoop w' model l best e = leastLoop w model l best e.
Proof.
  intros Hh Hc. revert best e. induction l as [|r l IH]; intros best e; cbn [leastLoop];
    [done|].
  rewrite (deref_same_heap _ _ r Hh), Hc.
  destruct (consecutiveFailures (deref w r) >=? 3); [apply IH|].
  destruct e as [e|]; [destruct (_ <? e)|]; apply IH.
Qed.

Section Least.

Variables (w : World) (model : option string).

Let eligible (r : nat) : Prop := consecutiveFailures (deref w r) < 3.
Let time (r : nat) : Z := resetTimeOf (config w) model (deref w r).
Let below (e : option Z) (t : Z) : Prop :=
  match e with None => True | Some e' => t < e' end.

Lemma leastLoop_spec l : forall best e,
  (leastLoop w model l best e = best /\
   forall j r, l !! j = Some r -> eligible r -> ~ below e (time r)) \/
  (exists i f,
     l !! i = Some f /\ leastLoop w model l best e = Some f /\
     eligible f /\ below e (time f) /\
     forall j r, l !! j = Some r -> eligible r ->
       time f <= time r /\ ((j < i)%nat -> time f < time r)).
Proof.
  induction l as [|r0 l IH]; intros best e; cbn [leastLoop].
  - left. split; [reflexivity|]. intros j r Hj. by rewrite lookup_nil in Hj.
  - fold (time r0).
    destruct (consecutiveFailures (deref w r0) >=? 3) eqn:Hf.
    + rewrite Z.geb_leb in Hf. apply Z.leb_le in Hf.
      destruct (IH best e) as [(Hres & Hnone)|(i & f & Hi & Hres & Hel & Hbel & Hmin)].
      * left. split; [exact Hres|]. intros [|j] r Hj Hr.
        -- cbn in Hj. injection Hj as <-. unfold eligible in Hr. lia.
        -- by apply (Hnone j r).
      * right. exists (S i), f. repeat split; try done.
        -- destruct j as [|j]; [|by apply (Hmin j r)].
           cbn in H. injection H as <-. unfold eligible in H0. lia.
        -- destruct j as [|j]; [|intros ?; apply (Hmin j r); [done..|lia]].
           cbn in H. injection H as <-. unfold eligible in H0. lia.
    + rewrite Z.geb_leb in Hf. apply Z.leb_gt in Hf.
      assert (Hel0 : eligible r0) by exact Hf.
      assert (Hcase : (below e (time r0) /\
                       leastLoop w model l (Some r0) (Some (time r0)) =
                       (if match e with None => true | Some e' => time r0 <? e' end
                        then leastLoop w model l (Some r0) (Some (time r0))
                        else leastLoop w model l best e)) \/
                      (~ below e (time r0) /\
                       leastLoop w model l best e =
                       (if match e with None => true | Some e' => time r0 <? e' end
                        then leastLoop w model l (Some r0) (Some (time r0))
                        else leastLoop w model l best e))).
      { destruct e as [e'|]; cbn [below]; [|by left].
        destruct (time r0 <? e') eqn:Hlt.
        - apply Z.ltb_lt in Hlt. by left.
        - apply Z.ltb_ge in Hlt. right. split; [lia|done]. }
      destruct Hcase as [(Hb & <-)|(Hnb & <-)].
      * destruct (IH (Some r0) (Some (time r0)))
          as [(Hres & Hnone)|(i & f & Hi & Hres & Hel & Hbel & Hmin)].
        -- right. exists 0%nat, r0. repeat split; try done.
           ++ destruct j as [|j]; [cbn in H; injection H as <-; lia|].
              specialize (Hnone j r H H0). cbn in Hnone. lia.
           ++ lia.
        -- right. exists (S i), f. cbn in Hbel. repeat split; try done.
           ++ destruct e as [e'|]; cbn in *; [lia|done].
           ++ destruct j as [|j]; [cbn in H; injection H as <-; lia|].
              by apply (Hmin j r).
           ++ destruct j as [|j]; [cbn in H; injection H as <-; lia|].
              intros ?. apply (Hmin j r); [done..|lia].
      * destruct (IH best e)
          as [(Hres & Hnone)|(i & f & Hi & Hres & Hel & Hbel & Hmin)].
        -- left. split; [exact Hres|]. intros [|j] r Hj Hr.
           ++ cbn in Hj. by injection Hj as <-.
           ++ by apply (Hnone j r).
        -- right. exists (S i), f.
           assert (Hlt : time f < time r0).
           { destruct e as [e'|]; cbn in *; [lia|tauto]. }
           repeat split; try done.
           ++ destruct j as [|j]; [cbn in H; injection H as <-; lia|].
              by apply (Hmin j r).
           ++ destruct j as [|j]; [cbn in H; injection H as <-; lia|].
              intros ?. apply (Hmin j r); [done..|lia].
Qed.

(** From [Infinity] the first eligible account is always taken, so the
    fallback finds an account exactly when one is eligible. *)
Lemma leastLoop_initial l :
  (leastLoop w model l None None = None /\
   forall r, r ∈ l -> consecutiveFailures (deref w r) >= 3) \/
  (exists i f,
     l !! i = Some f /\ leastLoop w model l None None = Some f /\
     consecutiveFailures (deref w f) < 3 /\
     forall j r, l !! j = Some r -> consecutiveFailures (deref w r) < 3 ->
       resetTimeOf (config w) model (deref w f) <= resetTimeOf (config w) model (deref w r) /\
       ((j < i)%nat ->
        resetTimeOf (config w) model (deref w f) < resetTimeOf (config w) model (deref w r))).
Proof.
  destruct (leastLoop_spec l None None)
    as [(Hres & Hnone)|(i & f & Hi & Hres & Hel & _ & Hmin)].
  - left. split; [exact Hres|]. intros r Hr.
    apply list_elem_of_lookup in Hr as (j & Hj).
    destruct (Z_lt_ge_dec (consecutiveFailures (deref w r)) 3) as [Hlt|Hge]; [|exact Hge].
    by destruct (Hnone j r Hj Hlt).
  - right. exists i, f. repeat split; try done; by apply (Hmin j r).
Qed.

End Least.

(** *** [getNextAvailableAccount] as a whole *)

(** The two ways a call on a non-empty pool ends: with the first available
    account of the scan, or, when no account is available, with the
    fallback's choice. [w1] is the state once the strategy is initialised,
    [now] the time the call reads. *)
Lemma getNextAvailableAccount_run E model w :
  accounts w <> [] -> cursorOk w ->
  let w1 := snd (initializeStrategyState E w) in
  let now := dateNow E (tick w1) in
  let w2 := set_tick (S (tick w1)) w1 in
  let w3 := set_tick (S (S (tick w1))) w1 in
  let avail r := isAccountAvailable (config w) (deref w r) model now in
  (exists k r,
     0 <= k < getAccountCount w /\ scanned w1 k = Some r /\ avail r = true /\
     (forall j r', 0 <= j < k -> scanned w1 j = Some r' -> avail r' = false) /\
     getNextAvailableAccount E model w =
     (Ok (Some r),
      snd (selectAt (jsRem (startIndexOf w1 + k) (getAccountCount w)) r now w2))) \/
  ((forall r, r ∈ accounts w -> avail r = false) /\
   getNextAvailableAccount E model w =
   match leastLoop w model (accounts w) None None with
   | Some f => (Ok (Some f), snd (selectAt (index (deref w f)) f now w3))
   | None => (Ok None, w3)
   end).
Proof.
  intros Hne Hc.
  destruct (initializeStrategyState_facts E w Hne Hc)
    as (Hinit & Hheap & Hacc & Hcfg & Htick & _ & _ & _ & Hstart).
  cbn zeta.
  set (w1 := snd (initializeStrategyState E w)) in *.
  set (now := dateNow E (tick w1)).
  set (w2 := set_tick (S (tick w1)) w1).
  pose proof (count_pos w Hne) as Hpos.
  assert (Hcount : getAccountCount w1 = getAccountCount w)
    by (unfold getAccountCount; by rewrite Hacc).
  assert (Hne2 : accounts w2 <> []) by (cbn; by rewrite Hacc).
  assert (Hderef : forall r, deref w2 r = deref w r)
    by (intros r; apply deref_same_heap; exact Hheap).
  unfold getAccountCount in Hpos.
  unfold getNextAvailableAccount. rewrite run_get.
  assert (Hz : (getAccountCount w =? 0) = false)
    by (apply Z.eqb_neq; unfold getAccountCount; lia).
  rewrite Hz, (run_unit _ _ _ (total_initializeStrategyState E)). fold w1.
  rewrite run_now, run_get. fold now w2. cbn zeta.
  change (if isRoundRobin (config w2) then roundRobinCursor w2 else activeIndex w2)
    with (startIndexOf w1).
  change (accounts w2) with (accounts w1). rewrite Hacc.
  destruct (scanLoop_spec model now (startIndexOf w1) w2 Hstart Hne2
              (length (accounts w)) 0 ltac:(lia))
    as [(k & r & Hk & Hat & Hav & Hmin & Hrun)|(Hnone & Hrun)].
  - left. exists k, r.
    change (getAccountCount w2) with (getAccountCount w1) in *.
    change (accounts w2) with (accounts w1) in *. change (config w2) with (config w1) in *.
    rewrite Hcount in *. rewrite Hcfg in *.
    split; [unfold getAccountCount; lia|].
    split; [unfold scanned; by rewrite Hcount|].
    split; [by rewrite <- Hderef|].
    split.
    + intros j r' Hj Hs. rewrite <- Hderef. apply (Hmin j r'); [lia|].
      unfold scanned in Hs. by rewrite Hcount in Hs.
    + unfold bind. by rewrite Hrun.
  - right.
    assert (Hall : forall r, r ∈ accounts w ->
              isAccountAvailable (config w) (deref w r) model now = false).
    { intros r Hr. rewrite <- Hacc in Hr.
      destruct (scan_covers (startIndexOf w1) w2 Hstart Hne2 r Hr) as (k & Hk & Hat).
      rewrite <- Hderef, <- Hcfg. apply (Hnone k r); [|exact Hat].
      change (getAccountCount w2) with (getAccountCount w1) in Hk.
      rewrite Hcount in Hk. unfold getAccountCount in Hk. lia. }
    split; [exact Hall|].
    unfold bind at 1. rewrite Hrun.
    unfold getLeastRateLimitedAccount. rewrite run_bind, run_get.
    change (getAccountCount w2) with (getAccountCount w1). rewrite Hcount, Hz.
    rewrite run_bind, run_now, run_bind, run_get, run_ret.
    set (w3 := set_tick (S (tick w2)) w2).
    change (accounts w3) with (accounts w1). rewrite Hacc.
    rewrite (leastLoop_ext w w3 model (accounts w) None None Hheap Hcfg).
    destruct (leastLoop w model (accounts w) None None) as [f|]; [|reflexivity].
    rewrite run_get, (run_unit _ _ _ (total_selectAt _ _ _)).
    rewrite (deref_same_heap w w3 f Hheap). reflexivity.
Qed.

Lemma getNextAvailableAccount_empty E model w :
  accounts w = [] -> getNextAvailableAccount E model w = (Ok None, w).
Proof.
  intros He. unfold getNextAvailableAccount. rewrite run_get.
  unfold getAccountCount. by rewrite He.
Qed.

Lemma isAccountAvailable_ceiling c a model now :
  consecutiveFailures a >= 3 -> isAccountAvailable c a model now = false.
Proof.
  intros H. unfold isAccountAvailable.
  assert (Hb : (consecutiveFailures a >=? 3) = true)
    by (rewrite Z.geb_leb; apply Z.leb_le; lia).
  by rewrite Hb.
Qed.

(** [getNextAvailableAccount] returns null exactly for an empty pool and
    for a pool whose accounts all are at the failure ceiling. *)
Lemma getNextAvailableAccount_null_iff E model w :
  cursorOk w ->
  (exists o, fst (getNextAvailableAccount E model w) = Ok o) /\
  (fst (getNextAvailableAccount E model w) = Ok None <->
   accounts w = [] \/ forall r, r ∈ accounts w -> consecutiveFailures (deref w r) >= 3).
Proof.
  intros Hc. destruct (decide (accounts w = [])) as [He|Hne].
  { rewrite (getNextAvailableAccount_empty E model w He). cbn. split; [eauto|]. tauto. }
  destruct (getNextAvailableAccount_run E model w Hne Hc)
    as [(k & r & Hk & Hat & Hav & _ & ->)|(Hnone & ->)]; cbn [fst].
  - split; [eauto|]. split; [discriminate|]. intros [He|Hall]; [done|].
    apply arrayGet_elem in Hat.
    destruct (initializeStrategyState_facts E w Hne Hc) as (_ & _ & Hacc & _).
    rewrite Hacc in Hat.
    rewrite (isAccountAvailable_ceiling _ _ _ _ (Hall r Hat)) in Hav. discriminate.
  - destruct (leastLoop_initial w model (accounts w))
      as [(Hres & Hall)|(i & f & Hi & Hres & Hel & _)]; rewrite Hres; cbn [fst].
    + split; [eauto|]. split; [by right|done].
    + split; [eauto|]. split; [discriminate|]. intros [He|Hall]; [done|].
      assert (Hin : f ∈ accounts w) by (apply list_elem_of_lookup; eauto).
      specialize (Hall f Hin). lia.
Qed.

(** The selector keeps its scan start non-negative as long as the index
    fields of the pool are (as they are in a dense pool). Operations that
    change the pool reset [strategyInitialized], which makes [cursorOk]
    hold trivially. *)
Lemma cursorOk_getNextAvailableAccount E model w :
  cursorOk w ->
  (forall r, r ∈ accounts w -> 0 <= index (deref w r)) ->
  cursorOk (snd (getNextAvailableAccount E model w)).
Proof.
  intros Hc Hidx. destruct (decide (accounts w = [])) as [He|Hne].
  { by rewrite (getNextAvailableAccount_empty E model w He). }
  destruct (initializeStrategyState_facts E w Hne Hc)
    as (_ & _ & Hacc & _ & _ & _ & _ & _ & Hstart).
  pose proof (count_pos w Hne) as Hpos.
  assert (Hsel : forall i r now w0,
            0 <= i -> getAccountCount w0 = getAccountCount w ->
            cursorOk (snd (selectAt i r now w0))).
  { intros i r now w0 Hi Hcount _. unfold selectAt. rewrite run_modify, run_get.
    unfold startIndexOf. cbn [config set_activeIndex].
    destruct (isRoundRobin (config w0)) eqn:Hrr; rewrite run_modify || rewrite run_ret;
      cbn; rewrite Hrr; [|exact Hi].
    change (getAccountCount (set_activeIndex i w0)) with (getAccountCount w0).
    rewrite Hcount. apply rem_in_range; lia. }
  destruct (getNextAvailableAccount_run E model w Hne Hc)
    as [(k & r & Hk & _ & _ & _ & ->)|(_ & ->)]; cbn [snd].
  - apply Hsel.
    + apply rem_in_range; lia.
    + apply count_accounts. exact Hacc.
  - destruct (leastLoop_initial w model (accounts w))
      as [(-> & _)|(i & f & Hi & -> & _)]; cbn [snd].
    + intros _. exact Hstart.
    + apply Hsel.
      * apply Hidx. apply list_elem_of_lookup. eauto.
      * apply count_accounts. exact Hacc.
Qed.

(** C2. [getNextAvailableAccount] scans from the start the strategy
    determines ([roundRobinCursor] under round-robin, [activeIndex]
    otherwise, both after initialisation), wrapping around; within
    [poolSize] iterations it has looked at every account, and it returns
    the first one in that order that is available. Available means: fewer
    than three consecutive failures, no [globalRateLimitReset] after now,
    and, when per-model limits are on and a model is given, no
    [rateLimitResets[model]] after now. The call never throws, and it
    returns null exactly when the pool is empty or every account has at
    least three consecutive failures. *)
Theorem getNextAvailableAccount_selects (E : Env) (w : World) (model : option string) :
  cursorOk w ->
  let w1 := snd (initializeStrategyState E w) in
  let now := dateNow E (tick w1) in
  let result := fst (getNextAvailableAccount E model w) in
  let avail r := isAccountAvailable (config w) (deref w r) model now in
  (0 <= now -> forall a,
     isAccountAvailable (config w) a model now = true <->
     available (config w) a model now) /\
  (accounts w <> [] -> forall r, r ∈ accounts w ->
     exists k, 0 <= k < getAccountCount w /\ scanned w1 k = Some r) /\
  (forall k r,
     0 <= k < getAccountCount w -> scanned w1 k = Some r -> avail r = true ->
     (forall j r', 0 <= j < k -> scanned w1 j = Some r' -> avail r' = false) ->
     result = Ok (Some r)) /\
  (exists o, result = Ok o) /\
  (result = Ok None <->
   accounts w = [] \/ forall r, r ∈ accounts w -> consecutiveFailures (deref w r) >= 3).
Proof.
  intros Hc. cbn zeta.
  split; [intros Hnow a; by apply isAccountAvailable_iff|].
  split.
  { intros Hne r Hr.
    destruct (initializeStrategyState_facts E w Hne Hc)
      as (_ & _ & Hacc & _ & _ & _ & _ & _ & Hstart).
    set (w1 := snd (initializeStrategyState E w)) in *.
    assert (Hne1 : accounts w1 <> []) by (by rewrite Hacc).
    rewrite <- Hacc in Hr.
    destruct (scan_covers (startIndexOf w1) w1 Hstart Hne1 r Hr) as (k & Hk & Hat).
    exists k. split; [|exact Hat].
    unfold getAccountCount in *. by rewrite <- Hacc. }
  split; [|apply (getNextAvailableAccount_null_iff E model w Hc)].
  intros k r Hk Hat Hav Hmin.
  assert (Hne : accounts w <> []).
  { intros He. unfold getAccountCount in Hk. rewrite He in Hk. cbn in Hk. lia. }
  destruct (getNextAvailableAccount_run E model w Hne Hc)
    as [(k' & r' & Hk' & Hat' & Hav' & Hmin' & ->)|(Hnone & _)]; cbn [fst].
  - destruct (Z.lt_trichotomy k k') as [Hlt|[->|Hgt]].
    + rewrite (Hmin' k r ltac:(lia) Hat) in Hav. discriminate.
    + congruence.
    + rewrite (Hmin k' r' ltac:(lia) Hat') in Hav'. discriminate.
  - apply arrayGet_elem in Hat.
    destruct (initializeStrategyState_facts E w Hne Hc) as (_ & _ & Hacc & _).
    rewrite Hacc in Hat. rewrite (Hnone r Hat) in Hav. discriminate.
Qed.

(** A single account at the failure ceiling: selection returns null. *)
Lemma getNextAvailableAccount_selects_witness :
  let w := samplePool RoundRobin [set_consecutiveFailures 3 (sampleAccount 0 "rt-1")] in
  cursorOk w /\
  fst (getNextAvailableAccount (sampleEnv RefreshFailed 200) (Some "gpt-5.2-codex") w)
    = Ok None.
Proof.
  intros w.
  assert (Hc : cursorOk w) by (intros Hi; discriminate Hi).
  split; [exact Hc|].
  destruct (getNextAvailableAccount_selects (sampleEnv RefreshFailed 200) w
              (Some "gpt-5.2-codex") Hc) as (_ & _ & _ & _ & Hnull).
  apply Hnull. right. intros r Hr.
  apply list_elem_of_singleton in Hr as ->. vm_compute. discriminate.
Defined.

Lemma selectAt_activeIndex i r now w :
  activeIndex (snd (selectAt i r now w)) = i.
Proof.
  unfold selectAt. rewrite run_modify, run_get.
  destruct (isRoundRobin _); reflexivity.
Qed.

(** C3. When no account is available but some account has fewer than three
    consecutive failures, [getNextAvailableAccount] returns the account
    that, among those with fewer than three failures, has the least
    combined reset time -- the larger of [globalRateLimitReset || 0] and,
    when per-model limits are on and a model is given,
    [rateLimitResets[model] || 0] -- and of several such accounts the one
    that comes first in the pool; [activeIndex] becomes its [index]. *)
Theorem fallback_takes_earliest_reset (E : Env) (w : World) (model : option string) :
  cursorOk w ->
  let w1 := snd (initializeStrategyState E w) in
  let now := dateNow E (tick w1) in
  let time r := resetTimeOf (config w) model (deref w r) in
  (forall r, r ∈ accounts w ->
     isAccountAvailable (config w) (deref w r) model now = false) ->
  (exists r, r ∈ accounts w /\ consecutiveFailures (deref w r) < 3) ->
  (forall a, resetTimeOf (config w) model a =
     if truthyS model && perModelRateLimits (config w)
     then Z.max (orZeroN (globalRateLimitReset a))
                (orZeroN (rateLimitResets a !! default "" model))
     else orZeroN (globalRateLimitReset a)) /\
  exists i f,
    accounts w !! i = Some f /\
    fst (getNextAvailableAccount E model w) = Ok (Some f) /\
    consecutiveFailures (deref w f) < 3 /\
    (forall j r, accounts w !! j = Some r -> consecutiveFailures (deref w r) < 3 ->
       time f <= time r /\ ((j < i)%nat -> time f < time r)) /\
    activeIndex (snd (getNextAvailableAccount E model w)) = index (deref w f).
Proof.
  intros Hc. cbn zeta. intros Hnone (r0 & Hr0 & Hel0).
  split; [reflexivity|].
  assert (Hne : accounts w <> []).
  { intros He. rewrite He in Hr0. by apply elem_of_nil in Hr0. }
  destruct (getNextAvailableAccount_run E model w Hne Hc)
    as [(k & r & Hk & Hat & Hav & _ & _)|(_ & ->)].
  - apply arrayGet_elem in Hat.
    destruct (initializeStrategyState_facts E w Hne Hc) as (_ & _ & Hacc & _).
    rewrite Hacc in Hat. rewrite (Hnone r Hat) in Hav. discriminate.
  - destruct (leastLoop_initial w model (accounts w))
      as [(_ & Hall)|(i & f & Hi & Hres & Hel & Hmin)].
    + specialize (Hall r0 Hr0). lia.
    + exists i, f. rewrite Hres. cbn [fst snd].
      repeat split; try done; try by apply (Hmin j r).
      apply selectAt_activeIndex.
Qed.

(** Two rate-limited accounts, the second one free again sooner: the
    fallback returns the second. *)
Lemma fallback_takes_earliest_reset_witness :
  let w := samplePool Sticky
             [set_globalRateLimitReset (Some (Num 2000000000000)) (sampleAccount 0 "rt-1");
              set_globalRateLimitReset (Some (Num 1900000000000)) (sampleAccount 1 "rt-2")] in
  let E := sampleEnv RefreshFailed 200 in
  cursorOk w /\
  fst (getNextAvailableAccount E None w) = Ok (Some 1%nat) /\
  activeIndex (snd (getNextAvailableAccount E None w)) = 1.
Proof.
  intros w E.
  assert (Hc : cursorOk w) by (intros Hi; discriminate Hi).
  split; [exact Hc|].
  assert (Hnone : forall r, r ∈ accounts w ->
            isAccountAvailable (config w) (deref w r) None
              (dateNow E (tick (snd (initializeStrategyState E w)))) = false).
  { intros r Hr. apply elem_of_cons in Hr as [->|Hr]; [reflexivity|].
    apply list_elem_of_singleton in Hr as ->. reflexivity. }
  assert (Hsome : exists r, r ∈ accounts w /\ consecutiveFailures (deref w r) < 3).
  { exists 0%nat. split; [by left|]. vm_compute. reflexivity. }
  destruct (fallback_takes_earliest_reset E w None Hc Hnone Hsome)
    as (_ & i & f & Hi & Hres & _ & Hmin & Hact).
  assert (Hf : f = 1%nat).
  { destruct i as [|[|i]]; cbn in Hi; [|congruence|discriminate].
    injection Hi as <-. destruct (Hmin 1%nat 1%nat eq_refl) as (Hle & _).
    - vm_compute. reflexivity.
    - vm_compute in Hle. by destruct Hle. }
  subst f. split; [exact Hres|]. rewrite Hact. reflexivity.
Defined.

(** ** C4: [ensureValidToken] *)

Lemma ensureValidToken_unset E w r :
  truthyZ (expires (deref w r)) = false -> ensureValidToken E r w = (Ok true, w).
Proof.
  intros H. unfold ensureValidToken. mrun. rewrite H. reflexivity.
Qed.

Lemma ensureValidToken_fresh E w r e :
  expires (deref w r) = Some e ->
  e > dateNow E (tick w) + proactiveRefreshThresholdMs (config w) ->
  ensureValidToken E r w = (Ok true, if e =? 0 then w else set_tick (S (tick w)) w).
Proof.
  intros He Hgt. unfold ensureValidToken. mrun. rewrite He. cbn [truthyZ orZero].
  destruct (e =? 0); mrun; [reflexivity|].
  assert (Hb : (e >? dateNow E (tick w) + proactiveRefreshThresholdMs (config w)) = true)
    by (rewrite Z.gtb_ltb; apply Z.ltb_lt; lia).
  rewrite Hb. reflexivity.
Qed.

Lemma needsRefresh_test E w r :
  needsRefresh (config w) (deref w r) (dateNow E (tick w)) ->
  exists e, expires (deref w r) = Some e /\ (e =? 0) = false /\
    (e >? dateNow E (tick w) + proactiveRefreshThresholdMs (config w)) = false.
Proof.
  intros (e & He & Hne & Hle). exists e. split; [exact He|]. split.
  - by apply Z.eqb_neq.
  - rewrite Z.gtb_ltb. by apply Z.ltb_ge.
Qed.

Lemma ensureValidToken_in_flight E w r :
  needsRefresh (config w) (deref w r) (dateNow E (tick w)) ->
  isRefreshing (deref w r) = Some true ->
  ensureValidToken E r w = (Ok (truthyS (access (deref w r))), set_tick (S (tick w)) w).
Proof.
  intros Hn Hflag. destruct (needsRefresh_test _ _ _ Hn) as (e & He & Hz & Hgt).
  unfold ensureValidToken. mrun. rewrite He. cbn [truthyZ orZero]. rewrite Hz.
  mrun. rewrite Hgt, Hflag. reflexivity.
Qed.

Lemma ensureValidToken_refresh E w r :
  needsRefresh (config w) (deref w r) (dateNow E (tick w)) ->
  truthyB (isRefreshing (deref w r)) = false ->
  ensureValidToken E r w =
  match refreshAccessToken E (S (tick w)) (refreshToken (deref w r)) with
  | RefreshSuccess acc ref exp =>
    (Ok true, snd (updateAccountTokens E r acc ref exp (refreshing w r)))
  | RefreshFailed =>
    (Ok false, snd (markRefreshFailed r "Token refresh failed" (refreshing w r)))
  | RefreshThrows err =>
    (Ok false, snd (markRefreshFailed r err (refreshing w r)))
  end.
Proof.
  intros Hn Hflag. destruct (needsRefresh_test _ _ _ Hn) as (e & He & Hz & Hgt).
  unfold ensureValidToken. mrun. rewrite He. cbn [truthyZ orZero]. rewrite Hz.
  mrun. rewrite Hgt, Hflag.
  unfold try_catch, bind, callRefresh, refreshing, assign, modify, ret.
  cbn beta iota. wnorm.
  destruct (refreshAccessToken E (S (tick w)) (refreshToken (deref w r)))
    as [acc ref exp| |err]; cbn beta iota.
  - rewrite (total_unit _ (total_updateAccountTokens E r acc ref exp)). reflexivity.
  - rewrite (total_unit _ (total_markRefreshFailed r _)). reflexivity.
  - rewrite (total_unit _ (total_markRefreshFailed r _)). reflexivity.
Qed.

Lemma run_assignIf {B} c r f (k : unit -> M B) w :
  bind (assignIf c r f) k w = k tt (set_heap (alter (onlyIf c f) r (heap w)) w).
Proof.
  destruct c; cbn [assignIf onlyIf]; [reflexivity|].
  rewrite run_ret, list_alter_id by done. by destruct w.
Qed.

Lemma updateAccountTokens_heap E r acc ref exp w :
  exists f,
    heap (snd (updateAccountTokens E r acc ref exp w)) = alter f r (heap w) /\
    forall a,
      consecutiveFailures (f a) = 0 /\ isRefreshing (f a) = Some false /\
      lastRefreshError (f a) = None /\ access (f a) = Some acc /\
      refreshToken (f a) = ref /\ expires (f a) = Some exp /\
      rateLimitResets (f a) = rateLimitResets a /\
      globalRateLimitReset (f a) = globalRateLimitReset a.
Proof.
  unfold updateAccountTokens.
  set (tokens := fun a =>
         set_lastRefreshError None (set_isRefreshing (Some false)
           (set_consecutiveFailures 0 (set_expires (Some exp)
             (set_refreshToken ref (set_access (Some acc) a)))))).
  repeat (rewrite run_assign; wnorm).
  rewrite !list_alter_alter_eq.
  destruct (decodeJWT E acc) as [c|].
  - repeat (first [rewrite run_bind|rewrite run_assignIf]; wnorm).
    rewrite !list_alter_alter_eq.
    exists (fun a => onlyIf (truthyS (chatgpt_plan_type c)) (set_planType (chatgpt_plan_type c))
              (onlyIf (truthyS (chatgpt_user_id c)) (set_userId (chatgpt_user_id c))
                (onlyIf (truthyS (chatgpt_account_id c))
                   (set_accountId (chatgpt_account_id c)) (tokens a)))).
    split; [reflexivity|].
    intros a. unfold onlyIf, tokens.
    destruct (truthyS (chatgpt_plan_type c)), (truthyS (chatgpt_user_id c)),
      (truthyS (chatgpt_account_id c)); repeat split.
  - rewrite run_ret. exists tokens. split; [reflexivity|].
    intros a. repeat split.
Qed.

Lemma updateAccountTokens_fields E w r acc ref exp :
  valid w r ->
  let w' := snd (updateAccountTokens E r acc ref exp w) in
  let a' := deref w' r in
  consecutiveFailures a' = 0 /\ isRefreshing a' = Some false /\
  lastRefreshError a' = None /\ access a' = Some acc /\
  refreshToken a' = ref /\ expires a' = Some exp /\
  rateLimitResets a' = rateLimitResets (deref w r) /\
  globalRateLimitReset a' = globalRateLimitReset (deref w r).
Proof.
  intros Hv. cbn zeta.
  destruct (updateAccountTokens_heap E r acc ref exp w) as (f & Hh & Hf).
  rewrite (deref_alter_eq w _ f r Hh Hv). apply Hf.
Qed.

(** What the refresh leaves in the account object. *)
Lemma fmap_heap_deref {B} (proj : ManagedAccount -> B) w w' r :
  proj <$> heap w' = proj <$> heap w -> proj (deref w' r) = proj (deref w r).
Proof.
  unfold deref. intros H.
  assert (Hx : proj <$> (heap w' !! r) = proj <$> (heap w !! r))
    by (by rewrite <- !list_lookup_fmap, H).
  destruct (heap w' !! r), (heap w !! r); cbn in *; congruence.
Qed.

Lemma failureNotes_reindexFrom l : forall i, preserves failureNotes (reindexFrom i l).
Proof. induction l as [|r l IH]; intros i; cbn [reindexFrom]; pres_tac. Qed.
#[local] Hint Resolve failureNotes_reindexFrom : pres.

Lemma failureNotes_removeAccount r : preserves failureNotes (removeAccount r).
Proof. unfold removeAccount. pres_tac. Qed.

Lemma markRefreshFailed_object r e w :
  valid w r ->
  let a' := deref (snd (markRefreshFailed r e w)) r in
  consecutiveFailures a' = consecutiveFailures (deref w r) + 1 /\
  lastRefreshError a' = Some e /\ isRefreshing a' = Some false.
Proof.
  intros Hv. cbn zeta. unfold markRefreshFailed.
  repeat (rewrite run_assign; wnorm). rewrite run_get. wnorm.
  rewrite !list_alter_alter_eq.
  match goal with
  | |- context [(if _ then _ else _) (set_heap (alter ?f r (heap w)) ?w0)] =>
    set (w3 := set_heap (alter f r (heap w)) w0);
    assert (Hd : deref w3 r = f (deref w r))
      by (apply (deref_alter_eq w w3 f r eq_refl Hv))
  end.
  assert (Hkeep : forall w', failureNotes w' = failureNotes w3 ->
            consecutiveFailures (deref w' r) = consecutiveFailures (deref w r) + 1 /\
            lastRefreshError (deref w' r) = Some e /\
            isRefreshing (deref w' r) = Some false).
  { intros w' Hn.
    pose proof (fmap_heap_deref _ w3 w' r Hn) as Hp. rewrite Hd in Hp.
    cbn in Hp. injection Hp as H1 H2 H3. by rewrite H1, H2, H3. }
  destruct (removeOnInvalidGrant (config w) && includes "invalid_grant" e).
  - apply Hkeep. apply failureNotes_removeAccount.
  - by apply Hkeep.
Qed.

(** C4. [ensureValidToken(account)] returns true, and sends nothing to the
    refresh endpoint, when [account.expires] is unset (or 0, which is as
    falsy) or lies more than the configured lead time after now; the
    default lead time is five minutes. Otherwise, when [isRefreshing] is
    set, it returns whether an access token is present (a non-empty
    string), again without a refresh. Only otherwise it calls the refresh
    endpoint, once, with the account's refresh token. On success it runs
    [updateAccountTokens] and returns true: the account then holds the
    access token, the refresh token and the expiry the endpoint answered
    with. On a failed or rejected call it runs [markRefreshFailed] and
    returns false: the account's [consecutiveFailures] is one higher and
    its [lastRefreshError] is the error. *)
Theorem ensureValidToken_cases (E : Env) (w : World) (r : nat) :
  let a := deref w r in
  let now := dateNow E (tick w) in
  let a' := deref (snd (ensureValidToken E r w)) r in
  proactiveRefreshThresholdMs DEFAULT_MULTI_ACCOUNT_CONFIG = 300000 /\
  (truthyZ (expires a) = false ->
     ensureValidToken E r w = (Ok true, w)) /\
  (forall e, expires a = Some e ->
     e > now + proactiveRefreshThresholdMs (config w) ->
     fst (ensureValidToken E r w) = Ok true /\
     refreshLog (snd (ensureValidToken E r w)) = refreshLog w /\
     heap (snd (ensureValidToken E r w)) = heap w) /\
  (needsRefresh (config w) a now ->
     (isRefreshing a = Some true ->
        ensureValidToken E r w = (Ok (truthyS (access a)), set_tick (S (tick w)) w)) /\
     (truthyB (isRefreshing a) = false ->
        refreshLog (snd (ensureValidToken E r w)) = refreshLog w ++ [refreshToken a] /\
        ensureValidToken E r w =
        match refreshAccessToken E (S (tick w)) (refreshToken a) with
        | RefreshSuccess acc ref exp =>
          (Ok true, snd (updateAccountTokens E r acc ref exp (refreshing w r)))
        | RefreshFailed =>
          (Ok false, snd (markRefreshFailed r "Token refresh failed" (refreshing w r)))
        | RefreshThrows err =>
          (Ok false, snd (markRefreshFailed r err (refreshing w r)))
        end /\
        (valid w r ->
         match refreshAccessToken E (S (tick w)) (refreshToken a) with
         | RefreshSuccess acc ref exp =>
           fst (ensureValidToken E r w) = Ok true /\
           access a' = Some acc /\ refreshToken a' = ref /\ expires a' = Some exp
         | RefreshFailed =>
           fst (ensureValidToken E r w) = Ok false /\
           consecutiveFailures a' = consecutiveFailures a + 1 /\
           lastRefreshError a' = Some "Token refresh failed"
         | RefreshThrows err =>
           fst (ensureValidToken E r w) = Ok false /\
           consecutiveFailures a' = consecutiveFailures a + 1 /\
           lastRefreshError a' = Some err
         end))).
Proof.
  intros a now a'. split; [reflexivity|]. split; [apply ensureValidToken_unset|].
  split.
  - intros e He Hgt. rewrite (ensureValidToken_fresh E w r e He Hgt).
    destruct (e =? 0); auto.
  - intros Hn. split; [by apply ensureValidToken_in_flight|].
    intros Hflag. subst a'. rewrite (ensureValidToken_refresh E w r Hn Hflag).
    split; [|split; [reflexivity|]].
    + subst a now.
      destruct (refreshAccessToken E (S (tick w)) (refreshToken (deref w r)))
        as [acc ref exp| |err]; cbn [snd].
      * by rewrite refreshLog_updateAccountTokens.
      * by rewrite refreshLog_markRefreshFailed.
      * by rewrite refreshLog_markRefreshFailed.
    + intros Hv.
      assert (Hv' : valid (refreshing w r) r).
      { unfold valid, refreshing. cbn [heap set_heap set_tick set_refreshLog].
        by rewrite length_alter. }
      assert (Hcf : consecutiveFailures (deref (refreshing w r) r) =
                    consecutiveFailures a).
      { rewrite (deref_alter_eq w (refreshing w r) (set_isRefreshing (Some true)) r
                   eq_refl Hv). reflexivity. }
      subst a now.
      destruct (refreshAccessToken E (S (tick w)) (refreshToken (deref w r)))
        as [acc ref exp| |err]; cbn [fst snd]; (split; [reflexivity|]).
      * destruct (updateAccountTokens_fields E (refreshing w r) r acc ref exp Hv')
          as (_ & _ & _ & Hacc & Href & Hexp & _).
        by rewrite Hacc, Href, Hexp.
      * destruct (markRefreshFailed_object r "Token refresh failed" (refreshing w r) Hv')
          as (Hc & He & _).
        by rewrite Hc, He, Hcf.
      * destruct (markRefreshFailed_object r err (refreshing w r) Hv') as (Hc & He & _).
        by rewrite Hc, He, Hcf.
Qed.

(** The account's token expired long ago and no refresh is in flight: the
    refresh endpoint is called, and its answer decides the result. When
    it answers with new tokens the account holds them afterwards; when it
    answers that the refresh failed, a failure is counted. *)
Lemma ensureValidToken_cases_witness :
  let w := samplePool Sticky [set_expires (Some 1) (sampleAccount 0 "rt-1")] in
  let granted := sampleEnv (RefreshSuccess "jwt-2" "rt-2" 1700003600000) 200 in
  let refused := sampleEnv RefreshFailed 200 in
  let a1 := deref (snd (ensureValidToken granted 0%nat w)) 0%nat in
  let a2 := deref (snd (ensureValidToken refused 0%nat w)) 0%nat in
  (fst (ensureValidToken granted 0%nat w) = Ok true /\
   access a1 = Some "jwt-2" /\ refreshToken a1 = "rt-2" /\
   expires a1 = Some 1700003600000) /\
  (fst (ensureValidToken refused 0%nat w) = Ok false /\
   consecutiveFailures a2 = 1).
Proof.
  intros w granted refused a1 a2.
  assert (Hv : valid w 0%nat) by (vm_compute; lia).
  assert (Hn : forall E, dateNow E (tick w) = 1700000000000 ->
                 needsRefresh (config w) (deref w 0%nat) (dateNow E (tick w))).
  { intros E ->. exists 1. repeat split; [discriminate|vm_compute; discriminate]. }
  split.
  - destruct (ensureValidToken_cases granted w 0%nat) as (_ & _ & _ & Hcase).
    destruct (Hcase (Hn granted eq_refl)) as (_ & Hrun).
    destruct (Hrun eq_refl) as (_ & _ & Hobj). exact (Hobj Hv).
  - destruct (ensureValidToken_cases refused w 0%nat) as (_ & _ & _ & Hcase).
    destruct (Hcase (Hn refused eq_refl)) as (_ & Hrun).
    destruct (Hrun eq_refl) as (_ & _ & Hobj).
    destruct (Hobj Hv) as (Hres & Hc & _). split; [exact Hres|exact Hc].
Defined.

(** ** C5: [loadFromDisk] *)

Lemma loadFromDisk_run w :
  loadFromDisk w =
  (Ok tt,
   match disk w with
   | FileMissing => w
   | FileCorrupt | FileJson JNull =>
     set_strategyInitialized false
       (set_roundRobinCursor 0 (set_activeIndex 0 (set_accounts [] w)))
   | FileJson JPlain => w
   | FileJson (JObject (Some 1) (Some l) act) =>
     set_strategyInitialized false (set_activeIndex (orZero act) (installAccounts l w))
   | FileJson (JObject _ _ _) => w
   end).
Proof.
  unfold loadFromDisk. rewrite run_get.
  destruct (disk w) as [| |d] eqn:Hd; [reflexivity| |].
  - unfold try_catch, readAccountsFile, bind. rewrite Hd. reflexivity.
  - unfold try_catch, readAccountsFile, bind. rewrite Hd.
    destruct d as [| |v accs act]; [reflexivity..|].
    destruct v as [[|[| |]|]|]; try reflexivity; destruct accs; reflexivity.
Qed.

(** Without a version-1 snapshot to install, [loadFromDisk] either leaves
    the state alone or resets it. *)
Lemma loadFromDisk_unusable w :
  unusableFile (disk w) ->
  snd (loadFromDisk w) = w \/
  snd (loadFromDisk w) =
    set_strategyInitialized false
      (set_roundRobinCursor 0 (set_activeIndex 0 (set_accounts [] w))).
Proof.
  intros Hu. rewrite loadFromDisk_run. cbn [snd].
  destruct Hu as [->|[->|[->|[->|(v & accs & act & -> & Hv)]]]]; auto.
  destruct v as [[|[| |]|]|]; auto. destruct accs as [l|]; auto.
  by destruct Hv.
Qed.

(** C5. [loadFromDisk] never throws. The manager it is called on is one
    that holds no accounts yet (the plugin loads into the manager it has
    just constructed): there it leaves the empty pool whenever the file
    is missing, cannot be read or parsed, or parses to something that is
    not a version-1 snapshot (null, a value without the fields, an object
    with another version or without an accounts array). The newly
    constructed manager is then exactly as it was constructed -- no
    accounts, both indices 0 -- and usable: the next selection returns
    null without throwing. When the file cannot be read or parsed, or
    parses to null, the store is reset to the empty pool whatever it held
    before; when the file is missing, or parses to a value that is not a
    version-1 snapshot, the store is left as it was. *)
Theorem loadFromDisk_never_throws (w : World) :
  let w' := snd (loadFromDisk w) in
  fst (loadFromDisk w) = Ok tt /\
  (unusableFile (disk w) -> accounts w = [] -> accounts w' = []) /\
  (forall c f, unusableFile f ->
     let w0 := snd (loadFromDisk (newManager c f)) in
     w0 = newManager c f /\
     accounts w0 = [] /\ activeIndex w0 = 0 /\ roundRobinCursor w0 = 0 /\
     forall E model, fst (getNextAvailableAccount E model w0) = Ok None) /\
  (disk w = FileCorrupt \/ disk w = FileJson JNull ->
     accounts w' = [] /\ activeIndex w' = 0 /\ roundRobinCursor w' = 0 /\
     strategyInitialized w' = false) /\
  (disk w = FileMissing \/ disk w = FileJson JPlain \/
   (exists v accs act, disk w = FileJson (JObject v accs act) /\
      (v <> Some 1 \/ accs = None)) ->
     w' = w).
Proof.
  cbn zeta. split; [by rewrite loadFromDisk_run|].
  split; [|split; [|split]].
  - intros Hu He. destruct (loadFromDisk_unusable w Hu) as [-> | ->]; done.
  - intros c f Hu.
    assert (Hsame : snd (loadFromDisk (newManager c f)) = newManager c f).
    { destruct (loadFromDisk_unusable (newManager c f) Hu) as [-> | ->]; reflexivity. }
    rewrite Hsame. repeat split.
  - rewrite loadFromDisk_run. cbn [snd]. intros [->| ->]; done.
  - rewrite loadFromDisk_run. cbn [snd].
    intros [->|[->|(v & accs & act & -> & Hv)]]; try done.
    destruct v as [[|[| |]|]|]; try done. destruct accs as [l|]; try done.
    by destruct Hv.
Qed.

(** The plugin's manager, just constructed, on a file that is corrupt and
    on one that carries version 2: the pool is empty after loading. *)
Lemma loadFromDisk_never_throws_witness :
  let c := sampleConfig Sticky in
  let version2 := FileJson (JObject (Some 2) (Some threeAccounts) None) in
  accounts (snd (loadFromDisk (newManager c FileCorrupt))) = [] /\
  accounts (snd (loadFromDisk (newManager c version2))) = [].
Proof.
  intros c version2.
  destruct (loadFromDisk_never_throws (newManager c FileCorrupt)) as (_ & _ & Hnew & _).
  split.
  - destruct (Hnew c FileCorrupt) as (_ & Hacc & _); [|exact Hacc].
    right. by left.
  - destruct (Hnew c version2) as (_ & Hacc & _); [|exact Hacc].
    do 4 right. exists (Some 2), (Some threeAccounts), None.
    split; [reflexivity|]. left. discriminate.
Defined.

(** ** C6: [addAccount] deduplicates *)

Lemma sameIdentity_iff uid aid rt a :
  sameIdentity uid aid rt a = true <->
  (truthyS uid = true /\ truthyS (userId a) = true /\
   eqS (userId a) uid = true /\ eqS (accountId a) aid = true) \/
  ((truthyS uid = false \/ truthyS (userId a) = false) /\ refreshToken a = rt).
Proof.
  unfold sameIdentity.
  destruct (truthyS uid), (truthyS (userId a)); cbn [andb];
    rewrite ?andb_true_iff, ?String.eqb_eq; intuition congruence.
Qed.

Lemma eqS_eq a b : eqS a b = true <-> a = b.
Proof.
  destruct a, b; cbn; rewrite ?String.eqb_eq; split; congruence.
Qed.

(** C6. [addAccount] looks for the first pool entry that, when the token's
    user id and the entry's user id are both known, has the token's user
    id and account id, and otherwise has the very refresh token given. On
    a match the entry is updated in place (each field from the argument
    that is truthy), its [consecutiveFailures] is set to 0 and the same
    object is returned, with the pool as it was; without a match a new
    account is appended whose [index] is the previous pool length. *)
Theorem addAccount_deduplicates (E : Env) (w : World) (email' : option string)
    (refreshToken' : string) (accessToken : option string) (expires' : option Z) :
  let userId' := claimsOf E accessToken ≫= chatgpt_user_id in
  let accountId' := claimsOf E accessToken ≫= chatgpt_account_id in
  let found :=
    findIndex (fun r => sameIdentity userId' accountId' refreshToken' (deref w r))
              (accounts w) in
  let result := addAccount E email' refreshToken' accessToken expires' w in
  (forall a, sameIdentity userId' accountId' refreshToken' a = true <->
     (truthyS userId' = true /\ truthyS (userId a) = true /\
      userId a = userId' /\ accountId a = accountId') \/
     ((truthyS userId' = false \/ truthyS (userId a) = false) /\
      refreshToken a = refreshToken')) /\
  (forall i, found = Some i ->
     exists existing,
       accounts w !! i = Some existing /\
       sameIdentity userId' accountId' refreshToken' (deref w existing) = true /\
       (forall j r, (j < i)%nat -> accounts w !! j = Some r ->
          sameIdentity userId' accountId' refreshToken' (deref w r) = false) /\
       fst result = Ok existing /\
       accounts (snd result) = accounts w /\
       length (heap (snd result)) = length (heap w) /\
       (forall r, r <> existing -> deref (snd result) r = deref w r) /\
       (valid w existing ->
          let old := deref w existing in
          let new := deref (snd result) existing in
          consecutiveFailures new = 0 /\
          index new = index old /\
          access new = (if truthyS accessToken then accessToken else access old) /\
          refreshToken new =
            (if String.eqb refreshToken' "" then refreshToken old else refreshToken') /\
          expires new = (if truthyZ expires' then expires' else expires old) /\
          userId new = (if truthyS userId' then userId' else userId old) /\
          accountId new = (if truthyS accountId' then accountId' else accountId old))) /\
  (found = None ->
     let r := length (heap w) in
     let new := deref (snd result) r in
     fst result = Ok r /\
     accounts (snd result) = accounts w ++ [r] /\
     index new = Z.of_nat (length (accounts w)) /\
     consecutiveFailures new = 0 /\
     refreshToken new = refreshToken' /\ access new = accessToken /\
     expires new = expires' /\ userId new = userId' /\ accountId new = accountId' /\
     (Forall (valid w) (accounts w) -> r ∉ accounts w) /\
     (forall r', valid w r' -> deref (snd result) r' = deref w r')).
Proof.
  intros userId' accountId' found result.
  split.
  { intros a. rewrite sameIdentity_iff, !eqS_eq. tauto. }
  split.
  - intros i Hf. unfold found in Hf.
    destruct (proj1 (findIndex_Some _ _ _) Hf) as (existing & Hi & Hp & Hmin).
    exists existing. split; [exact Hi|]. split; [exact Hp|]. split; [exact Hmin|].
    subst result. unfold addAccount. cbn zeta.
    fold (claimsOf E accessToken). fold userId' accountId'.
    rewrite run_get. rewrite Hf. cbn [mbind option_bind]. rewrite Hi.
    rewrite !run_assignIf, run_assign, run_saveToDisk, run_modify. unfold ret.
    cbn [fst snd]. split; [reflexivity|]. split; [reflexivity|].
    split; [cbn; by rewrite !length_alter|]. split.
    + intros r Hne. unfold deref. cbn. rewrite !list_lookup_alter_ne by congruence.
      reflexivity.
    + intros Hv. cbn zeta. pose proof (valid_lookup w existing Hv) as Hl.
      unfold deref. cbn [heap set_heap set_disk set_strategyInitialized saveToDisk modify snd].
      rewrite !list_lookup_alter_eq, Hl. cbn [fmap option_fmap option_map default].
      unfold onlyIf.
      destruct (truthyS accessToken), (String.eqb refreshToken' ""), (truthyZ expires'),
        (truthyS userId'), (truthyS accountId');
        cbn [negb];
        repeat match goal with |- context [if ?c then _ else id] => destruct c end;
        cbn; repeat split; reflexivity.
  - intros Hf. cbn zeta. set (r := length (heap w)). subst result. unfold found in Hf.
    unfold addAccount. cbn zeta.
    fold (claimsOf E accessToken). fold userId' accountId'.
    rewrite run_get. rewrite Hf. cbn [mbind option_bind].
    rewrite run_now, run_get. cbn beta zeta.
    rewrite !run_modify, run_saveToDisk. unfold ret. cbn [fst snd].
    assert (Hnew : forall w0 a, heap w0 = heap w ++ [a] -> deref w0 r = a).
    { intros w0 a Hh. unfold deref, r. rewrite Hh.
      rewrite lookup_app_r by lia. by rewrite Nat.sub_diag. }
    split; [reflexivity|]. split; [reflexivity|].
    match goal with |- context [deref ?w0 r] =>
      rewrite (Hnew w0 _ eq_refl) end.
    cbn. repeat split.
    + intros Hall Hin. rewrite Forall_forall in Hall. specialize (Hall r Hin).
      unfold valid, r in Hall. lia.
    + intros r' Hr'. unfold deref. cbn. by rewrite lookup_app_l.
Qed.

(** Two accounts that failed twice; the second one's refresh token is
    added again, without an access token: the second account is returned,
    recovered, and the pool keeps its two entries. *)
Lemma addAccount_deduplicates_witness :
  let w := samplePool Sticky
             [set_consecutiveFailures 2 (sampleAccount 0 "rt-1");
              set_consecutiveFailures 2 (sampleAccount 1 "rt-2")] in
  let E := sampleEnv RefreshFailed 200 in
  let result := addAccount E None "rt-2" None None w in
  fst result = Ok 1%nat /\
  accounts (snd result) = accounts w /\
  consecutiveFailures (deref (snd result) 1%nat) = 0 /\
  consecutiveFailures (deref (snd result) 0%nat) = 2.
Proof.
  intros w E result.
  destruct (addAccount_deduplicates E w None "rt-2" None None) as (_ & Hmatch & _).
  destruct (Hmatch 1%nat eq_refl)
    as (existing & Hi & _ & _ & Hres & Hacc & _ & Hother & Hfields).
  assert (He : existing = 1%nat) by (cbn in Hi; congruence). subst existing.
  assert (Hv : valid w 1%nat) by (vm_compute; lia).
  destruct (Hfields Hv) as (Hzero & _).
  split; [exact Hres|]. split; [exact Hacc|]. split; [exact Hzero|].
  unfold result. rewrite (Hother 0%nat ltac:(lia)). reflexivity.
Defined.

(** ** C7: [removeAccount] re-indexes densely *)

Lemma reindexFrom_spec l : forall i w,
  NoDup l -> Forall (valid w) l ->
  let w' := snd (reindexFrom i l w) in
  (forall j r, l !! j = Some r -> index (deref w' r) = i + Z.of_nat j) /\
  (forall r, r ∉ l -> deref w' r = deref w r) /\
  length (heap w') = length (heap w) /\
  accounts w' = accounts w /\ activeIndex w' = activeIndex w /\
  roundRobinCursor w' = roundRobinCursor w /\
  strategyInitialized w' = strategyInitialized w /\ config w' = config w.
Proof.
  induction l as [|r l IH]; intros i w Hnd Hv; cbn [reindexFrom].
  - cbn. repeat split; try done.
  - mrun. apply NoDup_cons in Hnd as [Hnotin Hnd].
    apply Forall_cons in Hv as [Hvr Hv].
    set (w1 := set_heap (alter (set_index i) r (heap w)) w).
    assert (Hv1 : Forall (valid w1) l).
    { eapply Forall_impl; [exact Hv|]. intros x Hx. unfold valid, w1. cbn.
      by rewrite length_alter. }
    destruct (IH (i + 1) w1 Hnd Hv1) as (Hidx & Hout & Hlen & Hacc & Hact & Hcur & Hini & Hcfg).
    cbn zeta. repeat split.
    + intros [|j] r' Hj.
      * cbn in Hj. injection Hj as <-. rewrite (Hout r Hnotin).
        rewrite (deref_alter_eq w w1 (set_index i) r eq_refl Hvr). cbn. lia.
      * cbn in Hj. rewrite (Hidx j r' Hj). lia.
    + intros r' Hr'. apply not_elem_of_cons in Hr' as [Hne Hr'].
      rewrite (Hout r' Hr').
      apply (deref_alter_ne w w1 (set_index i) r r' eq_refl). congruence.
    + rewrite Hlen. unfold w1. cbn. apply length_alter.
    + by rewrite Hacc.
    + by rewrite Hact.
    + by rewrite Hcur.
    + by rewrite Hini.
    + by rewrite Hcfg.
Qed.


(** The state [removeAccount] leaves when its [findIndex] is [i]. *)
Lemma removeAccount_found w r i :
  findIndex (fun r' => index (deref w r') =? index (deref w r)) (accounts w) = Some i ->
  let w1 := set_accounts (delete i (accounts w)) w in
  let w2 := snd (reindexFrom 0 (accounts w1) w1) in
  let active' :=
    if activeIndex w >=? getAccountCount w1
    then Z.max 0 (getAccountCount w1 - 1) else activeIndex w2 in
  removeAccount r w =
  (Ok tt, snd (saveToDisk (set_strategyInitialized false
                (set_roundRobinCursor active' (set_activeIndex active' w2))))).
Proof.
  intros Hf w1 w2 active'.
  unfold removeAccount. rewrite run_get. cbn beta zeta. rewrite Hf.
  rewrite run_modify, run_get. cbn beta. fold w1.
  rewrite (run_unit _ _ _ (total_reindexFrom (accounts w1) 0)). fold w2.
  subst active'. change (activeIndex w1) with (activeIndex w).
  destruct (activeIndex w >=? getAccountCount w1); msteps; reflexivity.
Qed.

Lemma removeAccount_not_found w r :
  findIndex (fun r' => index (deref w r') =? index (deref w r)) (accounts w) = None ->
  removeAccount r w = (Ok tt, w).
Proof. intros Hf. unfold removeAccount. rewrite run_get. cbn beta zeta. by rewrite Hf. Qed.

(** C7. When [removeAccount] finds an account with the index of the one it
    is given, it takes it out of the pool, and afterwards every remaining
    account's [index] is its position in the list; [activeIndex] is brought
    down to the last position when it was beyond it (to 0 for an empty
    pool), the round-robin cursor is set to it, and the strategy state is
    marked for re-initialisation. In a pool with dense indices the account
    found is the one given; removing the account at position 1 of three
    leaves the accounts formerly at 0 and 2 with indices 0 and 1. *)
Theorem removeAccount_reindexes (w : World) (r : nat) :
  poolOk w ->
  (forall i,
     findIndex (fun r' => index (deref w r') =? index (deref w r)) (accounts w) = Some i ->
     let w' := snd (removeAccount r w) in
     fst (removeAccount r w) = Ok tt /\
     accounts w' = delete i (accounts w) /\
     dense w' /\
     activeIndex w' <= Z.max (activeIndex w) 0 /\
     (0 <= activeIndex w ->
        0 <= activeIndex w' /\ activeIndex w' <= Z.max 0 (getAccountCount w' - 1)) /\
     roundRobinCursor w' = activeIndex w' /\
     strategyInitialized w' = false) /\
  (forall p, dense w -> accounts w !! p = Some r ->
     findIndex (fun r' => index (deref w r') =? index (deref w r)) (accounts w) = Some p) /\
  (forall r0 r2, dense w -> accounts w = [r0; r; r2] ->
     accounts (snd (removeAccount r w)) = [r0; r2] /\
     poolIndices (snd (removeAccount r w)) = [0; 1]).
Proof.
  intros [Hnd Hval].
  assert (Hfound : forall i,
     findIndex (fun r' => index (deref w r') =? index (deref w r)) (accounts w) = Some i ->
     let w' := snd (removeAccount r w) in
     fst (removeAccount r w) = Ok tt /\
     accounts w' = delete i (accounts w) /\
     dense w' /\
     activeIndex w' <= Z.max (activeIndex w) 0 /\
     (0 <= activeIndex w ->
        0 <= activeIndex w' /\ activeIndex w' <= Z.max 0 (getAccountCount w' - 1)) /\
     roundRobinCursor w' = activeIndex w' /\
     strategyInitialized w' = false).
  { intros i Hf. rewrite (removeAccount_found w r i Hf). cbn [fst snd].
    set (w1 := set_accounts (delete i (accounts w)) w).
    assert (Hnd1 : NoDup (accounts w1)).
    { unfold w1. cbn. exact (sublist_NoDup _ _ Hnd (sublist_delete _ _)). }
    assert (Hval1 : Forall (valid w1) (accounts w1)).
    { unfold w1. cbn. by apply Forall_delete. }
    destruct (reindexFrom_spec (accounts w1) 0 w1 Hnd1 Hval1)
      as (Hidx & _ & _ & Hacc & Hact & _ & _ & _).
    set (w2 := snd (reindexFrom 0 (accounts w1) w1)) in *.
    set (active' := if activeIndex w >=? getAccountCount w1
                    then Z.max 0 (getAccountCount w1 - 1) else activeIndex w2).
    set (w' := snd (saveToDisk (set_strategyInitialized false
                 (set_roundRobinCursor active' (set_activeIndex active' w2))))).
    assert (Ha : accounts w' = delete i (accounts w)) by exact Hacc.
    assert (Hh : heap w' = heap w2) by reflexivity.
    assert (Hai : activeIndex w' = active') by reflexivity.
    assert (Hrc : roundRobinCursor w' = active') by reflexivity.
    assert (Hsi : strategyInitialized w' = false) by reflexivity.
    assert (Hcount : getAccountCount w' = getAccountCount w1)
      by (unfold getAccountCount; by rewrite Ha).
    change (activeIndex w1) with (activeIndex w) in Hact.
    pose proof (getAccountCount_nonneg w1) as Hnn.
    assert (Hactive : active' <= Z.max (activeIndex w) 0 /\
                      (0 <= activeIndex w ->
                       0 <= active' /\ active' <= Z.max 0 (getAccountCount w1 - 1))).
    { unfold active'. rewrite Hact.
      destruct (activeIndex w >=? getAccountCount w1) eqn:Hc; [lia|].
      rewrite Z.geb_leb in Hc. apply Z.leb_gt in Hc. lia. }
    clearbody w'. rewrite Hai, Hrc, Hcount.
    repeat split; try tauto.
    intros j r' Hj. rewrite Ha in Hj. rewrite (deref_same_heap _ _ _ Hh).
    rewrite (Hidx j r' Hj). lia. }
  assert (Hdense : forall p, dense w -> accounts w !! p = Some r ->
     findIndex (fun r' => index (deref w r') =? index (deref w r)) (accounts w) = Some p).
  { intros p Hd Hp. apply findIndex_Some. exists r. repeat split; [exact Hp|apply Z.eqb_refl|].
    intros j y Hj Hy. apply Z.eqb_neq. rewrite (Hd j y Hy), (Hd p r Hp). lia. }
  split; [exact Hfound|]. split; [exact Hdense|].
  intros r0 r2 Hd Hacc.
  assert (Hp : accounts w !! 1%nat = Some r) by (by rewrite Hacc).
  destruct (Hfound 1%nat (Hdense 1%nat Hd Hp)) as (_ & Hacc' & Hd' & _).
  assert (Hacc2 : accounts (snd (removeAccount r w)) = [r0; r2])
    by (rewrite Hacc', Hacc; reflexivity).
  split; [exact Hacc2|].
  unfold poolIndices. rewrite Hacc2. cbn [map].
  rewrite (Hd' 0%nat r0), (Hd' 1%nat r2); [reflexivity|by rewrite Hacc2..].
Qed.

(** Three accounts, [activeIndex] on the last: the middle one is removed. *)
Lemma removeAccount_reindexes_witness :
  let w := set_activeIndex 2 (samplePool Sticky threeAccounts) in
  poolOk w /\
  poolIndices (snd (removeAccount 1%nat w)) = [0; 1] /\
  activeIndex (snd (removeAccount 1%nat w)) = 1.
Proof.
  intros w.
  assert (Hok : poolOk w).
  { split; [|repeat constructor; vm_compute; lia].
    apply (bool_decide_unpack _). by vm_compute. }
  split; [exact Hok|].
  destruct (removeAccount_reindexes w 1%nat Hok) as (_ & _ & Hthree).
  assert (Hd : dense w).
  { intros [|[|[|j]]] r' Hj; cbn in Hj; try discriminate; injection Hj as <-; reflexivity. }
  destruct (Hthree 0%nat 2%nat Hd eq_refl) as (_ & Hidx).
  split; [exact Hidx|reflexivity].
Defined.

(** ** C8: the usage-snapshot tracker merges on save *)

Module TrackerFacts.
Import CodexStatusManager.

Section Maps.
Context {V : Type}.
Implicit Types (m : JsMap V) (k : string) (v : V).

Lemma mapGet_mapSet k k' v m :
  mapGet k (mapSet k' v m) = if String.eqb k' k then Some v else mapGet k m.
Proof.
  induction m as [|[k0 v0] m IH]; cbn.
  - by destruct (String.eqb k' k).
  - destruct (String.eqb_spec k0 k') as [->|Hne]; cbn.
    + by destruct (String.eqb k' k).
    + rewrite IH. destruct (String.eqb_spec k0 k) as [->|Hne2]; [|done].
      by destruct (String.eqb_spec k' k) as [->|_].
Qed.

Lemma mapGet_mapDelete k k' m :
  mapGet k (mapDelete k' m) = if String.eqb k' k then None else mapGet k m.
Proof.
  induction m as [|[k0 v0] m IH]; cbn.
  - by destruct (String.eqb k' k).
  - destruct (String.eqb_spec k0 k') as [->|Hne]; cbn.
    + rewrite IH. by destruct (String.eqb k' k).
    + rewrite IH. destruct (String.eqb_spec k0 k) as [->|Hne2]; [|done].
      by destruct (String.eqb_spec k' k) as [->|_].
Qed.

Lemma mapGet_None_keys k m : mapGet k m = None <-> k ∉ (fst <$> m).
Proof.
  induction m as [|[k0 v0] m IH]; cbn.
  - split; [intros _ H; by apply elem_of_nil in H|done].
  - rewrite not_elem_of_cons. destruct (String.eqb k0 k) eqn:H0.
    + apply String.eqb_eq in H0 as ->. split; [discriminate|]. by intros [? _].
    + apply String.eqb_neq in H0. rewrite IH. split; [|tauto].
      intros H. split; [congruence|exact H].
Qed.

Lemma mapGet_elem k v m : distinctKeys m -> (k, v) ∈ m <-> mapGet k m = Some v.
Proof.
  unfold distinctKeys. induction m as [|[k0 v0] m IH]; cbn; intros Hnd.
  - split; [intros H; by apply elem_of_nil in H|discriminate].
  - apply NoDup_cons in Hnd as [Hk0 Hnd]. rewrite elem_of_cons.
    destruct (String.eqb k0 k) eqn:H0.
    + apply String.eqb_eq in H0 as ->. split.
      * intros [[= ->]|Hin]; [done|]. exfalso. apply Hk0.
        apply list_elem_of_fmap. by exists (k, v).
      * intros [= ->]. by left.
    + apply String.eqb_neq in H0. rewrite <- (IH Hnd). split.
      * intros [[= -> ->]|Hin]; [done|exact Hin].
      * intros Hin. by right.
Qed.

Lemma keys_mapSet k v m :
  forall k', k' ∈ (fst <$> mapSet k v m) <-> k' = k \/ k' ∈ (fst <$> m).
Proof.
  intros k'. induction m as [|[k0 v0] m IH]; cbn.
  - rewrite list_elem_of_singleton. split; [tauto|].
    intros [H|H]; [done|by apply elem_of_nil in H].
  - destruct (String.eqb k0 k) eqn:H0; cbn.
    + apply String.eqb_eq in H0 as ->. rewrite !elem_of_cons. tauto.
    + rewrite !elem_of_cons, IH. tauto.
Qed.

Lemma distinctKeys_mapSet k v m : distinctKeys m -> distinctKeys (mapSet k v m).
Proof.
  unfold distinctKeys. induction m as [|[k0 v0] m IH]; cbn; intros Hnd.
  - apply NoDup_singleton.
  - apply NoDup_cons in Hnd as [Hk0 Hnd].
    destruct (String.eqb k0 k) eqn:H0; cbn.
    + apply String.eqb_eq in H0 as ->. by apply NoDup_cons.
    + apply String.eqb_neq in H0. apply NoDup_cons. split; [|by apply IH].
      rewrite keys_mapSet. intros [->|Hin]; [done|by apply Hk0].
Qed.

Lemma distinctKeys_mapOfEntries (entries : list (string * V)) :
  distinctKeys (mapOfEntries entries).
Proof.
  unfold mapOfEntries.
  assert (H : forall acc : JsMap V, distinctKeys acc ->
            distinctKeys (fold_left (fun m kv => mapSet (fst kv) (snd kv) m) entries acc)).
  { induction entries as [|[k v] entries IH]; intros acc Hacc; cbn; [done|].
    apply IH. by apply distinctKeys_mapSet. }
  apply H. apply NoDup_nil_2.
Qed.

End Maps.

Lemma distinctKeys_mergeLoop memory : forall diskMap,
  distinctKeys diskMap -> distinctKeys (mergeLoop memory diskMap).
Proof.
  induction memory as [|[k mv] memory IH]; intros diskMap Hd; cbn [mergeLoop]; [done|].
  apply IH. destruct (mapGet k diskMap) as [dv|].
  - destruct (updatedAt mv >? updatedAt dv); [by apply distinctKeys_mapSet|done].
  - by apply distinctKeys_mapSet.
Qed.

Lemma mapGet_mergeLoop memory : forall diskMap k,
  distinctKeys memory ->
  mapGet k (mergeLoop memory diskMap) = mergedEntry (mapGet k memory) (mapGet k diskMap).
Proof.
  induction memory as [|[k0 mv] memory IH]; intros diskMap k Hnd; cbn [mergeLoop].
  - cbn. by destruct (mapGet k diskMap).
  - unfold distinctKeys in Hnd. cbn in Hnd. apply NoDup_cons in Hnd as [Hk0 Hnd].
    rewrite (IH _ k Hnd). cbn [mapGet].
    destruct (String.eqb k0 k) eqn:H0.
    + apply String.eqb_eq in H0 as ->.
      assert (Hnone : mapGet k memory = None) by (by apply mapGet_None_keys).
      rewrite Hnone. cbn [mergedEntry].
      destruct (mapGet k diskMap) as [dv|] eqn:Hdv.
      * destruct (updatedAt mv >? updatedAt dv).
        -- by rewrite mapGet_mapSet, String.eqb_refl.
        -- exact Hdv.
      * by rewrite mapGet_mapSet, String.eqb_refl.
    + assert (Hsame : forall m', mapGet k (mapSet k0 mv m') = mapGet k m')
        by (intros m'; by rewrite mapGet_mapSet, H0).
      destruct (mapGet k0 diskMap) as [dv|].
      * destruct (updatedAt mv >? updatedAt dv); by rewrite ?Hsame.
      * by rewrite Hsame.
Qed.

Lemma mapGet_pruneLoop now todo : forall diskMap k,
  mapGet k (pruneLoop now todo diskMap) =
  if existsb (fun kv => String.eqb (fst kv) k && expired now (snd kv)) todo
  then None else mapGet k diskMap.
Proof.
  induction todo as [|[k0 v0] todo IH]; intros diskMap k; cbn [pruneLoop existsb fst snd].
  - reflexivity.
  - rewrite IH. fold (expired now v0).
    destruct (existsb _ todo); [by rewrite orb_true_r|]. rewrite orb_false_r.
    destruct (expired now v0); [|by rewrite andb_false_r].
    rewrite andb_true_r, mapGet_mapDelete. reflexivity.
Qed.

Lemma mapGet_prune_self now (m : JsMap CodexRateLimitSnapshot) k :
  distinctKeys m ->
  mapGet k (pruneLoop now m m) =
  match mapGet k m with
  | Some v => if expired now v then None else Some v
  | None => None
  end.
Proof.
  intros Hnd. rewrite mapGet_pruneLoop.
  destruct (existsb _ m) eqn:Hex.
  - apply existsb_exists in Hex as ([k0 v0] & Hin & Hkv). cbn in Hkv.
    apply andb_true_iff in Hkv as [Hk Hexp]. apply String.eqb_eq in Hk as ->.
    apply list_elem_of_In, (mapGet_elem _ _ _ Hnd) in Hin. by rewrite Hin, Hexp.
  - destruct (mapGet k m) as [v|] eqn:Hv; [|done].
    destruct (expired now v) eqn:Hexp; [|done].
    exfalso. apply (mapGet_elem _ _ _ Hnd) in Hv.
    assert (Hex' : existsb (fun kv => String.eqb (fst kv) k && expired now (snd kv)) m = true).
    { apply existsb_exists. exists (k, v). split; [by apply list_elem_of_In|].
      cbn. by rewrite String.eqb_refl, Hexp. }
    congruence.
Qed.

Lemma keys_mapDelete {V} k (m : JsMap V) :
  (fst <$> mapDelete k m) `sublist_of` (fst <$> m).
Proof.
  induction m as [|[k0 v0] m IH]; cbn; [done|].
  destruct (String.eqb k0 k); cbn.
  - by apply sublist_cons.
  - by apply sublist_skip.
Qed.

Lemma distinctKeys_pruneLoop now todo : forall diskMap,
  distinctKeys diskMap -> distinctKeys (pruneLoop now todo diskMap).
Proof.
  induction todo as [|[k0 v0] todo IH]; intros diskMap Hd; cbn [pruneLoop]; [done|].
  apply IH. destruct (now - updatedAt v0 >? SNAPSHOT_RETENTION_MS); [|done].
  exact (sublist_NoDup _ _ Hd (keys_mapDelete k0 diskMap)).
Qed.

(** With no parsed array on disk, [saveToDisk] writes the in-memory map as
    it is; an entry far older than seven days is then written too, so not
    every expired entry is pruned before the result is written. *)
Lemma saveToDisk_without_file_keeps_expired :
  ~ (forall now t k v,
       distinctKeys (snapshots t) ->
       mapGet k (snapshots (saveToDisk now t)) = Some v -> expired now v = false).
Proof.
  intros H.
  set (old := mkSnapshot None "acct" "a@example.com" "plus" 0 None None None).
  specialize (H 1700000000000 (mkTracker [("k", old)] SnapMissing) "k" old).
  cbn in H. discriminate H; [apply NoDup_singleton|reflexivity].
Qed.

(** C8, as the code has it. When the snapshots file parses to an array,
    [saveToDisk] merges: a key held both in memory and on disk keeps the
    in-memory entry when its [updatedAt] is strictly newer and the disk
    entry otherwise, a key held by one side only keeps that entry, and
    every merged entry older than the seven-day retention window is
    dropped; the result becomes the in-memory map and is what is written.
    When the file is missing, unparseable or not an array, the in-memory
    map is written unchanged, neither merged nor pruned. *)
Theorem saveToDisk_merges_and_prunes (now : Z) (t : Tracker) :
  distinctKeys (snapshots t) ->
  SNAPSHOT_RETENTION_MS = 604800000 /\
  file (saveToDisk now t) = SnapArray (snapshots (saveToDisk now t)) /\
  (forall entries, file t = SnapArray entries ->
     distinctKeys (snapshots (saveToDisk now t)) /\
     forall k,
       mapGet k (snapshots (saveToDisk now t)) =
       match mergedEntry (mapGet k (snapshots t)) (mapGet k (mapOfEntries entries)) with
       | Some v => if now - updatedAt v >? SNAPSHOT_RETENTION_MS then None else Some v
       | None => None
       end) /\
  ((forall entries, file t <> SnapArray entries) ->
     snapshots (saveToDisk now t) = snapshots t).
Proof.
  intros Hnd. split; [reflexivity|]. split; [reflexivity|]. split.
  - intros entries Hfile. unfold saveToDisk. rewrite Hfile. cbn [snapshots].
    set (merged := mergeLoop (snapshots t) (mapOfEntries entries)).
    assert (Hm : distinctKeys merged)
      by (apply distinctKeys_mergeLoop, distinctKeys_mapOfEntries).
    split.
    + by apply distinctKeys_pruneLoop.
    + intros k. rewrite (mapGet_prune_self now merged k Hm).
      unfold merged. rewrite (mapGet_mergeLoop _ _ _ Hnd). reflexivity.
  - intros Hno. unfold saveToDisk. destruct (file t); try reflexivity.
    by destruct (Hno entries).
Qed.

(** Memory and disk both hold key "k": the disk entry is newer and wins;
    a disk-only entry from long ago is dropped. *)
Lemma saveToDisk_merges_and_prunes_witness :
  let snap (at_ : Z) := mkSnapshot None "acct" "a@example.com" "plus" at_ None None None in
  let now := 1700000000000 in
  let t := mkTracker [("k", snap (now - 2000))]
                     (SnapArray [("old", snap 0); ("k", snap (now - 1000))]) in
  distinctKeys (snapshots t) /\
  mapGet "k" (snapshots (saveToDisk now t)) = Some (snap (now - 1000)) /\
  mapGet "old" (snapshots (saveToDisk now t)) = None.
Proof.
  intros snap now t.
  assert (Hnd : distinctKeys (snapshots t)) by apply NoDup_singleton.
  split; [exact Hnd|].
  destruct (saveToDisk_merges_and_prunes now t Hnd) as (_ & _ & Hmerge & _).
  destruct (Hmerge _ eq_refl) as (_ & Hget).
  split; rewrite Hget; reflexivity.
Defined.

End TrackerFacts.

(** ** C9: failover needs another account *)

Lemma bind_Ok_inv {A B} (m : M A) (k : A -> M B) w b w' :
  bind m k w = (Ok b, w') ->
  exists a w1, m w = (Ok a, w1) /\ k a w1 = (Ok b, w').
Proof.
  unfold bind. destruct (m w) as [[a|e] w1]; [eauto|discriminate].
Qed.

Lemma run_ok {A B} (m : M A) (k : A -> M B) w a w1 :
  m w = (Ok a, w1) -> bind m k w = k a w1.
Proof. unfold bind. by intros ->. Qed.

Lemma failover_run account nextAccount rc w :
  failover account nextAccount rc w =
  (Ok match nextAccount with
      | Some n =>
        if negb (index (deref w n) =? index (deref w account))
        then Some (Recurse n rc) else None
      | None => None
      end, w).
Proof.
  unfold failover. rewrite run_get. destruct nextAccount as [n|]; [|reflexivity].
  by destruct (negb _).
Qed.

Lemma failover_recurse account nextAccount rc w out w' :
  failover account nextAccount rc w = (Ok (Some out), w') ->
  w' = w /\
  exists n, out = Recurse n rc /\ nextAccount = Some n /\
            index (deref w n) <> index (deref w account).
Proof.
  rewrite failover_run. intros [= Hout <-]. split; [reflexivity|].
  destruct nextAccount as [n|]; [|discriminate].
  destruct (index (deref w n) =? index (deref w account)) eqn:Hi; cbn in Hout;
    [discriminate|].
  injection Hout as <-. exists n. repeat split. by apply Z.eqb_neq.
Qed.

Lemma failover_same account nextAccount rc w :
  sameOrNull w account nextAccount ->
  failover account nextAccount rc w = (Ok None, w).
Proof.
  intros Hs. rewrite failover_run. destruct nextAccount as [n|]; [|reflexivity].
  cbn in Hs. by rewrite Hs, Z.eqb_refl.
Qed.

Lemma onInvalidToken_recurse E account rc w out w' :
  onInvalidToken E account rc w = (Ok out, w') -> recursesTo rc out w' account.
Proof.
  unfold onInvalidToken. intros H.
  apply bind_Ok_inv in H as (nx & w1 & _ & H).
  apply bind_Ok_inv in H as (o & w2 & Hf & H).
  destruct o as [o|]; [|by injection H as <- <-].
  injection H as <- <-.
  apply failover_recurse in Hf as (-> & n & -> & _ & Hne). by split.
Qed.

Lemma onTooManyRequests_recurse E account response model rc w out w' :
  onTooManyRequests E account response model rc w = (Ok (Some out), w') ->
  recursesTo (rc + 1) out w' account /\ exists n, out = Recurse n (rc + 1).
Proof.
  unfold onTooManyRequests. intros H.
  destruct (status response =? TOO_MANY_REQUESTS); [|discriminate].
  apply bind_Ok_inv in H as (? & w1 & _ & H).
  rewrite run_get in H.
  destruct (rc <? getAccountCount w1 - 1); [|discriminate].
  apply bind_Ok_inv in H as (nx & w2 & _ & H).
  apply failover_recurse in H as (-> & n & -> & _ & Hne). split; [by split|eauto].
Qed.

Lemma onUnauthorized_recurse E account response model rc w out w' :
  onUnauthorized E account response model rc w = (Ok (Some out), w') ->
  recursesTo (rc + 1) out w' account /\ exists n, out = Recurse n (rc + 1).
Proof.
  unfold onUnauthorized. intros H.
  destruct ((status response =? UNAUTHORIZED) && (rc <? 1)); [|discriminate].
  apply bind_Ok_inv in H as (? & w1 & _ & H).
  apply bind_Ok_inv in H as (nx & w2 & _ & H).
  apply failover_recurse in H as (-> & n & -> & _ & Hne). split; [by split|eauto].
Qed.

Lemma classifyResponse_recurse E account response model isStreaming rc w out w' :
  classifyResponse E account response model isStreaming rc w = (Ok out, w') ->
  recursesTo (rc + 1) out w' account.
Proof.
  unfold classifyResponse. intros H.
  apply bind_Ok_inv in H as (r429 & w1 & H429 & H).
  destruct r429 as [o|].
  { injection H as <- <-. by apply onTooManyRequests_recurse in H429 as [? _]. }
  apply bind_Ok_inv in H as (r401 & w2 & H401 & H).
  destruct r401 as [o|].
  { injection H as <- <-. by apply onUnauthorized_recurse in H401 as [? _]. }
  destruct (negb (responseOk response)); by injection H as <- <-.
Qed.

Lemma executeStep_recurse E body account rc w n rc' w' :
  executeStep E body account rc w = (Ok (Recurse n rc'), w') ->
  (rc' = rc \/ rc' = rc + 1) /\ index (deref w' n) <> index (deref w' account).
Proof.
  unfold executeStep. intros H.
  apply bind_Ok_inv in H as (isTokenValid & w1 & _ & H).
  destruct isTokenValid; cbn [negb] in H.
  - apply bind_Ok_inv in H as ([model isStreaming] & w2 & _ & H).
    rewrite run_get in H. cbn zeta in H.
    match type of H with (if ?c then _ else _) _ = _ => destruct c end;
      [discriminate|].
    apply bind_Ok_inv in H as (response & w3 & _ & H).
    apply classifyResponse_recurse in H as [-> Hne]. split; [by right|exact Hne].
  - apply onInvalidToken_recurse in H as [-> Hne]. split; [by left|exact Hne].
Qed.

Lemma handleErrorResponse_other r :
  status r <> NOT_FOUND -> handleErrorResponse r = r.
Proof.
  intros H. unfold handleErrorResponse, mapUsageLimit404.
  apply Z.eqb_neq in H. by rewrite H.
Qed.

(** C9. An activation of [executeRequest] ends in a tail call only for an
    account whose [index] differs from the current account's, with the
    retry count unchanged (after a failed token validation) or one higher
    (after a 429 or a first 401). When reselection returns null or an
    account with the same index, the refresh-failure path returns the
    synthetic 401 "All accounts failed token refresh", and the 429 path
    and the 401 path return the upstream response as it came, also when
    the retry count would have allowed another attempt. *)
Theorem failover_needs_another_account (E : Env) (body : RequestBody)
    (account : nat) (rc : Z) (w : World) :
  (forall n rc' w',
     executeStep E body account rc w = (Ok (Recurse n rc'), w') ->
     (rc' = rc \/ rc' = rc + 1) /\
     index (deref w' n) <> index (deref w' account)) /\
  (forall w1 nextAccount w2,
     ensureValidToken E account w = (Ok false, w1) ->
     getNextAvailableAccount E None w1 = (Ok nextAccount, w2) ->
     sameOrNull w2 account nextAccount ->
     executeStep E body account rc w =
     (Ok (Done (Synthetic UNAUTHORIZED AllAccountsFailedTokenRefresh)), w2)) /\
  (forall response model isStreaming w1 nextAccount w2,
     status response = TOO_MANY_REQUESTS ->
     noteRateLimit E account response model w = (Ok tt, w1) ->
     rc < getAccountCount w1 - 1 ->
     getNextAvailableAccount E model w1 = (Ok nextAccount, w2) ->
     sameOrNull w2 account nextAccount ->
     classifyResponse E account response model isStreaming rc w =
     (Ok (Done (ErrorReply response)), w2)) /\
  (forall response model isStreaming w1 nextAccount w2,
     status response = UNAUTHORIZED ->
     rc < 1 ->
     markRefreshFailed account "401 Unauthorized" w = (Ok tt, w1) ->
     getNextAvailableAccount E model w1 = (Ok nextAccount, w2) ->
     sameOrNull w2 account nextAccount ->
     classifyResponse E account response model isStreaming rc w =
     (Ok (Done (ErrorReply response)), w2)).
Proof.
  split; [intros n rc' w'; apply executeStep_recurse|]. split; [|split].
  - intros w1 nx w2 Hv Hn Hs. unfold executeStep.
    rewrite (run_ok _ _ _ _ _ Hv). cbn [negb]. unfold onInvalidToken.
    rewrite (run_ok _ _ _ _ _ Hn), (run_ok _ _ _ _ _ (failover_same _ _ _ _ Hs)).
    reflexivity.
  - intros response model isStreaming w1 nx w2 Hst Hnote Hrc Hn Hs.
    assert (H429 : (status response =? TOO_MANY_REQUESTS) = true)
      by (rewrite Hst; reflexivity).
    assert (H401 : (status response =? UNAUTHORIZED) = false)
      by (rewrite Hst; reflexivity).
    assert (Hok : responseOk response = false)
      by (unfold responseOk; rewrite Hst; reflexivity).
    apply Z.ltb_lt in Hrc.
    unfold classifyResponse, onTooManyRequests. rewrite H429.
    rewrite run_bind, (run_ok _ _ _ _ _ Hnote), run_bind, run_get, Hrc.
    rewrite run_bind, (run_ok _ _ _ _ _ Hn), (run_ok _ _ _ _ _ (failover_same _ _ _ _ Hs)).
    unfold onUnauthorized. rewrite H401. cbn [andb]. rewrite run_ret, Hok. cbn [negb].
    rewrite handleErrorResponse_other by (rewrite Hst; discriminate). reflexivity.
  - intros response model isStreaming w1 nx w2 Hst Hrc Hm Hn Hs.
    assert (H429 : (status response =? TOO_MANY_REQUESTS) = false)
      by (rewrite Hst; reflexivity).
    assert (H401 : (status response =? UNAUTHORIZED) = true)
      by (rewrite Hst; reflexivity).
    assert (Hok : responseOk response = false)
      by (unfold responseOk; rewrite Hst; reflexivity).
    apply Z.ltb_lt in Hrc.
    unfold classifyResponse, onTooManyRequests. rewrite H429, run_ret.
    unfold onUnauthorized. rewrite H401, Hrc. cbn [andb].
    rewrite run_bind, (run_ok _ _ _ _ _ Hm), run_bind, (run_ok _ _ _ _ _ Hn),
      (run_ok _ _ _ _ _ (failover_same _ _ _ _ Hs)), Hok. cbn [negb].
    rewrite handleErrorResponse_other by (rewrite Hst; discriminate). reflexivity.
Qed.

(** Two accounts, the second at the failure ceiling; the first answers
    429 on the first attempt. The retry count would allow a retry, but the
    only account reselection can return is the first one again, so the 429
    goes back to the caller. *)
Lemma failover_needs_another_account_witness :
  let w := samplePool Sticky
             [sampleAccount 0 "rt-1"; set_consecutiveFailures 3 (sampleAccount 1 "rt-2")] in
  let E := sampleEnv RefreshFailed 429 in
  let model := Some "gpt-5.2-codex" in
  0 < getAccountCount w - 1 /\
  fst (classifyResponse E 0%nat (sampleResponse 429) model false 0 w)
    = Ok (Done (ErrorReply (sampleResponse 429))).
Proof.
  intros w E model. split; [reflexivity|].
  destruct (failover_needs_another_account E NoBody 0%nat 0 w) as (_ & _ & H429 & _).
  set (w1 := snd (noteRateLimit E 0%nat (sampleResponse 429) model w)).
  set (w2 := snd (getNextAvailableAccount E model w1)).
  rewrite (H429 (sampleResponse 429) model false w1 (Some 0%nat) w2);
    [reflexivity|reflexivity|reflexivity|reflexivity| |].
  - vm_compute. reflexivity.
  - reflexivity.
Defined.

(** ** C10: a successful refresh clears the failure state *)

Lemma updateAccountTokens_ok E w r acc ref exp :
  fst (updateAccountTokens E r acc ref exp w) = Ok tt.
Proof.
  by rewrite (total_unit _ (total_updateAccountTokens E r acc ref exp) w).
Qed.

(** Availability does not look at the fields [updateAccountTokens]
    writes, apart from the failure counter. *)
Lemma isAccountAvailable_fields c a a' model now :
  consecutiveFailures a' = consecutiveFailures a ->
  globalRateLimitReset a' = globalRateLimitReset a ->
  rateLimitResets a' = rateLimitResets a ->
  isAccountAvailable c a' model now = isAccountAvailable c a model now.
Proof. unfold isAccountAvailable. by intros -> -> ->. Qed.

Lemma selector_updateAccountTokens E r acc ref exp :
  preserves (fun w => (accounts w, startIndexOf w, strategyInitialized w))
            (updateAccountTokens E r acc ref exp).
Proof. unfold updateAccountTokens, assignIf. pres_tac. Qed.

(** C10. [updateAccountTokens] installs the new access token, refresh token
    and expiry and sets [consecutiveFailures] to 0, [isRefreshing] to false
    and [lastRefreshError] to undefined, whatever they were; the account
    then passes the availability test exactly as if it had never failed.
    [ensureValidToken] reaches that state when the refresh endpoint answers
    with success. With the account in the pool, the next selection finds
    an account again. *)
Theorem refresh_success_clears_failure_state (E : Env) (w : World) (r : nat)
    (acc ref : string) (exp : Z) :
  valid w r ->
  (let w' := snd (updateAccountTokens E r acc ref exp w) in
   let a' := deref w' r in
   fst (updateAccountTokens E r acc ref exp w) = Ok tt /\
   access a' = Some acc /\ refreshToken a' = ref /\ expires a' = Some exp /\
   consecutiveFailures a' = 0 /\ isRefreshing a' = Some false /\
   lastRefreshError a' = None /\
   forall c model now,
     isAccountAvailable c a' model now =
     isAccountAvailable c (set_consecutiveFailures 0 (deref w r)) model now) /\
  (needsRefresh (config w) (deref w r) (dateNow E (tick w)) ->
   truthyB (isRefreshing (deref w r)) = false ->
   refreshAccessToken E (S (tick w)) (refreshToken (deref w r))
     = RefreshSuccess acc ref exp ->
   let w' := snd (ensureValidToken E r w) in
   let a' := deref w' r in
   fst (ensureValidToken E r w) = Ok true /\
   access a' = Some acc /\ refreshToken a' = ref /\ expires a' = Some exp /\
   consecutiveFailures a' = 0 /\ isRefreshing a' = Some false /\
   lastRefreshError a' = None /\
   forall c model now,
     isAccountAvailable c a' model now =
     isAccountAvailable c (set_consecutiveFailures 0 (deref w r)) model now) /\
  (r ∈ accounts w -> cursorOk w -> forall model,
   exists n,
     fst (getNextAvailableAccount E model (snd (updateAccountTokens E r acc ref exp w)))
     = Ok (Some n)).
Proof.
  intros Hv. split; [|split].
  - destruct (updateAccountTokens_fields E w r acc ref exp Hv)
      as (H1 & H2 & H3 & H4 & H5 & H6 & H7 & H8).
    cbn zeta. repeat split; try assumption.
    + apply updateAccountTokens_ok.
    + intros c model now. by apply isAccountAvailable_fields.
  - intros Hn Hflag Hans. rewrite (ensureValidToken_refresh E w r Hn Hflag), Hans.
    cbn [fst snd].
    assert (Hv' : valid (refreshing w r) r).
    { unfold valid, refreshing. cbn. by rewrite length_alter. }
    destruct (updateAccountTokens_fields E (refreshing w r) r acc ref exp Hv')
      as (H1 & H2 & H3 & H4 & H5 & H6 & H7 & H8).
    assert (Hd : deref (refreshing w r) r = set_isRefreshing (Some true) (deref w r)).
    { apply deref_alter_eq; [reflexivity|exact Hv]. }
    rewrite Hd in H7, H8. cbn in H7, H8.
    repeat split; try assumption.
    intros c model now. by apply isAccountAvailable_fields.
  - intros Hin Hc model.
    pose proof (selector_updateAccountTokens E r acc ref exp w) as Hsel.
    set (w' := snd (updateAccountTokens E r acc ref exp w)) in *.
    injection Hsel as Hacc Hstart Hinit.
    assert (Hc' : cursorOk w').
    { unfold cursorOk. rewrite Hinit, Hstart. exact Hc. }
    destruct (getNextAvailableAccount_null_iff E model w' Hc') as ([[n|] Ho] & Hnull);
      [eauto|].
    exfalso. destruct (proj1 Hnull Ho) as [He|Hall].
    + rewrite Hacc in He. rewrite He in Hin. by apply elem_of_nil in Hin.
    + rewrite Hacc in Hall. specialize (Hall r Hin).
      destruct (updateAccountTokens_fields E w r acc ref exp Hv) as (H1 & _).
      unfold w' in Hall. lia.
Qed.

(** An account that failed three times and whose token is due: one
    successful refresh makes it pass the availability test again. *)
Lemma refresh_success_clears_failure_state_witness :
  let a := set_consecutiveFailures 3 (set_expires (Some 1) (sampleAccount 0 "rt-1")) in
  let w := samplePool Sticky [a] in
  let E := sampleEnv (RefreshSuccess "jwt-2" "rt-1b" 1800000000000) 200 in
  isAccountAvailable (config w) (deref w 0%nat) None 1700000000000 = false /\
  fst (ensureValidToken E 0%nat w) = Ok true /\
  isAccountAvailable (config w) (deref (snd (ensureValidToken E 0%nat w)) 0%nat)
    None 1700000000000 = true.
Proof.
  intros a w E. split; [reflexivity|].
  assert (Hv : valid w 0%nat) by (vm_compute; lia).
  destruct (refresh_success_clears_failure_state E w 0%nat "jwt-2" "rt-1b"
              1800000000000 Hv) as (_ & Hrun & _).
  assert (Hn : needsRefresh (config w) (deref w 0%nat) (dateNow E (tick w))).
  { exists 1. repeat split; [discriminate|vm_compute; discriminate]. }
  destruct (Hrun Hn eq_refl eq_refl) as (Hok & _ & _ & _ & _ & _ & _ & Hav).
  split; [exact Hok|]. rewrite Hav. reflexivity.
Defined.

(** ** C1: how far [executeRequest] recurses *)

(** *** What the manager leaves alone *)

Lemma fetchLog_reindexFrom l : forall i, preserves fetchLog (reindexFrom i l).
Proof. induction l as [|r l IH]; intros i; cbn [reindexFrom]; pres_tac. Qed.
#[local] Hint Resolve fetchLog_reindexFrom : pres.

Lemma fetchLog_removeAccount r : preserves fetchLog (removeAccount r).
Proof. unfold removeAccount. pres_tac. Qed.
#[local] Hint Resolve fetchLog_removeAccount : pres.

Lemma fetchLog_markRefreshFailed r e : preserves fetchLog (markRefreshFailed r e).
Proof. unfold markRefreshFailed. pres_tac. Qed.
#[local] Hint Resolve fetchLog_markRefreshFailed : pres.

Lemma fetchLog_updateAccountTokens E r acc ref exp :
  preserves fetchLog (updateAccountTokens E r acc ref exp).
Proof. unfold updateAccountTokens, assignIf. pres_tac. Qed.
#[local] Hint Resolve fetchLog_updateAccountTokens : pres.

Lemma fetchLog_callRefresh E token : preserves fetchLog (callRefresh E token).
Proof. intros w. unfold callRefresh. by destruct (refreshAccessToken _ _ _). Qed.
#[local] Hint Resolve fetchLog_callRefresh : pres.

Lemma accounts_callRefresh E token : preserves accounts (callRefresh E token).
Proof. intros w. unfold callRefresh. by destruct (refreshAccessToken _ _ _). Qed.
#[local] Hint Resolve accounts_callRefresh : pres.

Lemma fetchLog_ensureValidToken E r : preserves fetchLog (ensureValidToken E r).
Proof. unfold ensureValidToken. pres_tac. Qed.
#[local] Hint Resolve fetchLog_ensureValidToken : pres.

Lemma fetchLog_selectAt i r now : preserves fetchLog (selectAt i r now).
Proof. unfold selectAt. pres_tac. Qed.
#[local] Hint Resolve fetchLog_selectAt : pres.

Lemma fetchLog_scanLoop model now start remaining :
  forall attempts, preserves fetchLog (scanLoop model now start remaining attempts).
Proof. induction remaining as [|n IH]; intros attempts; cbn [scanLoop]; pres_tac. Qed.
#[local] Hint Resolve fetchLog_scanLoop : pres.

Lemma fetchLog_getNextAvailableAccount E model :
  preserves fetchLog (getNextAvailableAccount E model).
Proof.
  unfold getNextAvailableAccount, initializeStrategyState, normalizeIndex,
    getLeastRateLimitedAccount.
  pres_tac.
Qed.
#[local] Hint Resolve fetchLog_getNextAvailableAccount : pres.

Lemma fetchLog_noteRateLimit E r response model :
  preserves fetchLog (noteRateLimit E r response model).
Proof. unfold noteRateLimit, markRateLimited. pres_tac. Qed.
#[local] Hint Resolve fetchLog_noteRateLimit : pres.

Lemma accounts_selectAt i r now : preserves accounts (selectAt i r now).
Proof. unfold selectAt. pres_tac. Qed.
#[local] Hint Resolve accounts_selectAt : pres.

Lemma accounts_scanLoop model now start remaining :
  forall attempts, preserves accounts (scanLoop model now start remaining attempts).
Proof. induction remaining as [|n IH]; intros attempts; cbn [scanLoop]; pres_tac. Qed.
#[local] Hint Resolve accounts_scanLoop : pres.

Lemma accounts_getNextAvailableAccount E model :
  preserves accounts (getNextAvailableAccount E model).
Proof.
  unfold getNextAvailableAccount, initializeStrategyState, normalizeIndex,
    getLeastRateLimitedAccount.
  pres_tac.
Qed.
#[local] Hint Resolve accounts_getNextAvailableAccount : pres.

Lemma accounts_noteRateLimit E r response model :
  preserves accounts (noteRateLimit E r response model).
Proof. unfold noteRateLimit, markRateLimited. pres_tac. Qed.
#[local] Hint Resolve accounts_noteRateLimit : pres.

Lemma accounts_updateAccountTokens E r acc ref exp :
  preserves accounts (updateAccountTokens E r acc ref exp).
Proof. unfold updateAccountTokens, assignIf. pres_tac. Qed.

Lemma accounts_reindexFrom l : forall i, preserves accounts (reindexFrom i l).
Proof. induction l as [|r l IH]; intros i; cbn [reindexFrom]; pres_tac. Qed.

(** The literal reason of the 401 path never removes an account. *)
Lemma accounts_markRefreshFailed_401 r :
  preserves accounts (markRefreshFailed r "401 Unauthorized").
Proof.
  unfold markRefreshFailed.
  repeat (apply pres_bind; [pres_tac|intros ?]).
  change (includes "invalid_grant" "401 Unauthorized") with false.
  rewrite andb_false_r. pres_tac.
Qed.

(** *** The pool never grows during a request *)

Lemma shrinks_preserves {A} (m : M A) : preserves accounts m -> shrinks m.
Proof. intros H w. by rewrite (H w). Qed.

Lemma shrinks_bind {A B} (m : M A) (k : A -> M B) :
  shrinks m -> (forall a, shrinks (k a)) -> shrinks (bind m k).
Proof.
  intros Hm Hk w. unfold bind. specialize (Hm w).
  destruct (m w) as [[a|e] w']; cbn in *; [|exact Hm].
  specialize (Hk a w'). lia.
Qed.

Lemma shrinks_try_catch {A} (m : M A) (h : string -> M A) :
  shrinks m -> (forall e, shrinks (h e)) -> shrinks (try_catch m h).
Proof.
  intros Hm Hh w. unfold try_catch. specialize (Hm w).
  destruct (m w) as [[a|e] w']; cbn in *; [exact Hm|].
  specialize (Hh e w'). lia.
Qed.

Lemma shrinks_removeAccount r : shrinks (removeAccount r).
Proof.
  intros w.
  destruct (findIndex (fun r' => index (deref w r') =? index (deref w r)) (accounts w))
    as [i|] eqn:Hf.
  - rewrite (removeAccount_found w r i Hf). cbn [snd saveToDisk modify].
    cbn [accounts set_disk set_strategyInitialized set_roundRobinCursor set_activeIndex].
    rewrite accounts_reindexFrom. cbn [accounts set_accounts].
    destruct (proj1 (findIndex_Some _ _ _) Hf) as (x & Hx & _).
    rewrite length_delete by eauto. lia.
  - by rewrite (removeAccount_not_found w r Hf).
Qed.

Lemma shrinks_markRefreshFailed r e : shrinks (markRefreshFailed r e).
Proof.
  unfold markRefreshFailed.
  repeat (apply shrinks_bind; [apply shrinks_preserves; pres_tac|intros ?]).
  destruct (_ && _); [apply shrinks_removeAccount|apply shrinks_preserves; pres_tac].
Qed.

Lemma shrinks_ensureValidToken E r : shrinks (ensureValidToken E r).
Proof.
  unfold ensureValidToken.
  apply shrinks_bind; [apply shrinks_preserves; pres_tac|intros w0].
  apply shrinks_bind; [apply shrinks_preserves; pres_tac|intros fresh].
  destruct fresh; [apply shrinks_preserves; pres_tac|].
  destruct (truthyB _); [apply shrinks_preserves; pres_tac|].
  apply shrinks_bind; [apply shrinks_preserves; pres_tac|intros _].
  apply shrinks_try_catch.
  - apply shrinks_bind; [apply shrinks_preserves; pres_tac|intros out].
    destruct out.
    + apply shrinks_bind; [|intros ?; apply shrinks_preserves; pres_tac].
      apply shrinks_preserves, accounts_updateAccountTokens.
    + apply shrinks_bind; [apply shrinks_markRefreshFailed|].
      intros ?; apply shrinks_preserves; pres_tac.
    + apply shrinks_bind; [apply shrinks_markRefreshFailed|].
      intros ?; apply shrinks_preserves; pres_tac.
  - intros e. apply shrinks_bind; [apply shrinks_markRefreshFailed|].
    intros ?; apply shrinks_preserves; pres_tac.
Qed.

(** *** One activation *)

Lemma bind_inv {A B} (m : M A) (k : A -> M B) w r w' :
  bind m k w = (r, w') ->
  (exists a w1, m w = (Ok a, w1) /\ k a w1 = (r, w')) \/
  (exists e, m w = (Throw e, w') /\ r = Throw e).
Proof.
  unfold bind. destruct (m w) as [[a|e] w1]; [eauto|].
  intros [= <- <-]. eauto.
Qed.

Lemma fetchLog_failover a nx rc : preserves fetchLog (failover a nx rc).
Proof. intros w. by rewrite failover_run. Qed.
#[local] Hint Resolve fetchLog_failover : pres.

Lemma accounts_failover a nx rc : preserves accounts (failover a nx rc).
Proof. intros w. by rewrite failover_run. Qed.
#[local] Hint Resolve accounts_failover accounts_markRefreshFailed_401 : pres.

Lemma fetchLog_classifyResponse E a response model s rc :
  preserves fetchLog (classifyResponse E a response model s rc).
Proof. unfold classifyResponse, onTooManyRequests, onUnauthorized. pres_tac. Qed.

Lemma accounts_classifyResponse E a response model s rc :
  preserves accounts (classifyResponse E a response model s rc).
Proof. unfold classifyResponse, onTooManyRequests, onUnauthorized. pres_tac. Qed.

Lemma fetchLog_onInvalidToken E a rc : preserves fetchLog (onInvalidToken E a rc).
Proof. unfold onInvalidToken. pres_tac. Qed.

Lemma accounts_onInvalidToken E a rc : preserves accounts (onInvalidToken E a rc).
Proof. unfold onInvalidToken. pres_tac. Qed.

(** A tail call after a response needs retry budget. *)
Lemma classifyResponse_budget E a response model s rc w n rc' w' :
  classifyResponse E a response model s rc w = (Ok (Recurse n rc'), w') ->
  rc' = rc + 1 /\ rc < Z.max (getAccountCount w - 1) 1.
Proof.
  intros H. pose proof (classifyResponse_recurse _ _ _ _ _ _ _ _ _ H) as [-> _].
  split; [reflexivity|].
  unfold classifyResponse in H. apply bind_Ok_inv in H as (r429 & w1 & H429 & H).
  destruct r429 as [o|].
  - unfold onTooManyRequests in H429.
    destruct (status response =? TOO_MANY_REQUESTS); [|discriminate].
    apply bind_Ok_inv in H429 as ([] & w2 & Hnote & H429).
    rewrite run_get in H429.
    destruct (rc <? getAccountCount w2 - 1) eqn:Hrc; [|discriminate].
    apply Z.ltb_lt in Hrc.
    pose proof (accounts_noteRateLimit E a response model w) as Hacc.
    rewrite Hnote in Hacc. cbn in Hacc. rewrite (count_accounts _ _ Hacc) in Hrc. lia.
  - apply bind_Ok_inv in H as (r401 & w2 & H401 & H).
    destruct r401 as [o|].
    + unfold onUnauthorized in H401.
      destruct (status response =? UNAUTHORIZED); [|discriminate].
      destruct (rc <? 1) eqn:Hrc; [|discriminate]. apply Z.ltb_lt in Hrc. lia.
    + destruct (negb (responseOk response)); unfold ret in H; discriminate H.
Qed.

Lemma executeStep_budget E body a rc w r w' :
  executeStep E body a rc w = (r, w') ->
  getAccountCount w' <= getAccountCount w /\
  attempts w <= attempts w' <= attempts w + 1 /\
  forall n rc', r = Ok (Recurse n rc') ->
    (rc' = rc /\ attempts w' = attempts w) \/
    (rc' = rc + 1 /\ rc < Z.max (getAccountCount w - 1) 1).
Proof.
  unfold executeStep. intros H.
  pose proof (shrinks_ensureValidToken E a w) as Hshrink.
  pose proof (fetchLog_ensureValidToken E a w) as Hlog.
  apply bind_inv in H as [(v & w1 & Hv & H)|(e & Hv & ->)]; rewrite Hv in Hshrink, Hlog;
    cbn [snd] in Hshrink, Hlog.
  2:{ unfold attempts, getAccountCount. rewrite Hlog. repeat split; try lia.
      intros n rc' Heq. discriminate Heq. }
  assert (Hc1 : getAccountCount w1 <= getAccountCount w) by (unfold getAccountCount; lia).
  assert (Ha1 : attempts w1 = attempts w) by (unfold attempts; by rewrite Hlog).
  destruct v; cbn [negb] in H.
  - apply bind_inv in H as [([model s] & w2 & Hp & H)|(e & Hp & ->)].
    2:{ destruct body; unfold ret, throw in Hp; try discriminate Hp. injection Hp as <- <-.
        repeat split; try lia. intros n rc' Heq. discriminate Heq. }
    assert (w2 = w1) as -> by (destruct body; unfold ret, throw in Hp; congruence).
    rewrite run_get in H. cbn zeta in H.
    match type of H with (if ?c then _ else _) _ = _ => destruct c end.
    { injection H as <- <-. repeat split; try lia. intros n rc' Heq. discriminate Heq. }
    apply bind_inv in H as [(response & w3 & Hf & H)|(e & Hf & ->)].
    + assert (Hf3 : accounts w3 = accounts w1 /\ attempts w3 = attempts w1 + 1).
      { unfold callFetch in Hf. destruct (fetch E _ _); [|discriminate].
        injection Hf as <- <-. unfold attempts. cbn. rewrite length_app. cbn. split; [done|lia]. }
      destruct Hf3 as [Hacc3 Hatt3].
      pose proof (fetchLog_classifyResponse E a response (model, s).1 (model, s).2 rc w3) as Hl.
      pose proof (accounts_classifyResponse E a response (model, s).1 (model, s).2 rc w3) as Hacc.
      rewrite H in Hl, Hacc. cbn [snd] in Hl, Hacc.
      rewrite (count_accounts _ _ Hacc), (count_accounts _ _ Hacc3).
      unfold attempts in *. rewrite Hl.
      repeat split; try lia.
      intros n rc' ->. right.
      apply classifyResponse_budget in H as [-> Hb].
      rewrite (count_accounts _ _ Hacc3) in Hb. split; [done|lia].
    + unfold callFetch in Hf. destruct (fetch E _ _); [discriminate|].
      injection Hf as <- <-. unfold attempts, getAccountCount in *. cbn.
      rewrite length_app. cbn. repeat split; try lia. intros n rc' Heq. discriminate Heq.
  - pose proof (fetchLog_onInvalidToken E a rc w1) as Hl.
    pose proof (accounts_onInvalidToken E a rc w1) as Hacc.
    rewrite H in Hl, Hacc. cbn [snd] in Hl, Hacc.
    rewrite (count_accounts _ _ Hacc). unfold attempts in *. rewrite Hl.
    repeat split; try lia.
    intros n rc' ->. left. split; [|lia].
    by apply onInvalidToken_recurse in H as [-> _].
Qed.

(** Whatever the upstream and the refresh endpoint answer, a request that
    returns has made at most [retryBudget + 1] upstream attempts. *)
Lemma executeRequest_attempts E body fuel : forall a rc w res w',
  executeRequest E fuel body a rc w = Some (res, w') ->
  attempts w' <= attempts w + retryBudget w rc + 1.
Proof.
  induction fuel as [|fuel IH]; intros a rc w res w' H; [discriminate|].
  cbn [executeRequest] in H.
  destruct (executeStep E body a rc w) as [[[reply|n rc']|e] w1] eqn:Hs;
    destruct (executeStep_budget E body a rc w _ _ Hs) as (Hc & Ha & Hr).
  - injection H as <- <-. unfold retryBudget. lia.
  - specialize (IH n rc' w1 res w' H).
    unfold retryBudget in *.
    destruct (Hr n rc' eq_refl) as [[-> Heq]|[-> Hb]]; lia.
  - injection H as <- <-. unfold retryBudget. lia.
Qed.

(** *** Requests whose tokens need no refresh terminate *)

Lemma tokensFresh_expiries w w' :
  expiries w' = expiries w -> tokensFresh w -> tokensFresh w'.
Proof.
  unfold expiries, tokensFresh, deref. intros He Hf r. specialize (Hf r).
  assert (Hl : expires <$> (heap w' !! r) = expires <$> (heap w !! r))
    by (by rewrite <- !list_lookup_fmap, He).
  destruct (heap w' !! r), (heap w !! r); cbn in *; congruence.
Qed.

Lemma expiries_selectAt i r now : preserves expiries (selectAt i r now).
Proof. unfold selectAt. pres_tac. Qed.
#[local] Hint Resolve expiries_selectAt : pres.

Lemma expiries_scanLoop model now start remaining :
  forall attempts, preserves expiries (scanLoop model now start remaining attempts).
Proof. induction remaining as [|n IH]; intros attempts; cbn [scanLoop]; pres_tac. Qed.
#[local] Hint Resolve expiries_scanLoop : pres.

Lemma expiries_getNextAvailableAccount E model :
  preserves expiries (getNextAvailableAccount E model).
Proof.
  unfold getNextAvailableAccount, initializeStrategyState, normalizeIndex,
    getLeastRateLimitedAccount.
  pres_tac.
Qed.
#[local] Hint Resolve expiries_getNextAvailableAccount : pres.

Lemma expiries_noteRateLimit E r response model :
  preserves expiries (noteRateLimit E r response model).
Proof. unfold noteRateLimit, markRateLimited. pres_tac. Qed.
#[local] Hint Resolve expiries_noteRateLimit : pres.

Lemma expiries_markRefreshFailed_401 r :
  preserves expiries (markRefreshFailed r "401 Unauthorized").
Proof.
  unfold markRefreshFailed.
  repeat (apply pres_bind; [pres_tac|intros ?]).
  change (includes "invalid_grant" "401 Unauthorized") with false.
  rewrite andb_false_r. pres_tac.
Qed.
#[local] Hint Resolve expiries_markRefreshFailed_401 : pres.

Lemma expiries_failover a nx rc : preserves expiries (failover a nx rc).
Proof. intros w. by rewrite failover_run. Qed.
#[local] Hint Resolve expiries_failover : pres.

Lemma expiries_classifyResponse E a response model s rc :
  preserves expiries (classifyResponse E a response model s rc).
Proof. unfold classifyResponse, onTooManyRequests, onUnauthorized. pres_tac. Qed.

Lemma executeStep_fresh E body a rc w n rc' w' :
  tokensFresh w ->
  executeStep E body a rc w = (Ok (Recurse n rc'), w') ->
  rc' = rc + 1 /\ rc < Z.max (getAccountCount w - 1) 1 /\
  tokensFresh w' /\ getAccountCount w' = getAccountCount w.
Proof.
  intros Hfresh H. unfold executeStep in H.
  rewrite (run_ok _ _ _ _ _ (ensureValidToken_unset E w a (Hfresh a))) in H.
  cbn [negb] in H.
  apply bind_Ok_inv in H as ([model s] & w2 & Hp & H).
  assert (w2 = w) as -> by (destruct body; unfold ret, throw in Hp; congruence).
  rewrite run_get in H. cbn zeta in H.
  match type of H with (if ?c then _ else _) _ = _ => destruct c end;
    [discriminate H|].
  apply bind_Ok_inv in H as (response & w3 & Hf & H).
  assert (Hf3 : accounts w3 = accounts w /\ expiries w3 = expiries w).
  { unfold callFetch in Hf. destruct (fetch E _ _); [|discriminate].
    by injection Hf as <- <-. }
  destruct Hf3 as [Hacc3 Hexp3].
  pose proof (expiries_classifyResponse E a response (model, s).1 (model, s).2 rc w3) as He.
  pose proof (accounts_classifyResponse E a response (model, s).1 (model, s).2 rc w3) as Hacc.
  rewrite H in He, Hacc. cbn [snd] in He, Hacc.
  apply classifyResponse_budget in H as [-> Hb].
  rewrite (count_accounts _ _ Hacc3) in Hb.
  split; [reflexivity|]. split; [exact Hb|]. split.
  - apply (tokensFresh_expiries w); [congruence|exact Hfresh].
  - rewrite (count_accounts _ _ Hacc). by apply count_accounts.
Qed.

(** With tokens that need no refresh, [executeRequest] returns within
    [retryBudget + 1] activations, whatever the upstream answers. *)
Lemma executeRequest_terminates_fresh E body fuel : forall a rc w,
  tokensFresh w ->
  retryBudget w rc < Z.of_nat fuel ->
  exists res w', executeRequest E fuel body a rc w = Some (res, w').
Proof.
  induction fuel as [|fuel IH]; intros a rc w Hfresh Hfuel.
  { unfold retryBudget in Hfuel. lia. }
  cbn [executeRequest].
  destruct (executeStep E body a rc w) as [[[reply|n rc']|e] w1] eqn:Hs; [eauto| |eauto].
  destruct (executeStep_fresh E body a rc w n rc' w1 Hfresh Hs) as (-> & Hb & Hfresh1 & Hc).
  apply IH; [exact Hfresh1|]. unfold retryBudget in *. rewrite Hc. lia.
Qed.

(** The bounded-retry scenario of the specification: three accounts whose
    tokens need no refresh, an upstream that answers every attempt with
    429. The request makes three attempts, one per account, and returns
    the 429. *)
Example always_429_three_accounts :
  let E := sampleEnv RefreshFailed 429 in
  exists w',
    pluginFetch E 4 (BodyJson (Some "gpt-5.2-codex") false)
      (samplePool Sticky threeAccounts)
    = Some (Ok (ErrorReply (sampleResponse 429)), w') /\
    fetchLog w' = [0; 1; 2]%nat.
Proof. eexists. split; [vm_compute; reflexivity|reflexivity]. Qed.

(** X15. Bounded retries through the plugin's [fetch]: whatever the
    upstream and the refresh endpoint answer, a request that returns has
    made at most [max(poolSize, 2)] upstream attempts -- three on a pool
    of three. *)
Lemma pluginFetch_attempts E body fuel w res w' :
  pluginFetch E fuel body w = Some (res, w') ->
  attempts w' <= attempts w + Z.max (getAccountCount w) 2.
Proof.
  unfold pluginFetch. intros H.
  pose proof (fetchLog_getNextAvailableAccount E (extractModelFromBody body) w) as Hl.
  pose proof (accounts_getNextAvailableAccount E (extractModelFromBody body) w) as Ha.
  destruct (getNextAvailableAccount E (extractModelFromBody body) w)
    as [[[account|]|e] w1]; cbn [snd] in Hl, Ha.
  - apply executeRequest_attempts in H.
    unfold retryBudget, attempts in *. rewrite (count_accounts _ _ Ha), Hl in H. lia.
  - injection H as <- <-. unfold attempts. rewrite Hl.
    pose proof (getAccountCount_nonneg w). lia.
  - injection H as <- <-. unfold attempts. rewrite Hl.
    pose proof (getAccountCount_nonneg w). lia.
Qed.

(** X16. With tokens that need no refresh the request does return:
    [max(poolSize, 2)] activations of [executeRequest] are enough,
    whatever the upstream answers. *)
Lemma pluginFetch_returns_fresh E body w :
  tokensFresh w ->
  exists res w',
    pluginFetch E (Z.to_nat (Z.max (getAccountCount w) 2)) body w = Some (res, w').
Proof.
  intros Hfresh. unfold pluginFetch.
  pose proof (expiries_getNextAvailableAccount E (extractModelFromBody body) w) as He.
  pose proof (accounts_getNextAvailableAccount E (extractModelFromBody body) w) as Ha.
  destruct (getNextAvailableAccount E (extractModelFromBody body) w)
    as [[[account|]|e] w1]; cbn [snd] in He, Ha; [|eauto..].
  apply executeRequest_terminates_fresh.
  - by apply (tokensFresh_expiries w).
  - unfold retryBudget. rewrite (count_accounts _ _ Ha). lia.
Qed.

(** An upstream that always answers 429, a pool of three: the request
    returns after three attempts. *)
Lemma pluginFetch_attempts_witness :
  let E := sampleEnv RefreshFailed 429 in
  let w := samplePool Sticky threeAccounts in
  match pluginFetch E 4 (BodyJson (Some "gpt-5.2-codex") false) w with
  | Some (_, w') => attempts w' <= attempts w + 3
  | None => False
  end.
Proof.
  intros E w.
  destruct (pluginFetch E 4 (BodyJson (Some "gpt-5.2-codex") false) w)
    as [[res w']|] eqn:H.
  - exact (pluginFetch_attempts E _ 4 w res w' H).
  - vm_compute in H. discriminate H.
Defined.

(** The same pool: three activations are enough for the request to
    return. *)
Lemma pluginFetch_returns_fresh_witness :
  let E := sampleEnv RefreshFailed 429 in
  let w := samplePool Sticky threeAccounts in
  exists res w',
    pluginFetch E 3 (BodyJson (Some "gpt-5.2-codex") false) w = Some (res, w').
Proof.
  intros E w.
  assert (Hfresh : tokensFresh w) by (intros [|[|[|r]]]; reflexivity).
  exact (pluginFetch_returns_fresh E (BodyJson (Some "gpt-5.2-codex") false) w Hfresh).
Defined.

(** *** A request that never returns *)

(** An account without failures and without rate-limit entries is
    available for every model. *)
Lemma isAccountAvailable_unlimited c a model now :
  consecutiveFailures a = 0 -> globalRateLimitReset a = None ->
  rateLimitResets a = ∅ ->
  isAccountAvailable c a model now = true.
Proof.
  intros Hf Hg Hr. unfold isAccountAvailable. rewrite Hf, Hg, Hr, lookup_empty.
  cbn. by destruct (truthyS model && perModelRateLimits c).
Qed.

Section Forever.

Variable E : Env.
Hypothesis clock_nonneg : forall k, 0 <= dateNow E k.

Lemma stuck_token_invalid r t active cursor used0 used1 :
  (r < 2)%nat ->
  ensureValidToken E r (stuckWorld t active cursor used0 used1) =
  (Ok false, stuckWorld (S t) active cursor used0 used1).
Proof.
  intros Hr.
  assert (Hn : needsRefresh (config (stuckWorld t active cursor used0 used1))
                 (deref (stuckWorld t active cursor used0 used1) r)
                 (dateNow E (tick (stuckWorld t active cursor used0 used1)))).
  { exists 1. pose proof (clock_nonneg t).
    destruct r as [|[|r]]; [| |lia]; (split; [reflexivity|]); cbn; lia. }
  rewrite (ensureValidToken_in_flight E _ r Hn).
  - destruct r as [|[|r]]; [reflexivity..|lia].
  - destruct r as [|[|r]]; [reflexivity..|lia].
Qed.

Lemma stuck_step_first body rc t active used0 used1 :
  executeStep E body 0%nat rc (stuckWorld t active 1 used0 used1) =
  (Ok (Recurse 1%nat rc),
   stuckWorld (S (S t)) 1 0 used0 (Some (dateNow E (S t)))).
Proof.
  unfold executeStep.
  rewrite (run_ok _ _ _ _ _ (stuck_token_invalid 0%nat t active 1 used0 used1 ltac:(lia))).
  reflexivity.
Qed.

Lemma stuck_step_second body rc t active used0 used1 :
  executeStep E body 1%nat rc (stuckWorld t active 0 used0 used1) =
  (Ok (Recurse 0%nat rc),
   stuckWorld (S (S t)) 0 1 (Some (dateNow E (S t))) used1).
Proof.
  unfold executeStep.
  rewrite (run_ok _ _ _ _ _ (stuck_token_invalid 1%nat t active 0 used0 used1 ltac:(lia))).
  reflexivity.
Qed.

Lemma stuck_executeRequest body fuel : forall rc t active used0 used1,
  executeRequest E fuel body 0%nat rc (stuckWorld t active 1 used0 used1) = None /\
  executeRequest E fuel body 1%nat rc (stuckWorld t active 0 used0 used1) = None.
Proof.
  induction fuel as [|fuel IH]; intros rc t active used0 used1; [by split|].
  cbn [executeRequest]. rewrite stuck_step_first, stuck_step_second.
  split; apply IH.
Qed.

End Forever.

(** C1, at the input where it fails. Two accounts under round-robin, each
    with an expired token, the refresh flag set and no access token (the
    accounts file stores the flag, so a process that ends during a refresh
    leaves it behind). For each of them [ensureValidToken] returns false
    without a refresh and without raising [consecutiveFailures];
    reselection returns the other account; the retry count stays as it
    is. The request alternates between the two and no amount of fuel lets
    it return, although not a single upstream attempt is made. *)
Theorem stuck_refresh_never_returns (E : Env) (body : RequestBody) (fuel : nat) :
  (forall k, 0 <= dateNow E k) ->
  pluginFetch E fuel body stuckPool = None.
Proof.
  intros Hclock. unfold pluginFetch.
  assert (Hfirst : getNextAvailableAccount E (extractModelFromBody body) stuckPool =
                   (Ok (Some 0%nat), stuckWorld 1 0 1 (Some (dateNow E 0%nat)) None)).
  { lazy -[isAccountAvailable dateNow extractModelFromBody].
    rewrite isAccountAvailable_unlimited by reflexivity. reflexivity. }
  rewrite Hfirst. apply (stuck_executeRequest E Hclock).
Qed.

(** The same with a clock that starts in 2023 and a thousand activations. *)
Lemma stuck_refresh_never_returns_witness :
  pluginFetch (sampleEnv RefreshFailed 200) 1000 NoBody stuckPool = None.
Proof.
  apply stuck_refresh_never_returns. intros k. cbn. lia.
Defined.

(** ** Further properties of the account store *)

(** *** The accounts file *)

Lemma map_lookup_seq {A} (d : A) (l : list A) :
  map (fun r => default d (l !! r)) (seq 0 (length l)) = l.
Proof.
  apply list_eq. intros i. change (map ?f ?x) with (f <$> x).
  rewrite list_lookup_fmap.
  destruct (l !! i) as [a|] eqn:Hi.
  - rewrite (lookup_seq_lt 0 (length l) i) by (by eapply lookup_lt_Some).
    cbn. by rewrite Hi.
  - rewrite lookup_seq_ge by (by apply lookup_ge_None). reflexivity.
Qed.

Lemma poolOk_installAccounts l w :
  poolOk (installAccounts l w).
Proof.
  unfold poolOk, installAccounts. cbn. split; [apply NoDup_seq|].
  apply Forall_forall. intros r Hr. apply elem_of_seq in Hr.
  unfold valid. cbn. rewrite length_app. lia.
Qed.

(** X1. What [saveToDisk] writes, a new manager reads back with
    [loadFromDisk]: the same account records in the same order and the
    same [activeIndex], in a pool of distinct objects. The round-robin
    cursor and the strategy flag are not stored: the new manager starts
    with the cursor at 0 and the strategy state to be initialised. *)
Theorem saveToDisk_loadFromDisk_round_trip (c : MultiAccountConfig) (w : World) :
  let w' := startSession c (disk (snd (saveToDisk w))) in
  fst (loadFromDisk (newManager c (disk (snd (saveToDisk w))))) = Ok tt /\
  poolRecords w' = poolRecords w /\
  activeIndex w' = activeIndex w /\
  roundRobinCursor w' = 0 /\
  strategyInitialized w' = false /\
  poolOk w'.
Proof.
  cbn zeta. unfold startSession. rewrite loadFromDisk_run. cbn [fst snd].
  split; [reflexivity|].
  change (disk (newManager c (disk (snd (saveToDisk w)))))
    with (FileJson (JObject (Some 1) (Some (map (deref w) (accounts w)))
                            (Some (activeIndex w)))).
  cbn iota. repeat split.
  - unfold poolRecords, installAccounts, deref, newManager. cbn.
    apply map_lookup_seq.
  - exact (proj1 (poolOk_installAccounts (map (deref w) (accounts w))
                    (newManager c (disk (snd (saveToDisk w)))))).
  - exact (proj2 (poolOk_installAccounts (map (deref w) (accounts w))
                    (newManager c (disk (snd (saveToDisk w)))))).
Qed.

(** *** The strategy state *)

(** The state [initializeStrategyState] leaves on a non-empty pool that is
    not initialised yet. *)
Lemma initializeStrategyState_run E w :
  strategyInitialized w = false -> accounts w <> [] ->
  let n := getAccountCount w in
  let i0 := if (activeIndex w <? 0) || (activeIndex w >=? n) then 0 else activeIndex w in
  let hybrid := isHybrid (config w) && (n >? 1) in
  let i1 := if hybrid then jsRem (i0 + 1) n else i0 in
  let i2 := if pidOffsetEnabled (config w) && (n >? 1)
            then jsRem (i1 + jsRem (Z.abs (pid E)) n) n else i1 in
  initializeStrategyState E w =
  (Ok tt,
   mkWorld (heap w) (accounts w) i2 i2 true (config w)
     (if hybrid
      then FileJson (JObject (Some 1) (Some (poolRecords w)) (Some i1))
      else disk w)
     (tick w) (refreshLog w) (fetchLog w)).
Proof.
  intros Hi Hne. cbn zeta.
  assert (Hz : (getAccountCount w =? 0) = false).
  { apply Z.eqb_neq. pose proof (count_pos w Hne). lia. }
  unfold initializeStrategyState, normalizeIndex.
  rewrite run_get, Hi, Hz, run_bind, run_get, Hz.
  destruct ((activeIndex w <? 0) || (activeIndex w >=? getAccountCount w));
    destruct (isHybrid (config w) && (getAccountCount w >? 1));
    destruct (pidOffsetEnabled (config w) && (getAccountCount w >? 1));
    reflexivity.
Qed.

Lemma initializeStrategyState_done E w :
  strategyInitialized w = true -> initializeStrategyState E w = (Ok tt, w).
Proof. intros Hi. unfold initializeStrategyState. by rewrite run_get, Hi. Qed.

Lemma initializeStrategyState_empty E w :
  strategyInitialized w = false -> accounts w = [] ->
  initializeStrategyState E w =
  (Ok tt, set_strategyInitialized true (set_roundRobinCursor 0 (set_activeIndex 0 w))).
Proof.
  intros Hi He. unfold initializeStrategyState, getAccountCount.
  rewrite run_get, Hi, He. reflexivity.
Qed.

(** X2. Whatever [activeIndex] the manager starts with (the accounts file may
    hold any number), [initializeStrategyState] leaves [activeIndex] and
    the round-robin cursor on one and the same position of the pool (0 for
    an empty pool), touches neither the pool nor the account objects, and
    is idempotent: a second call changes nothing. *)
Theorem initializeStrategyState_normalises (E : Env) (w : World) :
  strategyInitialized w = false ->
  let w1 := snd (initializeStrategyState E w) in
  fst (initializeStrategyState E w) = Ok tt /\
  strategyInitialized w1 = true /\
  roundRobinCursor w1 = activeIndex w1 /\
  (accounts w = [] -> activeIndex w1 = 0) /\
  (accounts w <> [] -> 0 <= activeIndex w1 < getAccountCount w) /\
  accounts w1 = accounts w /\ heap w1 = heap w /\
  initializeStrategyState E w1 = (Ok tt, w1).
Proof.
  intros Hi. cbn zeta. destruct (decide (accounts w = [])) as [He|Hne].
  - rewrite (initializeStrategyState_empty E w Hi He). cbn [fst snd].
    repeat split; try done.
  - rewrite (initializeStrategyState_run E w Hi Hne). cbn [fst snd].
    pose proof (count_pos w Hne) as Hn.
    set (n := getAccountCount w) in *.
    set (i0 := if (activeIndex w <? 0) || (activeIndex w >=? n) then 0 else activeIndex w).
    assert (Hi0 : 0 <= i0 < n).
    { unfold i0. destruct (activeIndex w <? 0) eqn:H1; cbn [orb]; [lia|].
      destruct (activeIndex w >=? n) eqn:H2; [lia|].
      apply Z.ltb_ge in H1. rewrite Z.geb_leb in H2. apply Z.leb_gt in H2. lia. }
    set (i1 := if isHybrid (config w) && (n >? 1) then jsRem (i0 + 1) n else i0).
    assert (Hi1 : 0 <= i1 < n).
    { unfold i1. destruct (isHybrid (config w) && (n >? 1));
        [apply rem_in_range; lia|exact Hi0]. }
    set (i2 := if pidOffsetEnabled (config w) && (n >? 1)
               then jsRem (i1 + jsRem (Z.abs (pid E)) n) n else i1).
    assert (Hi2 : 0 <= i2 < n).
    { unfold i2. destruct (pidOffsetEnabled (config w) && (n >? 1)); [|exact Hi1].
      pose proof (rem_in_range (Z.abs (pid E)) n ltac:(lia) Hn).
      apply rem_in_range; lia. }
    repeat split; try done; cbn [activeIndex]; lia.
Qed.

(** Three accounts and an [activeIndex] of 7 read from the file: the
    selection starts inside the pool. *)
Lemma initializeStrategyState_normalises_witness :
  let w := set_activeIndex 7 (samplePool Sticky threeAccounts) in
  0 <= activeIndex (snd (initializeStrategyState (sampleEnv RefreshFailed 200) w)) < 3.
Proof.
  intros w.
  destruct (initializeStrategyState_normalises (sampleEnv RefreshFailed 200) w eq_refl)
    as (_ & _ & _ & _ & Hrange & _).
  apply Hrange. discriminate.
Defined.

(** *** Successive selections *)

Lemma selectAt_run i r now w :
  selectAt i r now w =
  (Ok tt,
   set_heap (alter (set_lastUsed (Some now)) r (heap w))
     (if isRoundRobin (config w)
      then set_roundRobinCursor (jsRem (i + 1) (getAccountCount w)) (set_activeIndex i w)
      else set_activeIndex i w)).
Proof.
  unfold selectAt. rewrite run_modify, run_get. cbn [config set_activeIndex].
  destruct (isRoundRobin (config w)); reflexivity.
Qed.

(** When the account the scan starts at is available, it is the one
    returned. *)
Lemma getNextAvailableAccount_first E model w r :
  accounts w <> [] -> cursorOk w ->
  let w1 := snd (initializeStrategyState E w) in
  let now := dateNow E (tick w1) in
  scanned w1 0 = Some r ->
  isAccountAvailable (config w) (deref w r) model now = true ->
  getNextAvailableAccount E model w =
  (Ok (Some r),
   snd (selectAt (jsRem (startIndexOf w1) (getAccountCount w)) r now
          (set_tick (S (tick w1)) w1))).
Proof.
  intros Hne Hc w1 now Hat Hav.
  destruct (getNextAvailableAccount_run E model w Hne Hc)
    as [(k & r' & Hk & Hat' & Hav' & Hmin & ->)|(Hnone & _)].
  - fold w1 in Hat', Hmin. fold now in Hav', Hmin.
    destruct (decide (k = 0)) as [->|Hk0].
    + rewrite Z.add_0_r. fold w1 now. congruence.
    + rewrite (Hmin 0 r ltac:(lia) Hat) in Hav. discriminate.
  - exfalso. apply arrayGet_elem in Hat.
    destruct (initializeStrategyState_facts E w Hne Hc) as (_ & _ & Hacc & _).
    fold w1 in Hacc. rewrite Hacc in Hat. fold w1 now in Hnone.
    rewrite (Hnone r Hat) in Hav. discriminate.
Qed.

(** A call initialises the strategy state first, so it may as well start
    from the initialised state. *)
Lemma getNextAvailableAccount_init E model w :
  accounts w <> [] ->
  getNextAvailableAccount E model w =
  getNextAvailableAccount E model (snd (initializeStrategyState E w)).
Proof.
  intros Hne.
  assert (Hdone : initializeStrategyState E (snd (initializeStrategyState E w)) =
                  (Ok tt, snd (initializeStrategyState E w)) /\
                  accounts (snd (initializeStrategyState E w)) = accounts w).
  { destruct (strategyInitialized w) eqn:Hi.
    - rewrite (initializeStrategyState_done E w Hi). cbn [snd].
      split; [by apply initializeStrategyState_done|reflexivity].
    - rewrite (initializeStrategyState_run E w Hi Hne). cbn [snd].
      split; [by apply initializeStrategyState_done|reflexivity]. }
  destruct Hdone as [Hdone Hacc].
  unfold getNextAvailableAccount. rewrite !run_get.
  rewrite (count_accounts _ _ Hacc).
  assert (Hz : (getAccountCount w =? 0) = false).
  { apply Z.eqb_neq. pose proof (count_pos w Hne). lia. }
  rewrite Hz.
  rewrite !(run_unit _ _ _ (total_initializeStrategyState E)).
  by rewrite Hdone.
Qed.

Lemma jsRem_mod a n : 0 <= a -> 0 < n -> jsRem a n = a mod n.
Proof. intros Ha Hn. unfold jsRem. apply Z.rem_mod_nonneg; lia. Qed.

Lemma step_position (rr : bool) s n j :
  0 <= s -> 0 < n -> 0 <= j ->
  jsRem ((if rr then jsRem (jsRem s n + 1) n else jsRem s n) + (if rr then j else 0)) n =
  jsRem (s + (if rr then j + 1 else 0)) n.
Proof.
  intros Hs Hn Hj.
  pose proof (Z.mod_pos_bound s n Hn) as Hb.
  pose proof (Z.mod_pos_bound (s mod n + 1) n Hn) as Hb'.
  destruct rr.
  - rewrite (jsRem_mod s n Hs Hn), (jsRem_mod (s mod n + 1) n) by lia.
    rewrite !jsRem_mod by lia.
    rewrite Z.add_mod_idemp_l by lia.
    rewrite <- Z.add_assoc, Z.add_mod_idemp_l by lia.
    f_equal. lia.
  - rewrite !Z.add_0_r. rewrite (jsRem_mod s n Hs Hn), jsRem_mod by lia.
    apply Z.mod_mod. lia.
Qed.

Lemma alwaysAvailable_lastUsed c a model v :
  alwaysAvailable c a model -> alwaysAvailable c (set_lastUsed v a) model.
Proof.
  intros H now. rewrite <- (H now). by apply isAccountAvailable_fields.
Qed.

(** From an initialised state, the [j]-th of [k] calls returns the account
    at the start position, moved on by [j] under round-robin. *)
Lemma picks_spec E model : forall k w,
  accounts w <> [] -> strategyInitialized w = true -> 0 <= startIndexOf w ->
  (forall r, r ∈ accounts w -> alwaysAvailable (config w) (deref w r) model) ->
  fst (picks E model k w) =
  Ok (map (fun j => arrayGet (accounts w)
             (jsRem (startIndexOf w + (if isRoundRobin (config w) then Z.of_nat j else 0))
                    (getAccountCount w)))
          (seq 0 k)).
Proof.
  induction k as [|k IH]; intros w Hne Hi Hs Hall; [reflexivity|].
  pose proof (count_pos w Hne) as Hn.
  assert (Hc : cursorOk w) by (intros _; exact Hs).
  pose proof (initializeStrategyState_done E w Hi) as Hdone.
  destruct (scan_position (startIndexOf w) w Hs Hne 0 ltac:(lia)) as (r & Hr).
  assert (Hin : r ∈ accounts w) by (by apply arrayGet_elem in Hr).
  pose proof (getNextAvailableAccount_first E model w r Hne Hc) as Hfirst.
  cbn zeta in Hfirst. rewrite Hdone in Hfirst. cbn [snd] in Hfirst.
  specialize (Hfirst Hr (Hall r Hin _)).
  rewrite selectAt_run in Hfirst. cbn [snd config set_tick heap] in Hfirst.
  change (getAccountCount (set_tick (S (tick w)) w)) with (getAccountCount w) in Hfirst.
  cbn [picks]. rewrite (run_ok _ _ _ _ _ Hfirst).
  set (i := jsRem (startIndexOf w) (getAccountCount w)) in *.
  set (now := dateNow E (tick w)) in *.
  set (w' := set_heap _ _).
  assert (Hacc : accounts w' = accounts w).
  { unfold w'. by destruct (isRoundRobin (config w)). }
  assert (Hcfg : config w' = config w).
  { unfold w'. by destruct (isRoundRobin (config w)). }
  assert (Hini : strategyInitialized w' = true).
  { unfold w'. by destruct (isRoundRobin (config w)). }
  assert (Hstart : startIndexOf w' =
                   if isRoundRobin (config w) then jsRem (i + 1) (getAccountCount w) else i).
  { unfold startIndexOf. rewrite Hcfg. unfold w'.
    by destruct (isRoundRobin (config w)). }
  assert (Hi_range : 0 <= i < getAccountCount w) by (apply rem_in_range; lia).
  assert (Hs' : 0 <= startIndexOf w').
  { rewrite Hstart. destruct (isRoundRobin (config w)); [|lia].
    apply rem_in_range; lia. }
  assert (Hall' : forall x, x ∈ accounts w' ->
            alwaysAvailable (config w') (deref w' x) model).
  { intros x Hx. rewrite Hacc in Hx. rewrite Hcfg.
    assert (Hh : heap w' = alter (set_lastUsed (Some now)) r (heap w)).
    { unfold w'. by destruct (isRoundRobin (config w)). }
    destruct (decide (r = x)) as [->|Hne'].
    - unfold deref. rewrite Hh, list_lookup_alter_eq.
      specialize (Hall x Hx). unfold deref in Hall.
      destruct (heap w !! x); cbn; [by apply alwaysAvailable_lastUsed|exact Hall].
    - rewrite (deref_alter_ne w w' _ r x Hh Hne'). by apply Hall. }
  assert (Hne' : accounts w' <> []) by (by rewrite Hacc).
  clearbody w'.
  specialize (IH w' Hne' Hini Hs' Hall').
  unfold bind at 1. destruct (picks E model k w') as [[rest|e] w''] eqn:Hp;
    cbn [fst] in IH; [|discriminate].
  injection IH as ->. cbn [ret fst seq map].
  rewrite <- seq_shift, map_map. f_equal. f_equal.
  - rewrite <- Hr. f_equal. f_equal. destruct (isRoundRobin (config w)); reflexivity.
  - apply map_ext. intros j. rewrite Hacc, Hcfg, (count_accounts _ _ Hacc), Hstart.
    f_equal. unfold i.
    pose proof (step_position (isRoundRobin (config w)) (startIndexOf w)
                  (getAccountCount w) (Z.of_nat j) Hs Hn ltac:(lia)) as Hstep.
    destruct (isRoundRobin (config w)); rewrite Hstep; f_equal; lia.
Qed.

(** Calls on a non-empty pool may as well start from the initialised
    state. *)
Lemma picks_init E model k w :
  accounts w <> [] ->
  fst (picks E model k w) = fst (picks E model k (snd (initializeStrategyState E w))).
Proof.
  intros Hne. destruct k as [|k]; [reflexivity|].
  cbn [picks]. unfold bind at 1 3.
  by rewrite <- (getNextAvailableAccount_init E model w Hne).
Qed.

Lemma picks_positions E model k w :
  accounts w <> [] -> cursorOk w ->
  (forall r, r ∈ accounts w -> alwaysAvailable (config w) (deref w r) model) ->
  let w1 := snd (initializeStrategyState E w) in
  fst (picks E model k w) =
  Ok (map (fun j => arrayGet (accounts w)
             (jsRem (startIndexOf w1 + (if isRoundRobin (config w) then Z.of_nat j else 0))
                    (getAccountCount w)))
          (seq 0 k)).
Proof.
  intros Hne Hc Hall w1.
  destruct (initializeStrategyState_facts E w Hne Hc)
    as (_ & Hheap & Hacc & Hcfg & _ & _ & _ & Hini & Hstart).
  fold w1 in Hheap, Hacc, Hcfg, Hini, Hstart.
  rewrite (picks_init E model k w Hne). fold w1.
  rewrite (picks_spec E model k w1).
  - by rewrite Hacc, Hcfg, (count_accounts _ _ Hacc).
  - by rewrite Hacc.
  - exact Hini.
  - exact Hstart.
  - intros r Hr. rewrite Hacc in Hr. rewrite Hcfg, (deref_same_heap _ _ _ Hheap).
    by apply Hall.
Qed.

Lemma map_const_seq {A} (x : A) k : forall a, map (fun _ => x) (seq a k) = replicate k x.
Proof. induction k as [|k IH]; intros a; cbn; [done|]. by rewrite IH. Qed.

(** X3. Round-robin, as the strategy tests have it. In a pool whose accounts
    all pass the availability test, successive calls of
    [getNextAvailableAccount] walk through the pool in order, wrapping at
    the end: the [j]-th call (from 0) returns the account at position
    [(c + j) mod poolSize], with [c] the cursor the first call starts
    from. *)
Theorem round_robin_rotates (E : Env) (model : option string) (w : World) (k : nat) :
  accounts w <> [] -> cursorOk w -> isRoundRobin (config w) = true ->
  (forall r, r ∈ accounts w -> alwaysAvailable (config w) (deref w r) model) ->
  let c := roundRobinCursor (snd (initializeStrategyState E w)) in
  exists l,
    fst (picks E model k w) = Ok l /\ length l = k /\
    forall j, (j < k)%nat ->
      exists r,
        accounts w !! Z.to_nat ((c + Z.of_nat j) mod getAccountCount w) = Some r /\
        l !! j = Some (Some r).
Proof.
  intros Hne Hc Hrr Hall c.
  pose proof (picks_positions E model k w Hne Hc Hall) as Hp. cbn zeta in Hp.
  destruct (initializeStrategyState_facts E w Hne Hc)
    as (_ & _ & _ & Hcfg & _ & _ & _ & _ & Hstart).
  unfold startIndexOf in Hp, Hstart. rewrite Hcfg, Hrr in Hp, Hstart. fold c in Hp, Hstart.
  pose proof (count_pos w Hne) as Hn.
  eexists. split; [exact Hp|]. split; [by rewrite length_map, length_seq|].
  intros j Hj.
  destruct (arrayGet_in_range (accounts w) (jsRem (c + Z.of_nat j) (getAccountCount w)))
    as (r & Hget & Hlook).
  { change (Z.of_nat (length (accounts w))) with (getAccountCount w).
    apply rem_in_range; lia. }
  exists r. rewrite jsRem_mod in Hlook by lia. split; [exact Hlook|].
  change (map ?f ?x) with (f <$> x). rewrite list_lookup_fmap.
  rewrite (lookup_seq_lt 0 k j Hj). cbn. by rewrite Hget.
Qed.

(** Three accounts under round-robin: the fourth call is back at the
    first account. *)
Lemma round_robin_rotates_witness :
  let w := samplePool RoundRobin threeAccounts in
  exists l,
    fst (picks (sampleEnv RefreshFailed 200) None 4 w) = Ok l /\
    l !! 3%nat = Some (Some 0%nat).
Proof.
  intros w.
  assert (Hall : forall r, r ∈ accounts w -> alwaysAvailable (config w) (deref w r) None).
  { intros r Hr now. apply isAccountAvailable_unlimited;
      repeat (apply elem_of_cons in Hr as [->|Hr]; [reflexivity|]);
      by apply elem_of_nil in Hr. }
  destruct (round_robin_rotates (sampleEnv RefreshFailed 200) None w 4
              ltac:(discriminate) ltac:(intros Hi; discriminate Hi) eq_refl Hall)
    as (l & Hl & _ & Hpos).
  exists l. split; [exact Hl|].
  destruct (Hpos 3%nat ltac:(lia)) as (r & Hr & Hj).
  vm_compute in Hr. injection Hr as <-. exact Hj.
Defined.

(** X4. Sticky and hybrid selection. In a pool whose accounts all pass the
    availability test, every call of [getNextAvailableAccount] returns the
    same account, the one at the active position. *)
Theorem sticky_selection_stays (E : Env) (model : option string) (w : World) (k : nat) :
  accounts w <> [] -> cursorOk w -> isRoundRobin (config w) = false ->
  (forall r, r ∈ accounts w -> alwaysAvailable (config w) (deref w r) model) ->
  let a := activeIndex (snd (initializeStrategyState E w)) in
  exists r,
    accounts w !! Z.to_nat (a mod getAccountCount w) = Some r /\
    fst (picks E model k w) = Ok (replicate k (Some r)).
Proof.
  intros Hne Hc Hrr Hall a.
  pose proof (picks_positions E model k w Hne Hc Hall) as Hp. cbn zeta in Hp.
  destruct (initializeStrategyState_facts E w Hne Hc)
    as (_ & _ & _ & Hcfg & _ & _ & _ & _ & Hstart).
  unfold startIndexOf in Hp, Hstart. rewrite Hcfg, Hrr in Hp, Hstart. fold a in Hp, Hstart.
  pose proof (count_pos w Hne) as Hn.
  destruct (arrayGet_in_range (accounts w) (jsRem (a + 0) (getAccountCount w)))
    as (r & Hget & Hlook).
  { change (Z.of_nat (length (accounts w))) with (getAccountCount w).
    apply rem_in_range; lia. }
  exists r. rewrite Z.add_0_r, jsRem_mod in Hlook by lia. split; [exact Hlook|].
  rewrite Hp, map_const_seq. by rewrite Hget.
Qed.

(** Two accounts in sticky mode: three calls, three times the first. *)
Lemma sticky_selection_stays_witness :
  let w := samplePool Sticky [sampleAccount 0 "rt-1"; sampleAccount 1 "rt-2"] in
  fst (picks (sampleEnv RefreshFailed 200) None 3 w)
  = Ok [Some 0%nat; Some 0%nat; Some 0%nat].
Proof.
  intros w.
  assert (Hall : forall r, r ∈ accounts w -> alwaysAvailable (config w) (deref w r) None).
  { intros r Hr now. apply isAccountAvailable_unlimited;
      repeat (apply elem_of_cons in Hr as [->|Hr]; [reflexivity|]);
      by apply elem_of_nil in Hr. }
  destruct (sticky_selection_stays (sampleEnv RefreshFailed 200) None w 3
              ltac:(discriminate) ltac:(intros Hi; discriminate Hi) eq_refl Hall)
    as (r & Hr & Hp).
  vm_compute in Hr. injection Hr as <-. exact Hp.
Defined.

(** *** Hybrid selection across processes *)

Lemma startSession_run c l act :
  startSession c (FileJson (JObject (Some 1) (Some l) act)) =
  mkWorld l (seq 0 (length l)) (orZero act) 0 false c
          (FileJson (JObject (Some 1) (Some l) act)) 0 [] [].
Proof.
  unfold startSession. rewrite loadFromDisk_run. reflexivity.
Qed.

(** The first selection of a hybrid process that starts on a file with
    more than one account, all of them available. *)
Lemma session_first_pick E c l act model :
  isHybrid c = true -> pidOffsetEnabled c = false -> (1 < length l)%nat ->
  (forall a, a ∈ l -> alwaysAvailable c a model) ->
  let n := Z.of_nat (length l) in
  let i0 := if (orZero act <? 0) || (orZero act >=? n) then 0 else orZero act in
  let first :=
    getNextAvailableAccount E model
      (startSession c (FileJson (JObject (Some 1) (Some l) act))) in
  exists r,
    fst first = Ok (Some r) /\
    activeIndex (snd first) = (i0 + 1) mod n /\
    disk (snd first) = FileJson (JObject (Some 1) (Some l) (Some ((i0 + 1) mod n))) /\
    accounts (snd first) !! Z.to_nat ((i0 + 1) mod n) = Some r.
Proof.
  intros Hh Hpid Hlen Hall n i0. cbn zeta. rewrite startSession_run.
  set (s := mkWorld l _ _ _ _ _ _ _ _ _).
  assert (Hne : accounts s <> []).
  { unfold s. cbn. destruct l; cbn in *; [lia|discriminate]. }
  assert (Hc : cursorOk s) by (intros Hi; discriminate Hi).
  assert (Hcount : getAccountCount s = n).
  { unfold getAccountCount, s. cbn. by rewrite length_seq. }
  assert (Hrec : poolRecords s = l).
  { unfold poolRecords, s, deref. cbn. apply map_lookup_seq. }
  assert (Hi0 : 0 <= i0 < n).
  { unfold i0. destruct (orZero act <? 0) eqn:H1; cbn [orb]; [lia|].
    destruct (orZero act >=? n) eqn:H2; [lia|].
    apply Z.ltb_ge in H1. rewrite Z.geb_leb in H2. apply Z.leb_gt in H2. lia. }
  assert (Hgt : (n >? 1) = true) by (rewrite Z.gtb_ltb; apply Z.ltb_lt; lia).
  pose proof (initializeStrategyState_run E s eq_refl Hne) as Hinit.
  cbn zeta in Hinit. rewrite Hcount, Hrec in Hinit.
  change (config s) with c in Hinit. change (activeIndex s) with (orZero act) in Hinit.
  rewrite Hh, Hpid, Hgt in Hinit. cbn [andb] in Hinit. fold i0 in Hinit.
  cbn [heap accounts disk tick refreshLog fetchLog s] in Hinit.
  assert (Hi1 : jsRem (i0 + 1) n = (i0 + 1) mod n) by (apply jsRem_mod; lia).
  rewrite Hi1 in Hinit.
  pose proof (Z.mod_pos_bound (i0 + 1) n ltac:(lia)) as Hb.
  set (i1 := (i0 + 1) mod n) in *.
  destruct (arrayGet_in_range (accounts s) i1) as (r & Hget & Hlook).
  { unfold s. cbn. rewrite length_seq. fold n. lia. }
  pose proof (getNextAvailableAccount_first E model s r Hne Hc) as Hfirst.
  cbn zeta in Hfirst. rewrite Hinit in Hfirst. cbn [snd] in Hfirst.
  assert (Hsmall : jsRem i1 n = i1) by (rewrite jsRem_mod by lia; apply Z.mod_small; lia).
  rewrite Hcount in Hfirst.
  assert (Hscan : scanned (mkWorld l (seq 0 (length l)) i1 i1 true c
                    (FileJson (JObject (Some 1) (Some l) (Some i1))) 0 [] []) 0 = Some r).
  { unfold scanned, startIndexOf. cbn [config roundRobinCursor activeIndex accounts].
    replace (if isRoundRobin c then i1 else i1) with i1 by (by destruct (isRoundRobin c)).
    unfold getAccountCount. cbn [accounts]. rewrite length_seq. fold n.
    rewrite Z.add_0_r, Hsmall. exact Hget. }
  assert (Hav : isAccountAvailable (config s) (deref s r) model
                  (dateNow E 0%nat) = true).
  { apply Hall. apply arrayGet_elem in Hget. unfold s in Hget. cbn in Hget.
    apply elem_of_seq in Hget. unfold deref, s. cbn.
    destruct (lookup_lt_is_Some_2 l r ltac:(lia)) as [a Ha]. rewrite Ha. cbn.
    apply list_elem_of_lookup. eauto. }
  specialize (Hfirst Hscan Hav). rewrite Hfirst, selectAt_run. cbn [fst snd].
  exists r. split; [reflexivity|].
  unfold startIndexOf. cbn [config roundRobinCursor activeIndex set_tick].
  replace (if isRoundRobin c then i1 else i1) with i1 by (by destruct (isRoundRobin c)).
  rewrite Hsmall.
  destruct (isRoundRobin c); cbn; repeat split; exact Hlook.
Qed.

(** X5. Hybrid selection, as the strategy test has it. Two processes start one
    after the other on the same accounts file, which holds more than one
    account, all of them available; the second starts on the file as the
    first left it. Each of them selects the account at its [activeIndex],
    and the second one's is the next position after the first one's, so
    the two work with different accounts. (The offset by process id is
    off.) *)
Theorem hybrid_rotates_across_sessions (E1 E2 : Env) (c : MultiAccountConfig)
    (l : list ManagedAccount) (act : option Z) (model : option string) :
  isHybrid c = true -> pidOffsetEnabled c = false -> (1 < length l)%nat ->
  (forall a, a ∈ l -> alwaysAvailable c a model) ->
  let file := FileJson (JObject (Some 1) (Some l) act) in
  let first := getNextAvailableAccount E1 model (startSession c file) in
  let second := getNextAvailableAccount E2 model (startSession c (disk (snd first))) in
  exists r1 r2,
    fst first = Ok (Some r1) /\ fst second = Ok (Some r2) /\
    accounts (snd first) !! Z.to_nat (activeIndex (snd first)) = Some r1 /\
    accounts (snd second) !! Z.to_nat (activeIndex (snd second)) = Some r2 /\
    activeIndex (snd second) = (activeIndex (snd first) + 1) mod Z.of_nat (length l) /\
    activeIndex (snd second) <> activeIndex (snd first).
Proof.
  intros Hh Hpid Hlen Hall file first second.
  destruct (session_first_pick E1 c l act model Hh Hpid Hlen Hall)
    as (r1 & Hres1 & Hact1 & Hdisk1 & Hlook1).
  fold file first in Hres1, Hact1, Hdisk1, Hlook1.
  set (n := Z.of_nat (length l)) in *.
  set (i0 := if (orZero act <? 0) || (orZero act >=? n) then 0 else orZero act) in *.
  pose proof (Z.mod_pos_bound (i0 + 1) n ltac:(lia)) as Hb.
  set (a1 := (i0 + 1) mod n) in *.
  destruct (session_first_pick E2 c l (Some a1) model Hh Hpid Hlen Hall)
    as (r2 & Hres2 & Hact2 & _ & Hlook2).
  rewrite <- Hdisk1 in Hres2, Hact2, Hlook2. fold second in Hres2, Hact2, Hlook2.
  cbn [orZero] in Hact2, Hlook2. fold n in Hact2, Hlook2.
  assert (Hnorm : (if (a1 <? 0) || (a1 >=? n) then 0 else a1) = a1).
  { assert (H1 : (a1 <? 0) = false) by (apply Z.ltb_ge; lia).
    assert (H2 : (a1 >=? n) = false) by (rewrite Z.geb_leb; apply Z.leb_gt; lia).
    by rewrite H1, H2. }
  rewrite Hnorm in Hact2, Hlook2.
  exists r1, r2. rewrite Hact1, Hact2.
  repeat split; try done.
  destruct (Z_lt_ge_dec (a1 + 1) n) as [Hlt|Hge].
  - rewrite Z.mod_small by lia. lia.
  - replace (a1 + 1) with n by lia. rewrite Z.mod_same by lia. lia.
Qed.

(** Two accounts, [activeAccountIndex] 0 in the file: the first process
    works with the account at position 1, the second with the one at 0. *)
Lemma hybrid_rotates_across_sessions_witness :
  let E := sampleEnv RefreshFailed 200 in
  let c := sampleConfig Hybrid in
  let file := FileJson (JObject (Some 1)
                (Some [sampleAccount 0 "rt-1"; sampleAccount 1 "rt-2"]) (Some 0)) in
  let first := getNextAvailableAccount E None (startSession c file) in
  let second := getNextAvailableAccount E None (startSession c (disk (snd first))) in
  activeIndex (snd second) <> activeIndex (snd first).
Proof.
  intros E c file first second.
  assert (Hall : forall a, a ∈ [sampleAccount 0 "rt-1"; sampleAccount 1 "rt-2"] ->
                   alwaysAvailable c a None).
  { intros a Ha now. apply isAccountAvailable_unlimited;
      repeat (apply elem_of_cons in Ha as [->|Ha]; [reflexivity|]);
      by apply elem_of_nil in Ha. }
  assert (Hlen : (1 < length [sampleAccount 0 "rt-1"; sampleAccount 1 "rt-2"])%nat)
    by (cbn; lia).
  destruct (hybrid_rotates_across_sessions E E c _ (Some 0) None eq_refl eq_refl
              Hlen Hall) as (r1 & r2 & _ & _ & _ & _ & _ & Hne).
  exact Hne.
Defined.

(** *** Rate limits *)

(** The assignment [markRateLimited] makes to the account, and when it
    throws. *)
Lemma markRateLimited_any E r (ms : JsNum) model w :
  let reset := jsArith (fun ms => dateNow E (tick w) + ms) ms in
  markRateLimited E r ms model w =
  (if debug (config w) && negb (validTime reset) then Throw "RangeError" else Ok tt,
   set_heap
     (alter (if truthyS model && perModelRateLimits (config w)
             then fun a => set_rateLimitResets
                             (<[default "" model := reset]> (rateLimitResets a)) a
             else set_globalRateLimitReset (Some reset))
            r (heap w))
     (set_tick (S (tick w)) w)).
Proof.
  cbn zeta. unfold markRateLimited. rewrite run_now, run_get. cbn [config set_tick].
  destruct (truthyS model && perModelRateLimits (config w));
    rewrite run_assign; by destruct (debug (config w) && _).
Qed.

Lemma markRateLimited_run E r (ms : Z) model w :
  let reset := dateNow E (tick w) + ms in
  snd (markRateLimited E r ms model w) =
   set_heap
     (alter (if truthyS model && perModelRateLimits (config w)
             then fun a => set_rateLimitResets
                             (<[default "" model := Num reset]> (rateLimitResets a)) a
             else set_globalRateLimitReset (Some (Num reset)))
            r (heap w))
     (set_tick (S (tick w)) w).
Proof. cbn zeta. by rewrite markRateLimited_any. Qed.

Lemma not_after (t reset : Z) : reset <= t -> (reset >? t) = false.
Proof. intros H. rewrite Z.gtb_ltb. apply Z.ltb_ge. lia. Qed.

Lemma is_after (t reset : Z) : t < reset -> (reset >? t) = true.
Proof. intros H. rewrite Z.gtb_ltb. apply Z.ltb_lt. lia. Qed.

(** What [markRateLimited] does to the availability of the account. *)
Lemma markRateLimited_blocked (E : Env) (w : World) (r : nat)
    (retryAfterMs : Z) (model : option string) :
  valid w r ->
  forall t, 0 <= t < dateNow E (tick w) + retryAfterMs ->
    isAccountAvailable (config (snd (markRateLimited E r retryAfterMs model w)))
      (deref (snd (markRateLimited E r retryAfterMs model w)) r) model t = false.
Proof.
  intros Hv t Ht. rewrite markRateLimited_run. cbn [snd].
  set (reset := dateNow E (tick w) + retryAfterMs) in *.
  match goal with |- context [set_heap (alter ?f r (heap w)) ?w0] =>
    set (w' := set_heap (alter f r (heap w)) w0);
    assert (Hd : deref w' r = f (deref w r))
      by (apply (deref_alter_eq w w' f r eq_refl Hv))
  end.
  change (config w') with (config w). rewrite Hd. clearbody w'.
  assert (Htruthy : truthyN (Some (Num reset)) = true).
  { cbn. apply negb_true_iff, Z.eqb_neq. lia. }
  unfold isAccountAvailable.
  destruct (truthyS model && perModelRateLimits (config w)) eqn:Hbranch.
  - cbn [consecutiveFailures globalRateLimitReset rateLimitResets
      set_rateLimitResets].
    destruct (consecutiveFailures (deref w r) >=? 3); [reflexivity|].
    destruct (truthyN (globalRateLimitReset (deref w r)) && _); [reflexivity|].
    rewrite lookup_insert_eq, Htruthy. cbn [orZeroN andb].
    by rewrite (is_after t reset) by lia.
  - cbn [consecutiveFailures globalRateLimitReset set_globalRateLimitReset].
    destruct (consecutiveFailures (deref w r) >=? 3); [reflexivity|].
    rewrite Htruthy. cbn [orZeroN andb]. by rewrite (is_after t reset) by lia.
Qed.

(** X6. [markRateLimited(account, retryAfterMs, model)] at time [now] keeps
    the account out of the selection for [model] until
    [now + retryAfterMs]: at every time before that instant the
    availability test fails for it. Recorded without a model (or with
    per-model limits off) the limit is global and holds for every model.
    From that instant on the limit no longer counts: an account that
    would have been available without it is available. The call throws
    in one case only, after the limit is recorded: with debug output on
    and a reset instant outside the range of [Date], for which
    [toISOString] raises a RangeError. *)
Theorem markRateLimited_blocks_until_reset (E : Env) (w : World) (r : nat)
    (retryAfterMs : Z) (model : option string) :
  valid w r ->
  let reset := dateNow E (tick w) + retryAfterMs in
  let w' := snd (markRateLimited E r retryAfterMs model w) in
  fst (markRateLimited E r retryAfterMs model w) =
    (if debug (config w) && negb (validTime reset)
     then Throw "RangeError" else Ok tt) /\
  (forall t, 0 <= t < reset ->
     isAccountAvailable (config w') (deref w' r) model t = false) /\
  (truthyS model && perModelRateLimits (config w) = false ->
     forall model' t, 0 <= t < reset ->
       isAccountAvailable (config w') (deref w' r) model' t = false) /\
  (forall t, reset <= t ->
     isAccountAvailable (config w) (deref w r) model t = true ->
     isAccountAvailable (config w') (deref w' r) model t = true).
Proof.
  intros Hv. cbn zeta. rewrite markRateLimited_any. cbn [fst snd jsArith].
  set (reset := dateNow E (tick w) + retryAfterMs).
  split; [reflexivity|].
  match goal with |- context [set_heap (alter ?f r (heap w)) ?w0] =>
    set (w' := set_heap (alter f r (heap w)) w0);
    assert (Hd : deref w' r = f (deref w r))
      by (apply (deref_alter_eq w w' f r eq_refl Hv))
  end.
  change (config w') with (config w). rewrite Hd. clearbody w'.
  assert (Htruthy : forall t, 0 <= t < reset -> truthyN (Some (Num reset)) = true).
  { intros t Ht. cbn. apply negb_true_iff, Z.eqb_neq. lia. }
  destruct (truthyS model && perModelRateLimits (config w)) eqn:Hbranch.
  - split; [|split; [discriminate|]].
    + intros t Ht. unfold isAccountAvailable. cbn [consecutiveFailures
        globalRateLimitReset rateLimitResets set_rateLimitResets].
      destruct (consecutiveFailures (deref w r) >=? 3); [reflexivity|].
      destruct (truthyN (globalRateLimitReset (deref w r)) && _); [reflexivity|].
      rewrite Hbranch, lookup_insert_eq, (Htruthy t Ht). cbn [orZeroN andb].
      by rewrite (is_after t reset) by lia.
    + intros t Ht. unfold isAccountAvailable. cbn [consecutiveFailures
        globalRateLimitReset rateLimitResets set_rateLimitResets].
      destruct (consecutiveFailures (deref w r) >=? 3); [discriminate|].
      destruct (truthyN (globalRateLimitReset (deref w r)) && _); [discriminate|].
      rewrite Hbranch, lookup_insert_eq. intros _. cbn [orZeroN].
      by rewrite (not_after t reset), andb_false_r by lia.
  - assert (Hblock : forall model' t, 0 <= t < reset ->
              isAccountAvailable (config w)
                (set_globalRateLimitReset (Some (Num reset)) (deref w r)) model' t = false).
    { intros model' t Ht. unfold isAccountAvailable. cbn [consecutiveFailures
        globalRateLimitReset set_globalRateLimitReset].
      destruct (consecutiveFailures (deref w r) >=? 3); [reflexivity|].
      rewrite (Htruthy t Ht). cbn [orZeroN andb]. by rewrite (is_after t reset) by lia. }
    split; [intros t Ht; by apply Hblock|]. split; [intros _; exact Hblock|].
    intros t Ht. unfold isAccountAvailable. cbn [consecutiveFailures
      globalRateLimitReset rateLimitResets set_globalRateLimitReset].
    destruct (consecutiveFailures (deref w r) >=? 3); [discriminate|].
    destruct (truthyN (globalRateLimitReset (deref w r)) && _); [discriminate|].
    cbn [orZeroN]. by rewrite (not_after t reset), andb_false_r by lia.
Qed.

(** An account limited for sixty seconds is not available half a minute
    later. *)
Lemma markRateLimited_blocks_until_reset_witness :
  let E := sampleEnv RefreshFailed 429 in
  let w := samplePool Sticky threeAccounts in
  let w' := snd (markRateLimited E 0%nat 60000 (Some "gpt-5.2-codex") w) in
  isAccountAvailable (config w') (deref w' 0%nat) (Some "gpt-5.2-codex")
    (1700000000000 + 30000) = false.
Proof.
  intros E w w'.
  assert (Hv : valid w 0%nat) by (vm_compute; lia).
  destruct (markRateLimited_blocks_until_reset E w 0%nat 60000 (Some "gpt-5.2-codex") Hv)
    as (_ & Hblock & _).
  apply Hblock. vm_compute. split; [discriminate|reflexivity].
Defined.

(** X7. A limit recorded for one model is that model's alone: the account's
    availability for any other model, and for requests without a model,
    is what it was, and so are all other accounts. [markRateLimited]
    changes neither the pool nor the selector's state, and writes nothing
    to the accounts file. *)
Theorem markRateLimited_is_per_model (E : Env) (w : World) (r : nat)
    (retryAfterMs : Z) (model : option string) :
  valid w r ->
  let w' := snd (markRateLimited E r retryAfterMs model w) in
  (truthyS model = true -> perModelRateLimits (config w) = true ->
     forall model' t, model' <> model ->
       isAccountAvailable (config w') (deref w' r) model' t =
       isAccountAvailable (config w) (deref w r) model' t) /\
  (forall r', r' <> r -> deref w' r' = deref w r') /\
  accounts w' = accounts w /\ activeIndex w' = activeIndex w /\
  roundRobinCursor w' = roundRobinCursor w /\
  strategyInitialized w' = strategyInitialized w /\
  disk w' = disk w.
Proof.
  intros Hv. cbn zeta. rewrite markRateLimited_run. cbn [snd].
  match goal with |- context [set_heap (alter ?f r (heap w)) ?w0] =>
    set (w' := set_heap (alter f r (heap w)) w0);
    assert (Hd : deref w' r = f (deref w r))
      by (apply (deref_alter_eq w w' f r eq_refl Hv));
    assert (Hother : forall r', r' <> r -> deref w' r' = deref w r')
      by (intros r' Hr'; apply (deref_alter_ne w w' f r r' eq_refl); congruence)
  end.
  split; [|split; [exact Hother|repeat split]].
  intros Hm Hp model' t Hne.
  change (config w') with (config w). rewrite Hd, Hm, Hp. cbn [andb].
  apply truthyS_iff in Hm as (m & -> & Hm). change (default "" (Some m)) with m.
  unfold isAccountAvailable. cbn [consecutiveFailures globalRateLimitReset
    rateLimitResets set_rateLimitResets].
  destruct (truthyS model') eqn:Hm'; [|reflexivity].
  apply truthyS_iff in Hm' as (m' & -> & Hm'). change (default "" (Some m')) with m'.
  rewrite lookup_insert_ne by congruence. reflexivity.
Qed.

(** A limit on one model leaves the account available for another. *)
Lemma markRateLimited_is_per_model_witness :
  let E := sampleEnv RefreshFailed 429 in
  let w := samplePool Sticky threeAccounts in
  let w' := snd (markRateLimited E 0%nat 60000 (Some "gpt-5.2-codex") w) in
  isAccountAvailable (config w') (deref w' 0%nat) (Some "gpt-5.2") 1700000000001 = true.
Proof.
  intros E w w'.
  assert (Hv : valid w 0%nat) by (vm_compute; lia).
  destruct (markRateLimited_is_per_model E w 0%nat 60000 (Some "gpt-5.2-codex") Hv)
    as (Hmodel & _).
  unfold w'. rewrite (Hmodel eq_refl eq_refl); [reflexivity|discriminate].
Defined.

(** X8. A rate-limited account is passed over. After [markRateLimited] for an
    account, a selection for the same model that reads a time before the
    reset does not return that account as long as some account of the
    pool is available: it returns an available one. (Only when none is
    available can the fallback come back to it.) *)
Theorem rate_limited_account_is_skipped (E : Env) (w : World) (r : nat)
    (retryAfterMs : Z) (model : option string) :
  valid w r -> cursorOk w ->
  let w' := snd (markRateLimited E r retryAfterMs model w) in
  let reset := dateNow E (tick w) + retryAfterMs in
  let now' := dateNow E (tick (snd (initializeStrategyState E w'))) in
  0 <= now' < reset ->
  (exists x, x ∈ accounts w /\
     isAccountAvailable (config w) (deref w' x) model now' = true) ->
  exists r',
    fst (getNextAvailableAccount E model w') = Ok (Some r') /\
    r' <> r /\ r' ∈ accounts w /\
    isAccountAvailable (config w) (deref w' r') model now' = true.
Proof.
  intros Hv Hc w' reset now' Hnow (x & Hx & Hav).
  pose proof (markRateLimited_blocked E w r retryAfterMs model Hv) as Hblock.
  fold w' reset in Hblock. specialize (Hblock now' Hnow).
  assert (Hw' : accounts w' = accounts w /\ config w' = config w /\
                strategyInitialized w' = strategyInitialized w /\
                startIndexOf w' = startIndexOf w).
  { unfold w'. rewrite markRateLimited_run. by repeat split. }
  destruct Hw' as (Hacc & Hcfg & Hini & Hstart).
  rewrite Hcfg in Hblock.
  assert (Hc' : cursorOk w') by (unfold cursorOk; by rewrite Hini, Hstart).
  assert (Hne : accounts w' <> []).
  { rewrite Hacc. intros He. rewrite He in Hx. by apply elem_of_nil in Hx. }
  destruct (initializeStrategyState_facts E w' Hne Hc') as (_ & _ & Hacc1 & _).
  destruct (getNextAvailableAccount_run E model w' Hne Hc')
    as [(k & r' & _ & Hat & Hav' & _ & ->)|(Hnone & _)].
  - fold now' in Hav'. rewrite Hcfg in Hav'. exists r'. cbn [fst].
    split; [reflexivity|]. split; [by intros ->; congruence|].
    split; [|exact Hav'].
    apply arrayGet_elem in Hat. by rewrite Hacc1, Hacc in Hat.
  - fold now' in Hnone. rewrite Hacc, Hcfg in Hnone.
    rewrite (Hnone x Hx) in Hav. discriminate.
Qed.

(** Sticky selection over two accounts, the first one rate limited for a
    minute: the next call returns the second. *)
Lemma rate_limited_account_is_skipped_witness :
  let E := sampleEnv RefreshFailed 429 in
  let w := samplePool Sticky [sampleAccount 0 "rt-1"; sampleAccount 1 "rt-2"] in
  let w' := snd (markRateLimited E 0%nat 60000 (Some "gpt-5.2-codex") w) in
  fst (getNextAvailableAccount E (Some "gpt-5.2-codex") w') = Ok (Some 1%nat).
Proof.
  intros E w w'.
  assert (Hv : valid w 0%nat) by (vm_compute; lia).
  assert (Hc : cursorOk w) by (intros Hi; discriminate Hi).
  destruct (rate_limited_account_is_skipped E w 0%nat 60000 (Some "gpt-5.2-codex") Hv Hc)
    as (r' & Hres & Hne & Hin & _).
  - vm_compute. split; [discriminate|reflexivity].
  - exists 1%nat. split; [by right; left|by vm_compute].
  - fold w' in Hres. rewrite Hres.
    repeat (apply elem_of_cons in Hin as [->|Hin]; [done|]).
    by apply elem_of_nil in Hin.
Defined.

(** *** Failures *)

Lemma markRefreshFailed_kept r e w :
  removeOnInvalidGrant (config w) && includes "invalid_grant" e = false ->
  markRefreshFailed r e w =
  (Ok tt,
   set_heap (alter (fun a => set_isRefreshing (Some false)
                      (set_lastRefreshError (Some e)
                         (set_consecutiveFailures (consecutiveFailures a + 1) a)))
                   r (heap w)) w).
Proof.
  intros Hkeep. unfold markRefreshFailed.
  repeat (rewrite run_assign; wnorm). rewrite run_get. wnorm. rewrite Hkeep.
  rewrite !list_alter_alter_eq. destruct w; reflexivity.
Qed.

(** X9. Failures add up: after [k] calls of [markRefreshFailed] that do not
    remove the account (the error is not an [invalid_grant], or removal is
    off) its [consecutiveFailures] is [k] higher, and once it has reached
    3 the account fails the availability test for every model and at
    every time. The pool and the other accounts stay as they are. The
    errors the orchestrator reports, for a 401 and for a failed refresh,
    are of this kind. *)
Theorem markRefreshFailed_counts_to_three (w : World) (r : nat) (e : string) (k : nat) :
  valid w r ->
  removeOnInvalidGrant (config w) && includes "invalid_grant" e = false ->
  let w' := snd (failures r e k w) in
  fst (failures r e k w) = Ok tt /\
  consecutiveFailures (deref w' r) = consecutiveFailures (deref w r) + Z.of_nat k /\
  ((0 < k)%nat ->
     lastRefreshError (deref w' r) = Some e /\ isRefreshing (deref w' r) = Some false) /\
  (3 <= consecutiveFailures (deref w r) + Z.of_nat k ->
     forall model now, isAccountAvailable (config w') (deref w' r) model now = false) /\
  accounts w' = accounts w /\
  (forall r', r' <> r -> deref w' r' = deref w r') /\
  includes "invalid_grant" "401 Unauthorized" = false /\
  includes "invalid_grant" "Token refresh failed" = false.
Proof.
  intros Hv Hkeep. cbn zeta.
  assert (H : fst (failures r e k w) = Ok tt /\
              consecutiveFailures (deref (snd (failures r e k w)) r) =
                consecutiveFailures (deref w r) + Z.of_nat k /\
              ((0 < k)%nat ->
                 lastRefreshError (deref (snd (failures r e k w)) r) = Some e /\
                 isRefreshing (deref (snd (failures r e k w)) r) = Some false) /\
              accounts (snd (failures r e k w)) = accounts w /\
              config (snd (failures r e k w)) = config w /\
              (forall r', r' <> r -> deref (snd (failures r e k w)) r' = deref w r')).
  { revert w Hv Hkeep. induction k as [|k IH]; intros w Hv Hkeep.
    - cbn. repeat split; try lia.
    - cbn [failures]. unfold bind. rewrite (markRefreshFailed_kept r e w Hkeep).
      set (f := fun a => set_isRefreshing (Some false)
                  (set_lastRefreshError (Some e)
                     (set_consecutiveFailures (consecutiveFailures a + 1) a))).
      set (w1 := set_heap (alter f r (heap w)) w).
      assert (Hv1 : valid w1 r) by (unfold valid, w1; cbn; by rewrite length_alter).
      assert (Hd : deref w1 r = f (deref w r))
        by (apply (deref_alter_eq w w1 f r eq_refl Hv)).
      destruct (IH w1 Hv1 Hkeep) as (Hok & Hcount & Hlast & Hacc & Hcfg & Hother).
      split; [exact Hok|]. split; [rewrite Hcount, Hd; cbn; lia|].
      split.
      { intros _. destruct k as [|k]; [cbn; by rewrite Hd|apply Hlast; lia]. }
      split; [exact Hacc|]. split; [exact Hcfg|].
      intros r' Hr'. rewrite (Hother r' Hr').
      apply (deref_alter_ne w w1 f r r' eq_refl). congruence. }
  destruct H as (Hok & Hcount & Hlast & Hacc & Hcfg & Hother).
  repeat split; try done.
  - apply (Hlast H).
  - apply (Hlast H).
  - intros Hge model now. apply isAccountAvailable_ceiling. lia.
Qed.

(** Three 401s in a row: the account is benched. *)
Lemma markRefreshFailed_counts_to_three_witness :
  let w := samplePool Sticky threeAccounts in
  let w' := snd (failures 1%nat "401 Unauthorized" 3 w) in
  isAccountAvailable (config w') (deref w' 1%nat) None 1700000000000 = false.
Proof.
  intros w w'.
  assert (Hv : valid w 1%nat) by (vm_compute; lia).
  destruct (markRefreshFailed_counts_to_three w 1%nat "401 Unauthorized" 3 Hv eq_refl)
    as (_ & _ & _ & Hbench & _).
  apply Hbench. vm_compute. discriminate.
Defined.

Lemma not_elem_of_delete {A} (l : list A) p x :
  NoDup l -> l !! p = Some x -> x ∉ delete p l.
Proof.
  intros Hnd Hp Hin. apply list_elem_of_lookup in Hin as (j & Hj).
  destruct (decide (j < p)%nat) as [Hlt|Hge].
  - rewrite list_lookup_delete_lt in Hj by lia.
    pose proof (NoDup_lookup l j p x Hnd Hj Hp). lia.
  - rewrite list_lookup_delete_ge in Hj by lia.
    pose proof (NoDup_lookup l (S j) p x Hnd Hj Hp). lia.
Qed.

(** Removing the account at position [p] of a well-formed pool. *)
Lemma removeAccount_at w r p :
  poolOk w -> dense w -> accounts w !! p = Some r ->
  let w' := snd (removeAccount r w) in
  fst (removeAccount r w) = Ok tt /\
  accounts w' = delete p (accounts w) /\ (r ∉ accounts w') /\
  poolOk w' /\ dense w' /\ saved w' /\
  strategyInitialized w' = false /\ config w' = config w.
Proof.
  intros [Hnd Hval] Hd Hp.
  assert (Hf : findIndex (fun r' => index (deref w r') =? index (deref w r)) (accounts w)
               = Some p).
  { apply findIndex_Some. exists r. repeat split; [exact Hp|apply Z.eqb_refl|].
    intros j y Hj Hy. apply Z.eqb_neq. rewrite (Hd j y Hy), (Hd p r Hp). lia. }
  cbn zeta. rewrite (removeAccount_found w r p Hf). cbn [fst snd].
  set (w1 := set_accounts (delete p (accounts w)) w).
  assert (Hnd1 : NoDup (accounts w1)).
  { unfold w1. cbn. exact (sublist_NoDup _ _ Hnd (sublist_delete _ _)). }
  assert (Hval1 : Forall (valid w1) (accounts w1)).
  { unfold w1. cbn. by apply Forall_delete. }
  destruct (reindexFrom_spec (accounts w1) 0 w1 Hnd1 Hval1)
    as (Hidx & _ & Hlen & Hacc & _ & _ & _ & Hcfg).
  set (w2 := snd (reindexFrom 0 (accounts w1) w1)) in *.
  set (active' := if activeIndex w >=? getAccountCount w1
                  then Z.max 0 (getAccountCount w1 - 1) else activeIndex w2).
  clearbody active'.
  split; [reflexivity|].
  change (accounts w1) with (delete p (accounts w)) in *.
  unfold saved, poolRecords, poolOk, dense, valid, deref. cbn. rewrite Hacc, Hlen.
  split; [reflexivity|]. split; [by apply not_elem_of_delete|].
  split; [split; [exact Hnd1|exact Hval1]|].
  split.
  { intros j r' Hj. specialize (Hidx j r' Hj). unfold deref in Hidx. rewrite Hidx. lia. }
  split; [reflexivity|]. split; [reflexivity|exact Hcfg].
Qed.

(** X10. An [invalid_grant] removes the account. With removal on (the default),
    [markRefreshFailed] for an error that mentions [invalid_grant] takes
    the account out of the pool; the remaining accounts keep their order
    and are re-indexed densely, and the accounts file is rewritten without
    the account. *)
Theorem markRefreshFailed_removes_on_invalid_grant (w : World) (r : nat) (p : nat)
    (e : string) :
  poolOk w -> dense w -> accounts w !! p = Some r ->
  removeOnInvalidGrant (config w) = true -> includes "invalid_grant" e = true ->
  let w' := snd (markRefreshFailed r e w) in
  fst (markRefreshFailed r e w) = Ok tt /\
  accounts w' = delete p (accounts w) /\ (r ∉ accounts w') /\
  poolOk w' /\ dense w' /\ saved w' /\
  removeOnInvalidGrant DEFAULT_MULTI_ACCOUNT_CONFIG = true.
Proof.
  intros [Hnd Hval] Hd Hp Hrm He. cbn zeta. unfold markRefreshFailed.
  repeat (rewrite run_assign; wnorm). rewrite run_get. wnorm. rewrite Hrm, He.
  cbn [andb]. rewrite !list_alter_alter_eq.
  match goal with |- context [removeAccount r ?w0] => set (w1 := w0) end.
  assert (Hok1 : poolOk w1).
  { split; [exact Hnd|]. eapply Forall_impl; [exact Hval|].
    intros x Hx. unfold valid, w1. cbn. by rewrite length_alter. }
  assert (Hd1 : dense w1).
  { intros j x Hj. rewrite <- (Hd j x Hj). unfold deref, w1. cbn.
    destruct (decide (r = x)) as [->|Hne].
    - rewrite list_lookup_alter_eq. by destruct (heap w !! x).
    - by rewrite list_lookup_alter_ne. }
  destruct (removeAccount_at w1 r p Hok1 Hd1 Hp)
    as (Hres & Hacc & Hnot & Hok' & Hd' & Hsaved & _).
  repeat split; try done; apply Hok'.
Qed.

(** The refresh endpoint rejects the token of the second of three
    accounts with [invalid_grant]: two accounts are left. *)
Lemma markRefreshFailed_removes_on_invalid_grant_witness :
  let w := samplePool Sticky threeAccounts in
  accounts (snd (markRefreshFailed 1%nat "Error: invalid_grant" w)) = [0; 2]%nat.
Proof.
  intros w.
  assert (Hok : poolOk w).
  { split; [|repeat constructor; vm_compute; lia].
    apply (bool_decide_unpack _). by vm_compute. }
  assert (Hd : dense w).
  { intros [|[|[|j]]] r' Hj; cbn in Hj; try discriminate; injection Hj as <-; reflexivity. }
  destruct (markRefreshFailed_removes_on_invalid_grant w 1%nat 1%nat
              "Error: invalid_grant" Hok Hd eq_refl eq_refl eq_refl)
    as (_ & Hacc & _).
  exact Hacc.
Defined.

(** *** The active account *)

Lemma getActiveAccount_at w l i r :
  accounts w = l -> arrayGet l i = Some r -> activeIndex w = i ->
  getActiveAccount w = Some r.
Proof.
  intros <- Hget Hact. unfold getActiveAccount. rewrite Hact, Hget.
  assert (Hz : (getAccountCount w =? 0) = false).
  { apply Z.eqb_neq. apply arrayGet_elem in Hget. unfold getAccountCount.
    destruct (accounts w); [by apply elem_of_nil in Hget|cbn; lia]. }
  by rewrite Hz.
Qed.

(** X11. [getActiveAccount] returns null exactly for an empty pool and
    otherwise an account of the pool, also when [activeIndex] points
    outside of it (it then is the first account). After a selection in a
    pool with dense indices it is the account the selection returned. *)
Theorem getActiveAccount_follows_selection (E : Env) (model : option string) (w : World) :
  (getActiveAccount w = None <-> accounts w = []) /\
  (forall r, getActiveAccount w = Some r -> r ∈ accounts w) /\
  (cursorOk w -> dense w -> forall r w',
     getNextAvailableAccount E model w = (Ok (Some r), w') ->
     getActiveAccount w' = Some r).
Proof.
  split; [|split].
  - unfold getActiveAccount, getAccountCount.
    destruct (accounts w) as [|r0 l] eqn:Ha; [done|].
    assert (Hz : (Z.of_nat (length (r0 :: l)) =? 0) = false)
      by (apply Z.eqb_neq; cbn; lia).
    rewrite Hz. destruct (arrayGet (r0 :: l) (activeIndex w)); done.
  - intros r. unfold getActiveAccount.
    destruct (getAccountCount w =? 0); [discriminate|].
    destruct (arrayGet (accounts w) (activeIndex w)) as [r'|] eqn:Hget.
    + intros [= <-]. by apply arrayGet_elem in Hget.
    + intros H. apply list_elem_of_lookup. eauto.
  - intros Hc Hd r w' Hsel.
    destruct (decide (accounts w = [])) as [He|Hne].
    { rewrite (getNextAvailableAccount_empty E model w He) in Hsel. discriminate. }
    destruct (initializeStrategyState_facts E w Hne Hc) as (_ & _ & Hacc & _).
    destruct (getNextAvailableAccount_run E model w Hne Hc)
      as [(k & r0 & Hk & Hat & _ & _ & Hrun)|(_ & Hrun)]; rewrite Hrun in Hsel.
    + injection Hsel as <- <-. rewrite selectAt_run.
      apply (getActiveAccount_at _ (accounts w)
               (jsRem (startIndexOf (snd (initializeStrategyState E w)) + k)
                      (getAccountCount w))).
      * destruct (isRoundRobin _); exact Hacc.
      * unfold scanned in Hat. by rewrite (count_accounts _ _ Hacc), Hacc in Hat.
      * destruct (isRoundRobin _); reflexivity.
    + destruct (leastLoop_initial w model (accounts w))
        as [(Hres & _)|(i & f & Hi & Hres & _)]; rewrite Hres in Hsel; [discriminate|].
      injection Hsel as <- <-. rewrite selectAt_run.
      apply (getActiveAccount_at _ (accounts w) (index (deref w f))).
      * destruct (isRoundRobin _); exact Hacc.
      * rewrite (Hd i f Hi). unfold arrayGet.
        assert (Hneg : (Z.of_nat i <? 0) = false) by (apply Z.ltb_ge; lia).
        by rewrite Hneg, Nat2Z.id.
      * destruct (isRoundRobin _); reflexivity.
Qed.

(** Round-robin over three accounts: the second call returns the second
    account, and that is the active one. *)
Lemma getActiveAccount_follows_selection_witness :
  let E := sampleEnv RefreshFailed 200 in
  let w := snd (getNextAvailableAccount E None (samplePool RoundRobin threeAccounts)) in
  getActiveAccount (snd (getNextAvailableAccount E None w)) = Some 1%nat.
Proof.
  intros E w.
  destruct (getActiveAccount_follows_selection E None w) as (_ & _ & Hsel).
  apply Hsel.
  - intros _. vm_compute. discriminate.
  - intros [|[|[|j]]] r' Hj; vm_compute in Hj; try discriminate;
      injection Hj as <-; reflexivity.
  - reflexivity.
Defined.

(** *** Adding accounts *)

(** The two ways [addAccount] ends: an entry of the pool is updated in
    place, or a new object is appended. *)
Lemma addAccount_cases E w email' rt at_ exp :
  let res := addAccount E email' rt at_ exp w in
  (exists existing F,
     existing ∈ accounts w /\ fst res = Ok existing /\
     heap (snd res) = alter F existing (heap w) /\
     accounts (snd res) = accounts w /\ activeIndex (snd res) = activeIndex w /\
     config (snd res) = config w /\ strategyInitialized (snd res) = false /\
     saved (snd res) /\
     forall a, index (F a) = index a /\ consecutiveFailures (F a) = 0 /\
               refreshToken (F a) = (if String.eqb rt "" then refreshToken a else rt)) \/
  (exists new,
     fst res = Ok (length (heap w)) /\
     heap (snd res) = heap w ++ [new] /\
     accounts (snd res) = accounts w ++ [length (heap w)] /\
     activeIndex (snd res) = activeIndex w /\
     config (snd res) = config w /\ strategyInitialized (snd res) = false /\
     saved (snd res) /\
     index new = getAccountCount w /\ consecutiveFailures new = 0 /\
     refreshToken new = rt).
Proof.
  cbn zeta. unfold addAccount. cbn zeta. rewrite run_get.
  destruct (findIndex _ (accounts w)) as [i|] eqn:Hf; cbn [mbind option_bind].
  - destruct (proj1 (findIndex_Some _ _ _) Hf) as (existing & Hi & _).
    rewrite Hi. left.
    rewrite !run_assignIf, run_assign, run_saveToDisk, run_modify. unfold ret.
    cbn [fst snd saveToDisk modify]. wnorm. rewrite !list_alter_alter_eq.
    exists existing. eexists. split; [apply list_elem_of_lookup; eauto|].
    split; [reflexivity|]. split; [reflexivity|].
    split; [reflexivity|]. split; [reflexivity|]. split; [reflexivity|].
    split; [reflexivity|]. split; [reflexivity|].
    intros a. unfold onlyIf, compose. destruct (String.eqb rt ""); cbn [negb].
    all: repeat match goal with |- context [if ?c then _ else id] => destruct c end;
      cbn; repeat split; reflexivity.
  - right. rewrite run_now, run_get. cbn beta zeta.
    rewrite !run_modify, run_saveToDisk. unfold ret. cbn [fst snd saveToDisk modify].
    wnorm. eexists. split; [reflexivity|]. split; [reflexivity|].
    split; [reflexivity|]. split; [reflexivity|]. split; [reflexivity|].
    split; [reflexivity|]. split; [reflexivity|]. cbn. repeat split.
Qed.

(** X12. [addAccount] keeps the pool well-formed: the pool holds distinct,
    allocated objects, every account's [index] is its position (a new
    account gets the next one), and the accounts file holds the pool as
    the call leaves it. The account returned is in the pool, with no
    failures counted and, for a non-empty refresh token, with that token;
    the strategy state is marked for re-initialisation. *)
Theorem addAccount_keeps_pool_dense (E : Env) (w : World) (email' : option string)
    (refreshToken' : string) (accessToken : option string) (expires' : option Z) :
  poolOk w -> dense w ->
  let res := addAccount E email' refreshToken' accessToken expires' w in
  poolOk (snd res) /\ dense (snd res) /\ saved (snd res) /\
  strategyInitialized (snd res) = false /\
  exists r,
    fst res = Ok r /\ r ∈ accounts (snd res) /\
    consecutiveFailures (deref (snd res) r) = 0 /\
    (refreshToken' <> "" -> refreshToken (deref (snd res) r) = refreshToken').
Proof.
  intros [Hnd Hval] Hd. cbn zeta.
  destruct (addAccount_cases E w email' refreshToken' accessToken expires')
    as [(existing & F & Hin & Hres & Hh & Hacc & _ & _ & Hini & Hsaved & HF)
       |(new & Hres & Hh & Hacc & _ & _ & Hini & Hsaved & Hidx & Hcf & Hrt)].
  - assert (Hv : valid w existing) by (rewrite Forall_forall in Hval; by apply Hval).
    assert (Hde : deref (snd (addAccount E email' refreshToken' accessToken expires' w))
                    existing = F (deref w existing))
      by (apply (deref_alter_eq w _ F existing Hh Hv)).
    split; [|split; [|split; [exact Hsaved|split; [exact Hini|]]]].
    + split; [by rewrite Hacc|]. rewrite Hacc.
      eapply Forall_impl; [exact Hval|]. intros x Hx. unfold valid.
      by rewrite Hh, length_alter.
    + intros j x Hj. rewrite Hacc in Hj. rewrite <- (Hd j x Hj).
      destruct (decide (existing = x)) as [<-|Hne].
      * rewrite Hde. apply HF.
      * by rewrite (deref_alter_ne w _ F existing x Hh Hne).
    + exists existing. rewrite Hacc, Hde. destruct (HF (deref w existing)) as (_ & Hz & Ht).
      repeat split; try done. intros Hne. rewrite Ht.
      apply String.eqb_neq in Hne. by rewrite Hne.
  - set (r := length (heap w)) in *.
    assert (Hnew : deref (snd (addAccount E email' refreshToken' accessToken expires' w)) r
                   = new).
    { unfold deref. rewrite Hh, lookup_app_r by (unfold r; lia).
      unfold r. by rewrite Nat.sub_diag. }
    assert (Hold : forall x, valid w x ->
              deref (snd (addAccount E email' refreshToken' accessToken expires' w)) x
              = deref w x).
    { intros x Hx. unfold deref. by rewrite Hh, lookup_app_l. }
    assert (Hfresh : r ∉ accounts w).
    { intros Hin. rewrite Forall_forall in Hval. specialize (Hval r Hin).
      unfold valid, r in Hval. lia. }
    split; [|split; [|split; [exact Hsaved|split; [exact Hini|]]]].
    + split.
      * rewrite Hacc. apply NoDup_app. split; [exact Hnd|].
        split; [|apply NoDup_singleton].
        intros x Hx Hx'. apply list_elem_of_singleton in Hx' as ->. by apply Hfresh.
      * rewrite Hacc. apply Forall_app. split.
        -- eapply Forall_impl; [exact Hval|]. intros x Hx. unfold valid.
           rewrite Hh, length_app. unfold valid in Hx. lia.
        -- apply Forall_singleton. unfold valid. rewrite Hh, length_app. cbn.
           unfold r. lia.
    + intros j x Hj. rewrite Hacc in Hj.
      destruct (decide (j < length (accounts w))%nat) as [Hlt|Hge].
      * rewrite lookup_app_l in Hj by lia. rewrite Hold; [by apply Hd|].
        rewrite Forall_forall in Hval. apply Hval. apply list_elem_of_lookup. eauto.
      * rewrite lookup_app_r in Hj by lia.
        destruct (j - length (accounts w))%nat as [|j'] eqn:Hj'; [|done].
        cbn in Hj. injection Hj as <-. rewrite Hnew, Hidx.
        unfold getAccountCount. lia.
    + exists r. rewrite Hacc, Hnew. repeat split; try done.
      apply elem_of_app. right. by apply list_elem_of_singleton.
Qed.

(** A third account is added to a pool of two: it gets index 2. *)
Lemma addAccount_keeps_pool_dense_witness :
  let w := samplePool Sticky [sampleAccount 0 "rt-1"; sampleAccount 1 "rt-2"] in
  dense (snd (addAccount (sampleEnv RefreshFailed 200) None "rt-3" None None w)).
Proof.
  intros w.
  assert (Hok : poolOk w).
  { split; [|repeat constructor; vm_compute; lia].
    apply (bool_decide_unpack _). by vm_compute. }
  assert (Hd : dense w).
  { intros [|[|j]] r' Hj; cbn in Hj; try discriminate; injection Hj as <-; reflexivity. }
  destruct (addAccount_keeps_pool_dense (sampleEnv RefreshFailed 200) w None "rt-3"
              None None Hok Hd) as (_ & Hdense & _).
  exact Hdense.
Defined.

(** *** Importing the host's credentials *)

Lemma addAccount_ok E w email' rt at_ exp :
  exists r, fst (addAccount E email' rt at_ exp w) = Ok r.
Proof.
  destruct (addAccount_cases E w email' rt at_ exp)
    as [(existing & F & _ & Hres & _)|(new & Hres & _)]; eauto.
Qed.

Lemma importFromOpenCodeAuth_run E authFile w :
  importFromOpenCodeAuth E authFile w =
  (Ok tt,
   match authFile with
   | AuthJson (Some auth) =>
     if eqS (authType auth) (Some "oauth") && truthyS (authRefresh auth) then
       match find (fun r => String.eqb (refreshToken (deref w r))
                               (default "" (authRefresh auth))) (accounts w) with
       | Some _ => w
       | None => snd (addAccount E None (default "" (authRefresh auth))
                        (authAccess auth) (authExpires auth) w)
       end
     else w
   | _ => w
   end).
Proof.
  unfold importFromOpenCodeAuth. destruct authFile as [| |[auth|]]; try reflexivity.
  unfold try_catch. rewrite run_ret.
  destruct (eqS (authType auth) (Some "oauth") && truthyS (authRefresh auth));
    [|reflexivity].
  rewrite run_get. destruct (find _ (accounts w)); [reflexivity|].
  unfold bind.
  destruct (addAccount_ok E w None (default "" (authRefresh auth)) (authAccess auth)
              (authExpires auth)) as (r & Hr).
  destruct (addAccount E None (default "" (authRefresh auth)) (authAccess auth)
              (authExpires auth) w) as [[r'|e] w'] eqn:Ha; [reflexivity|].
  cbn in Hr. discriminate.
Qed.

(** X13. [importFromOpenCodeAuth] with OAuth credentials in the host's file
    (type "oauth" and a non-empty refresh token): afterwards the pool has
    an account with that refresh token. It adds at most one account, it
    leaves the store alone when the pool already has an account with the
    token, and it is idempotent: a second import changes nothing. *)
Theorem importFromOpenCodeAuth_adds_once (E : Env) (w : World) (auth : OpenAIAuth) :
  Forall (valid w) (accounts w) ->
  authType auth = Some "oauth" -> truthyS (authRefresh auth) = true ->
  let token := default "" (authRefresh auth) in
  let w1 := snd (importFromOpenCodeAuth E (AuthJson (Some auth)) w) in
  fst (importFromOpenCodeAuth E (AuthJson (Some auth)) w) = Ok tt /\
  (exists r, r ∈ accounts w1 /\ refreshToken (deref w1 r) = token) /\
  (length (accounts w1) <= S (length (accounts w)))%nat /\
  ((exists r, r ∈ accounts w /\ refreshToken (deref w r) = token) -> w1 = w) /\
  importFromOpenCodeAuth E (AuthJson (Some auth)) w1 = (Ok tt, w1).
Proof.
  intros Hval Htype Hrefresh token w1.
  assert (Hcond : eqS (authType auth) (Some "oauth") && truthyS (authRefresh auth) = true).
  { rewrite Htype, Hrefresh. reflexivity. }
  assert (Hne : token <> "").
  { apply truthyS_iff in Hrefresh as (m & Hm & Hne). unfold token. by rewrite Hm. }
  assert (Hfound : forall w0 r, r ∈ accounts w0 -> refreshToken (deref w0 r) = token ->
            importFromOpenCodeAuth E (AuthJson (Some auth)) w0 = (Ok tt, w0)).
  { intros w0 r Hin Ht. rewrite importFromOpenCodeAuth_run, Hcond. fold token.
    destruct (find _ (accounts w0)) eqn:Hfind; [reflexivity|].
    apply list_elem_of_In in Hin.
    pose proof (find_none _ _ Hfind r Hin) as Hx. cbn beta in Hx.
    rewrite Ht, String.eqb_refl in Hx. discriminate. }
  assert (Hhas : (exists r, r ∈ accounts w1 /\ refreshToken (deref w1 r) = token) /\
                 (length (accounts w1) <= S (length (accounts w)))%nat).
  { unfold w1. rewrite importFromOpenCodeAuth_run, Hcond. cbn [snd]. fold token.
    destruct (find _ (accounts w)) as [r|] eqn:Hfind.
    - apply find_some in Hfind as [Hin Heq]. apply String.eqb_eq in Heq.
      split; [|lia]. exists r. split; [by apply list_elem_of_In|exact Heq].
    - destruct (addAccount_cases E w None token (authAccess auth) (authExpires auth))
        as [(existing & F & Hin & _ & Hh & Hacc & _ & _ & _ & _ & HF)
           |(new & _ & Hh & Hacc & _ & _ & _ & _ & _ & _ & Hrt)].
      + split; [|rewrite Hacc; lia]. exists existing. rewrite Hacc. split; [exact Hin|].
        assert (Hv : valid w existing) by (rewrite Forall_forall in Hval; by apply Hval).
        rewrite (deref_alter_eq w _ F existing Hh Hv).
        destruct (HF (deref w existing)) as (_ & _ & ->).
        apply String.eqb_neq in Hne. by rewrite Hne.
      + split; [|rewrite Hacc, length_app; cbn; lia].
        exists (length (heap w)). rewrite Hacc. split.
        * apply elem_of_app. right. by apply list_elem_of_singleton.
        * unfold deref. rewrite Hh, lookup_app_r by lia.
          by rewrite Nat.sub_diag. }
  destruct Hhas as ((r & Hin & Ht) & Hlen).
  split; [by rewrite importFromOpenCodeAuth_run|].
  split; [eauto|]. split; [exact Hlen|]. split.
  - intros (r0 & Hin0 & Ht0). unfold w1. by rewrite (Hfound w r0 Hin0 Ht0).
  - by apply (Hfound w1 r).
Qed.

(** The host's credentials are imported into an empty store, twice: one
    account. *)
Lemma importFromOpenCodeAuth_adds_once_witness :
  let E := sampleEnv RefreshFailed 200 in
  let auth := mkOpenAIAuth (Some "oauth") (Some "rt-host") (Some "jwt") (Some 1) in
  let w1 := snd (importFromOpenCodeAuth E (AuthJson (Some auth))
                   (newManager (sampleConfig Sticky) FileMissing)) in
  importFromOpenCodeAuth E (AuthJson (Some auth)) w1 = (Ok tt, w1).
Proof.
  intros E auth w1.
  destruct (importFromOpenCodeAuth_adds_once E
              (newManager (sampleConfig Sticky) FileMissing) auth
              (Forall_nil_2 _) eq_refl eq_refl) as (_ & _ & _ & _ & Hidem).
  exact Hidem.
Defined.

(** X14. [importFromOpenCodeAuth] never throws, and it leaves the store as it is
    when the host's file is missing, cannot be read or parsed, has no
    [openai] entry, or has one that is not of type "oauth" or lacks a
    refresh token. Unlike [loadFromDisk], it does not reset the store on a
    file it cannot parse. *)
Theorem importFromOpenCodeAuth_ignores_unusable (E : Env) (w : World)
    (authFile : OpenCodeAuthFile) :
  fst (importFromOpenCodeAuth E authFile w) = Ok tt /\
  (authFile = AuthMissing \/ authFile = AuthCorrupt \/ authFile = AuthJson None \/
   (exists auth, authFile = AuthJson (Some auth) /\
      (authType auth <> Some "oauth" \/ truthyS (authRefresh auth) = false)) ->
   importFromOpenCodeAuth E authFile w = (Ok tt, w)).
Proof.
  rewrite importFromOpenCodeAuth_run. split; [reflexivity|].
  intros [->|[->|[->|(auth & -> & Hbad)]]]; try reflexivity.
  assert (Hcond : eqS (authType auth) (Some "oauth") && truthyS (authRefresh auth) = false).
  { destruct Hbad as [Hty|Hrt]; [|by rewrite Hrt, andb_false_r].
    destruct (eqS (authType auth) (Some "oauth")) eqn:Heq; [|reflexivity].
    apply eqS_eq in Heq. contradiction. }
  by rewrite Hcond.
Qed.

(** A pool of three and a host file that cannot be parsed: the pool
    stays. *)
Lemma importFromOpenCodeAuth_ignores_unusable_witness :
  let w := samplePool Sticky threeAccounts in
  importFromOpenCodeAuth (sampleEnv RefreshFailed 200) AuthCorrupt w = (Ok tt, w).
Proof.
  intros w.
  destruct (importFromOpenCodeAuth_ignores_unusable (sampleEnv RefreshFailed 200) w
              AuthCorrupt) as (_ & Hkeep).
  apply Hkeep. right. by left.
Defined.

(** ** Further properties of the orchestrator *)

(** *** No account to use *)

Lemma logs_selectAt i r now :
  preserves (fun w => (fetchLog w, refreshLog w)) (selectAt i r now).
Proof. unfold selectAt. pres_tac. Qed.
#[local] Hint Resolve logs_selectAt : pres.

Lemma logs_scanLoop model now start remaining :
  forall attempts,
    preserves (fun w => (fetchLog w, refreshLog w))
              (scanLoop model now start remaining attempts).
Proof. induction remaining as [|n IH]; intros attempts; cbn [scanLoop]; pres_tac. Qed.
#[local] Hint Resolve logs_scanLoop : pres.

Lemma logs_getNextAvailableAccount E model :
  preserves (fun w => (fetchLog w, refreshLog w)) (getNextAvailableAccount E model).
Proof.
  unfold getNextAvailableAccount, initializeStrategyState, normalizeIndex,
    getLeastRateLimitedAccount.
  pres_tac.
Qed.

(** No activation of [executeRequest] answers with the plugin's 503. *)
Lemma executeStep_not_503 E body a rc w st w' :
  executeStep E body a rc w <> (Ok (Done (Synthetic st NoAvailableAccounts)), w').
Proof.
  unfold executeStep. intros H.
  apply bind_Ok_inv in H as (isTokenValid & w1 & _ & H).
  destruct isTokenValid; cbn [negb] in H.
  - apply bind_Ok_inv in H as ([model isStreaming] & w2 & _ & H).
    rewrite run_get in H. cbn zeta in H.
    match type of H with (if ?c then _ else _) _ = _ => destruct c end;
      [discriminate H|].
    apply bind_Ok_inv in H as (response & w3 & _ & H).
    unfold classifyResponse in H.
    apply bind_Ok_inv in H as (r429 & w4 & H429 & H).
    destruct r429 as [o|].
    { injection H as -> <-.
      apply onTooManyRequests_recurse in H429 as (_ & n & Hn). discriminate Hn. }
    apply bind_Ok_inv in H as (r401 & w5 & H401 & H).
    destruct r401 as [o|].
    { injection H as -> <-.
      apply onUnauthorized_recurse in H401 as (_ & n & Hn). discriminate Hn. }
    destruct (negb (responseOk response)); discriminate H.
  - unfold onInvalidToken in H.
    apply bind_Ok_inv in H as (nx & w2 & _ & H).
    apply bind_Ok_inv in H as (o & w3 & Hf & H).
    destruct o as [o|]; [|discriminate H].
    injection H as -> <-.
    apply failover_recurse in Hf as (_ & n & Hn & _). discriminate Hn.
Qed.

Lemma executeRequest_not_503 E body fuel : forall a rc w st w',
  executeRequest E fuel body a rc w <> Some (Ok (Synthetic st NoAvailableAccounts), w').
Proof.
  induction fuel as [|fuel IH]; intros a rc w st w'; cbn [executeRequest]; [discriminate|].
  destruct (executeStep E body a rc w) as [[[reply|n rc']|e] w1] eqn:Hs.
  - intros [= -> <-]. by apply executeStep_not_503 in Hs.
  - apply IH.
  - discriminate.
Qed.

(** X17. The plugin's [fetch] answers 503 "No available OpenAI accounts"
    exactly when the pool is empty or every account has reached the
    failure ceiling. It then answers at once, whatever the request, without
    an upstream attempt and without a token refresh. *)
Theorem pluginFetch_503_without_accounts (E : Env) (body : RequestBody) (w : World) :
  cursorOk w ->
  let exhausted :=
    accounts w = [] \/
    forall r, r ∈ accounts w -> consecutiveFailures (deref w r) >= 3 in
  (exhausted -> forall fuel, exists w',
     pluginFetch E fuel body w = Some (Ok (Synthetic 503 NoAvailableAccounts), w') /\
     fetchLog w' = fetchLog w /\ refreshLog w' = refreshLog w) /\
  (forall fuel st w',
     pluginFetch E fuel body w = Some (Ok (Synthetic st NoAvailableAccounts), w') ->
     exhausted).
Proof.
  intros Hc exhausted.
  destruct (getNextAvailableAccount_null_iff E (extractModelFromBody body) w Hc)
    as ((o & Ho) & Hnull).
  pose proof (logs_getNextAvailableAccount E (extractModelFromBody body) w) as Hlogs.
  unfold pluginFetch.
  destruct (getNextAvailableAccount E (extractModelFromBody body) w)
    as [[[account|]|e] w1]; cbn [fst snd] in *; try discriminate.
  - split.
    + intros Hex. apply Hnull in Hex. discriminate.
    + intros fuel st w' H. by apply executeRequest_not_503 in H.
  - split.
    + intros _ fuel. exists w1. injection Hlogs as Hf Hr. by repeat split.
    + intros _ _ _ _. by apply Hnull.
Qed.

(** Two accounts, both at three failures. *)
Lemma pluginFetch_503_without_accounts_witness :
  let w := samplePool Sticky [set_consecutiveFailures 3 (sampleAccount 0 "rt-1");
                              set_consecutiveFailures 3 (sampleAccount 1 "rt-2")] in
  exists w',
    pluginFetch (sampleEnv RefreshFailed 200) 0 NoBody w =
    Some (Ok (Synthetic 503 NoAvailableAccounts), w').
Proof.
  intros w.
  destruct (pluginFetch_503_without_accounts (sampleEnv RefreshFailed 200) NoBody w
              ltac:(intros Hi; discriminate Hi)) as (Hex & _).
  assert (Hall : forall r, r ∈ accounts w -> consecutiveFailures (deref w r) >= 3).
  { intros r Hr.
    repeat (apply elem_of_cons in Hr as [->|Hr]; [vm_compute; discriminate|]).
    by apply elem_of_nil in Hr. }
  destruct (Hex (or_intror Hall) 0%nat) as (w' & Hrun & _).
  by exists w'.
Defined.

(** *** The window of a 429 *)

Lemma noteRateLimit_run E r response model w :
  noteRateLimit E r response model w =
  match retryAfterHeader response with
  | Some parsed =>
    markRateLimited E r (jsArith (fun seconds => seconds * 1000) parsed) model w
  | None =>
    match bodyResetsAt response with
    | Some time =>
      markRateLimited E r (jsArith (fun t => t - dateNow E (tick w)) time) model
        (set_tick (S (tick w)) w)
    | None => markRateLimited E r 60000 model w
    end
  end.
Proof.
  unfold noteRateLimit. destruct (retryAfterHeader response) as [s|].
  - by rewrite run_ret.
  - destruct (bodyResetsAt response).
    + by rewrite run_bind, run_now, run_ret.
    + by rewrite run_ret.
Qed.

(** A window that is [NaN]: the reset written is [NaN], which limits
    nothing. *)
Lemma markRateLimited_nan (E : Env) (w : World) (r : nat) (model : option string) :
  valid w r ->
  let w' := snd (markRateLimited E r NaN model w) in
  fst (markRateLimited E r NaN model w) =
    (if debug (config w) then Throw "RangeError" else Ok tt) /\
  (if truthyS model && perModelRateLimits (config w)
   then rateLimitResets (deref w' r) !! default "" model = Some NaN /\
        globalRateLimitReset (deref w' r) = globalRateLimitReset (deref w r)
   else globalRateLimitReset (deref w' r) = Some NaN /\
        rateLimitResets (deref w' r) = rateLimitResets (deref w r)) /\
  (forall t, isAccountAvailable (config w) (deref w r) model t = true ->
     isAccountAvailable (config w') (deref w' r) model t = true).
Proof.
  intros Hv. cbn zeta. rewrite markRateLimited_any. cbn [fst snd jsArith].
  split; [by destruct (debug (config w))|].
  match goal with |- context [set_heap (alter ?f r (heap w)) ?w0] =>
    set (w' := set_heap (alter f r (heap w)) w0);
    assert (Hd : deref w' r = f (deref w r))
      by (apply (deref_alter_eq w w' f r eq_refl Hv))
  end.
  change (config w') with (config w). rewrite Hd. clearbody w'.
  destruct (truthyS model && perModelRateLimits (config w)) eqn:Hbranch.
  - cbn [rateLimitResets globalRateLimitReset set_rateLimitResets].
    rewrite lookup_insert_eq. split; [done|].
    intros t. unfold isAccountAvailable.
    cbn [consecutiveFailures globalRateLimitReset rateLimitResets set_rateLimitResets].
    destruct (consecutiveFailures (deref w r) >=? 3); [discriminate|].
    destruct (truthyN (globalRateLimitReset (deref w r)) && _); [discriminate|].
    by rewrite Hbranch, lookup_insert_eq.
  - cbn [rateLimitResets globalRateLimitReset set_globalRateLimitReset].
    split; [done|].
    intros t. unfold isAccountAvailable.
    cbn [consecutiveFailures globalRateLimitReset rateLimitResets set_globalRateLimitReset].
    destruct (consecutiveFailures (deref w r) >=? 3); [discriminate|].
    destruct (truthyN (globalRateLimitReset (deref w r)) && _); [discriminate|].
    cbn [truthyN andb]. by rewrite Hbranch.
Qed.

(** X18. How long a 429 keeps the account out. With a [Retry-After] header
    that [parseInt] reads as [s] seconds the account is unavailable for
    the model until [s] seconds after now, whatever the body says;
    without the header and without a reset time in the body, for one
    minute; with a reset time in the body only, until that time, moved by
    what the clock advanced between the orchestrator's reading and
    [markRateLimited]'s own. In these cases nothing is thrown unless
    debug output is on and the instant is outside the range of [Date]. A
    [Retry-After] header that is not a number (an HTTP date, say), or
    without a header a [resets_at] that is not a date, makes the window
    [NaN]: the reset recorded for the model (the global one without a
    model or with per-model limits off) is [NaN], which limits nothing,
    so an account that was available stays available although it has
    just been refused; with debug output on, the call then ends in the
    RangeError of [toISOString]. *)
Theorem retry_after_sets_the_window (E : Env) (w : World) (r : nat)
    (response : Response) (model : option string) :
  valid w r ->
  let w' := snd (noteRateLimit E r response model w) in
  let blockedBefore (limit : Z) : Prop :=
    fst (noteRateLimit E r response model w) =
      (if debug (config w) && negb (validTime limit)
       then Throw "RangeError" else Ok tt) /\
    forall t, 0 <= t < limit ->
      isAccountAvailable (config w') (deref w' r) model t = false in
  (forall s : Z, retryAfterHeader response = Some (Num s) ->
     blockedBefore (dateNow E (tick w) + s * 1000)) /\
  (retryAfterHeader response = None -> bodyResetsAt response = None ->
     blockedBefore (dateNow E (tick w) + 60000)) /\
  (retryAfterHeader response = None ->
   forall resetsAt : Z, bodyResetsAt response = Some (Num resetsAt) ->
     blockedBefore (resetsAt + (dateNow E (S (tick w)) - dateNow E (tick w)))) /\
  (retryAfterHeader response = Some NaN \/
   (retryAfterHeader response = None /\ bodyResetsAt response = Some NaN) ->
     fst (noteRateLimit E r response model w) =
       (if debug (config w) then Throw "RangeError" else Ok tt) /\
     (if truthyS model && perModelRateLimits (config w)
      then rateLimitResets (deref w' r) !! default "" model = Some NaN /\
           globalRateLimitReset (deref w' r) = globalRateLimitReset (deref w r)
      else globalRateLimitReset (deref w' r) = Some NaN /\
           rateLimitResets (deref w' r) = rateLimitResets (deref w r)) /\
     (forall t, isAccountAvailable (config w) (deref w r) model t = true ->
        isAccountAvailable (config w') (deref w' r) model t = true)).
Proof.
  intros Hv w' blockedBefore. unfold blockedBefore, w'.
  rewrite noteRateLimit_run. split; [|split; [|split]].
  - intros s ->. cbn [jsArith]. split; [by rewrite markRateLimited_any|].
    exact (markRateLimited_blocked E w r (s * 1000) model Hv).
  - intros -> ->. split; [by rewrite markRateLimited_any|].
    exact (markRateLimited_blocked E w r 60000 model Hv).
  - intros -> resetsAt ->. cbn [jsArith].
    split.
    { rewrite markRateLimited_any. cbn [fst jsArith tick config set_tick].
      by replace (dateNow E (S (tick w)) + (resetsAt - dateNow E (tick w)))
        with (resetsAt + (dateNow E (S (tick w)) - dateNow E (tick w))) by lia. }
    assert (Hv' : valid (set_tick (S (tick w)) w) r) by exact Hv.
    pose proof (markRateLimited_blocked E (set_tick (S (tick w)) w) r
                  (resetsAt - dateNow E (tick w)) model Hv') as Hblock.
    cbn [tick set_tick] in Hblock. intros t Ht'. apply Hblock. lia.
  - intros [->|[-> ->]]; cbn [jsArith].
    + exact (markRateLimited_nan E w r model Hv).
    + assert (Hv' : valid (set_tick (S (tick w)) w) r) by exact Hv.
      exact (markRateLimited_nan E (set_tick (S (tick w)) w) r model Hv').
Qed.

(** A 429 with [Retry-After: 120]: ninety seconds later the account is
    still out. The same 429 with an HTTP date in the header: the account
    is available at once. *)
Lemma retry_after_sets_the_window_witness :
  let E := sampleEnv RefreshFailed 429 in
  let w := samplePool Sticky threeAccounts in
  let model := Some "gpt-5.2-codex" in
  let seconds := mkResponse 429 (Some (Num 120)) (Some (Num 1)) false in
  let httpDate := mkResponse 429 (Some NaN) None false in
  let w1 := snd (noteRateLimit E 0%nat seconds model w) in
  let w2 := snd (noteRateLimit E 0%nat httpDate model w) in
  isAccountAvailable (config w1) (deref w1 0%nat) model (1700000000000 + 90000) = false /\
  isAccountAvailable (config w2) (deref w2 0%nat) model 1700000000000 = true.
Proof.
  intros E w model seconds httpDate w1 w2.
  assert (Hv : valid w 0%nat) by (vm_compute; lia).
  split.
  - destruct (retry_after_sets_the_window E w 0%nat seconds model Hv)
      as (Hheader & _).
    destruct (Hheader 120 eq_refl) as (_ & Hblock). apply Hblock.
    vm_compute. split; [discriminate|reflexivity].
  - destruct (retry_after_sets_the_window E w 0%nat httpDate model Hv)
      as (_ & _ & _ & Hnan).
    destruct (Hnan (or_introl eq_refl)) as (_ & _ & Hstay).
    apply Hstay. reflexivity.
Defined.

(** *** A usage limit reported as 404 *)

(** X19. A 404 is neither a 429 nor a 401 to the orchestrator: the response
    goes to [handleErrorResponse], which relabels it as a 429 when its
    body reports a usage limit and passes it on as it is otherwise. In
    both cases no account is marked rate limited, no failure is counted
    and no other account is tried: the state is left as it was. *)
Theorem usage_limit_404_is_not_retried (E : Env) (account : nat) (response : Response)
    (model : option string) (isStreaming : bool) (rc : Z) (w : World) :
  status response = NOT_FOUND ->
  classifyResponse E account response model isStreaming rc w =
    (Ok (Done (ErrorReply (handleErrorResponse response))), w) /\
  (usageLimitBody response = true ->
     status (handleErrorResponse response) = TOO_MANY_REQUESTS) /\
  (usageLimitBody response = false -> handleErrorResponse response = response).
Proof.
  intros Hst. split; [|split].
  - unfold classifyResponse, onTooManyRequests, onUnauthorized, responseOk.
    rewrite Hst. reflexivity.
  - intros Hb. unfold handleErrorResponse, mapUsageLimit404. rewrite Hst, Hb. reflexivity.
  - intros Hb. unfold handleErrorResponse, mapUsageLimit404. rewrite Hst, Hb. reflexivity.
Qed.

(** A 404 with a usage-limit body reaches the caller as a 429. *)
Lemma usage_limit_404_is_not_retried_witness :
  let response := mkResponse 404 None None true in
  let w := samplePool Sticky threeAccounts in
  classifyResponse (sampleEnv RefreshFailed 404) 0%nat response None false 0 w =
    (Ok (Done (ErrorReply (mkResponse 429 None None true))), w).
Proof.
  intros response w.
  destruct (usage_limit_404_is_not_retried (sampleEnv RefreshFailed 404) 0%nat response
              None false 0 w eq_refl) as (Hrun & _).
  exact Hrun.
Defined.

(** *** A request body that is not JSON *)

(** X20. The plugin's [fetch] reads the model from the body and treats a body
    it cannot parse as one without a model; [executeRequest] parses the
    body again, outside of any [try]. With an account to select whose
    token needs no refresh, a request with such a body is rejected with
    the parser's exception, and no upstream attempt is made. *)
Theorem unparseable_body_is_rejected (E : Env) (w : World) (fuel : nat) :
  cursorOk w -> tokensFresh w ->
  (exists r, r ∈ accounts w /\ consecutiveFailures (deref w r) < 3) ->
  extractModelFromBody BodyUnparseable = None /\
  exists w',
    pluginFetch E (S fuel) BodyUnparseable w = Some (Throw "SyntaxError", w') /\
    fetchLog w' = fetchLog w.
Proof.
  intros Hc Hfresh (r & Hin & Hlt). split; [reflexivity|].
  destruct (getNextAvailableAccount_null_iff E None w Hc) as ((o & Ho) & Hnull).
  pose proof (fetchLog_getNextAvailableAccount E None w) as Hlog.
  pose proof (expiries_getNextAvailableAccount E None w) as Hexp.
  unfold pluginFetch. cbn [extractModelFromBody].
  destruct (getNextAvailableAccount E None w) as [[[account|]|e] w1];
    cbn [fst snd] in *; try discriminate.
  - exists w1. split; [|exact Hlog].
    cbn [executeRequest]. unfold executeStep.
    assert (Hf1 : tokensFresh w1) by (by apply (tokensFresh_expiries w)).
    rewrite (run_ok _ _ _ _ _ (ensureValidToken_unset E w1 account (Hf1 account))).
    reflexivity.
  - exfalso. destruct (proj1 Hnull eq_refl) as [He|Hall].
    + rewrite He in Hin. by apply elem_of_nil in Hin.
    + specialize (Hall r Hin). lia.
Qed.

(** Three usable accounts and a body that is not JSON. *)
Lemma unparseable_body_is_rejected_witness :
  exists w',
    pluginFetch (sampleEnv RefreshFailed 200) 1 BodyUnparseable
      (samplePool Sticky threeAccounts) = Some (Throw "SyntaxError", w').
Proof.
  assert (Hc : cursorOk (samplePool Sticky threeAccounts))
    by (intros Hi; discriminate Hi).
  assert (Hfresh : tokensFresh (samplePool Sticky threeAccounts))
    by (intros [|[|[|r]]]; reflexivity).
  assert (Hsome : exists r, r ∈ accounts (samplePool Sticky threeAccounts) /\
            consecutiveFailures (deref (samplePool Sticky threeAccounts) r) < 3).
  { exists 0%nat. split; [by left|vm_compute; reflexivity]. }
  destruct (unparseable_body_is_rejected (sampleEnv RefreshFailed 200)
              (samplePool Sticky threeAccounts) 0 Hc Hfresh Hsome)
    as (_ & w' & Hrun & _).
  by exists w'.
Defined.

(** *** Failover after an account is removed *)

Lemma limits_available w w' c x model t :
  limits w' = limits w ->
  isAccountAvailable c (deref w' x) model t = isAccountAvailable c (deref w x) model t.
Proof.
  unfold limits, deref. intros Hl.
  assert (Hx : (fun a => (consecutiveFailures a, globalRateLimitReset a, rateLimitResets a))
                 <$> (heap w' !! x) =
               (fun a => (consecutiveFailures a, globalRateLimitReset a, rateLimitResets a))
                 <$> (heap w !! x))
    by (by rewrite <- !list_lookup_fmap, Hl).
  destruct (heap w' !! x) as [a'|], (heap w !! x) as [a|]; cbn in Hx; try discriminate;
    [|reflexivity].
  injection Hx as H1 H2 H3. by apply isAccountAvailable_fields.
Qed.

Lemma limits_reindexFrom l : forall i, preserves limits (reindexFrom i l).
Proof. induction l as [|r l IH]; intros i; cbn [reindexFrom]; pres_tac. Qed.
#[local] Hint Resolve limits_reindexFrom : pres.

Lemma limits_removeAccount r : preserves limits (removeAccount r).
Proof. unfold removeAccount. pres_tac. Qed.

Lemma limits_selectAt i r now : preserves limits (selectAt i r now).
Proof. unfold selectAt. pres_tac. Qed.

Lemma tick_reindexFrom l : forall i, preserves tick (reindexFrom i l).
Proof. induction l as [|r l IH]; intros i; cbn [reindexFrom]; pres_tac. Qed.
#[local] Hint Resolve tick_reindexFrom : pres.

Lemma tick_removeAccount r : preserves tick (removeAccount r).
Proof. unfold removeAccount. pres_tac. Qed.

(** Removing the account at position [p] when it is the active one and
    has a successor: the successor takes its position and its index,
    while the removed object keeps the index it had. *)
Lemma removeAccount_successor w r r2 p :
  poolOk w -> dense w -> accounts w !! p = Some r -> accounts w !! S p = Some r2 ->
  activeIndex w = Z.of_nat p ->
  let w' := snd (removeAccount r w) in
  accounts w' = delete p (accounts w) /\ accounts w' !! p = Some r2 /\
  activeIndex w' = Z.of_nat p /\ strategyInitialized w' = false /\
  config w' = config w /\
  index (deref w' r) = Z.of_nat p /\ index (deref w' r2) = Z.of_nat p /\
  limits w' = limits w /\ fetchLog w' = fetchLog w /\ tick w' = tick w.
Proof.
  intros [Hnd Hval] Hd Hp Hp2 Hact.
  assert (Hf : findIndex (fun r' => index (deref w r') =? index (deref w r)) (accounts w)
               = Some p).
  { apply findIndex_Some. exists r. repeat split; [exact Hp|apply Z.eqb_refl|].
    intros j y Hj Hy. apply Z.eqb_neq. rewrite (Hd j y Hy), (Hd p r Hp). lia. }
  pose proof (limits_removeAccount r w) as Hlim.
  pose proof (fetchLog_removeAccount r w) as Hlog.
  pose proof (tick_removeAccount r w) as Htick.
  cbn zeta. rewrite (removeAccount_found w r p Hf) in *. cbn [fst snd] in *.
  set (w1 := set_accounts (delete p (accounts w)) w) in *.
  assert (Hnd1 : NoDup (accounts w1)).
  { unfold w1. cbn. exact (sublist_NoDup _ _ Hnd (sublist_delete _ _)). }
  assert (Hval1 : Forall (valid w1) (accounts w1)).
  { unfold w1. cbn. by apply Forall_delete. }
  destruct (reindexFrom_spec (accounts w1) 0 w1 Hnd1 Hval1)
    as (Hidx & Hout & _ & Hacc & Hact2 & _ & _ & Hcfg).
  set (w2 := snd (reindexFrom 0 (accounts w1) w1)) in *.
  change (accounts w1) with (delete p (accounts w)) in *.
  change (activeIndex w1) with (activeIndex w) in Hact2.
  assert (Hp' : delete p (accounts w) !! p = Some r2).
  { by rewrite list_lookup_delete_ge by lia. }
  assert (Hcount : Z.of_nat p < getAccountCount w1).
  { unfold getAccountCount, w1. cbn. pose proof (lookup_lt_Some _ _ _ Hp'). lia. }
  assert (Hge : (activeIndex w >=? getAccountCount w1) = false).
  { rewrite Z.geb_leb. apply Z.leb_gt. lia. }
  rewrite Hge in *.
  assert (Hnot : r ∉ delete p (accounts w)) by (by apply not_elem_of_delete).
  split; [exact Hacc|]. split; [cbn; by rewrite Hacc|].
  split; [cbn; lia|]. split; [reflexivity|]. split; [exact Hcfg|].
  split.
  { change (index (deref w2 r) = Z.of_nat p). rewrite (Hout r Hnot).
    change (deref w1 r) with (deref w r). by apply Hd. }
  split.
  { change (index (deref w2 r2) = Z.of_nat p). rewrite (Hidx p r2 Hp'). lia. }
  split; [exact Hlim|]. split; [exact Hlog|exact Htick].
Qed.

Lemma markRefreshFailed_removed r e w :
  removeOnInvalidGrant (config w) = true -> includes "invalid_grant" e = true ->
  markRefreshFailed r e w =
  removeAccount r
    (set_heap (alter (fun a => set_isRefreshing (Some false)
                        (set_lastRefreshError (Some e)
                           (set_consecutiveFailures (consecutiveFailures a + 1) a)))
                     r (heap w)) w).
Proof.
  intros Hrm He. unfold markRefreshFailed.
  repeat (rewrite run_assign; wnorm). rewrite run_get. wnorm. rewrite Hrm, He.
  cbn [andb]. by rewrite !list_alter_alter_eq.
Qed.

(** X21. The request that loses its account to an [invalid_grant] does not fail
    over to the account that takes its place. Sticky selection, the
    active account at position [p] with a successor: the refresh endpoint
    rejects the active account's token with [invalid_grant], the account
    is removed and the successor moves up to position [p] and to index
    [p]. The reselection returns the successor, which is available, but
    the account object the request still holds has index [p] too, so the
    indices do not differ and the request ends with the synthetic 401
    "All accounts failed token refresh", without an upstream attempt. The
    successor is the active account for the next request. *)
Theorem removed_account_blocks_failover (E : Env) (body : RequestBody) (w : World)
    (r r2 : nat) (p : nat) (rc : Z) (err : string) :
  poolOk w -> dense w ->
  accounts w !! p = Some r -> accounts w !! S p = Some r2 ->
  activeIndex w = Z.of_nat p ->
  accountSelectionStrategy (config w) = Sticky ->
  pidOffsetEnabled (config w) = false ->
  removeOnInvalidGrant (config w) = true ->
  needsRefresh (config w) (deref w r) (dateNow E (tick w)) ->
  truthyB (isRefreshing (deref w r)) = false ->
  refreshAccessToken E (S (tick w)) (refreshToken (deref w r)) = RefreshThrows err ->
  includes "invalid_grant" err = true ->
  alwaysAvailable (config w) (deref w r2) None ->
  let result := executeStep E body r rc w in
  fst result = Ok (Done (Synthetic UNAUTHORIZED AllAccountsFailedTokenRefresh)) /\
  (r ∉ accounts (snd result)) /\ r2 ∈ accounts (snd result) /\
  getActiveAccount (snd result) = Some r2 /\
  alwaysAvailable (config (snd result)) (deref (snd result) r2) None /\
  fetchLog (snd result) = fetchLog w.
Proof.
  intros Hok Hd Hp Hp2 Hact Hsticky Hpid Hrm Hneeds Hflag Hthrow Hinv Havail result.
  destruct Hok as [Hnd Hval].
  assert (Hne12 : r <> r2).
  { intros <-. pose proof (NoDup_lookup _ _ _ _ Hnd Hp Hp2). lia. }
  (* the token check *)
  pose proof (ensureValidToken_refresh E w r Hneeds Hflag) as Htoken.
  rewrite Hthrow in Htoken.
  set (w0 := refreshing w r) in *.
  rewrite (markRefreshFailed_removed r err w0 Hrm Hinv) in Htoken.
  set (g := fun a => set_isRefreshing (Some false)
              (set_lastRefreshError (Some err)
                 (set_consecutiveFailures (consecutiveFailures a + 1) a))) in *.
  set (w1 := set_heap (alter g r (heap w0)) w0) in *.
  assert (Hh1 : heap w1 = alter (g ∘ set_isRefreshing (Some true)) r (heap w)).
  { unfold w1, w0, refreshing. cbn. by rewrite list_alter_alter_eq. }
  assert (Hok1 : poolOk w1).
  { split; [exact Hnd|]. eapply Forall_impl; [exact Hval|].
    intros x Hx. unfold valid. by rewrite Hh1, length_alter. }
  assert (Hidx1 : forall x, index (deref w1 x) = index (deref w x)).
  { intros x. unfold deref. rewrite Hh1. destruct (decide (r = x)) as [->|Hne].
    - rewrite list_lookup_alter_eq. by destruct (heap w !! x).
    - by rewrite list_lookup_alter_ne. }
  assert (Hd1 : dense w1).
  { intros j x Hj. rewrite Hidx1. by apply Hd. }
  assert (Hr2 : deref w1 r2 = deref w r2).
  { apply (deref_alter_ne w w1 _ r r2 Hh1 Hne12). }
  destruct (removeAccount_successor w1 r r2 p Hok1 Hd1 Hp Hp2 Hact)
    as (Hacc & Hp' & HactA & HiniA & HcfgA & HidxA & Hidx2A & HlimA & HlogA & HtickA).
  set (wA := snd (removeAccount r w1)) in *.
  change (config w1) with (config w) in HcfgA.
  change (fetchLog w1) with (fetchLog w) in HlogA.
  change (accounts w1) with (accounts w) in Hacc.
  (* the reselection *)
  assert (HneA : accounts wA <> []).
  { intros He. rewrite He in Hp'. discriminate. }
  assert (HcA : cursorOk wA) by (intros Hi; congruence).
  assert (HcountA : Z.of_nat p < getAccountCount wA).
  { unfold getAccountCount. pose proof (lookup_lt_Some _ _ _ Hp'). lia. }
  pose proof (initializeStrategyState_run E wA HiniA HneA) as Hinit.
  cbn zeta in Hinit. rewrite HactA, HcfgA, Hpid in Hinit.
  assert (Hhy : isHybrid (config w) = false) by (unfold isHybrid; by rewrite Hsticky).
  assert (Hrr : isRoundRobin (config w) = false)
    by (unfold isRoundRobin; by rewrite Hsticky).
  rewrite Hhy in Hinit. cbn [andb] in Hinit.
  assert (Hnorm : ((Z.of_nat p <? 0) || (Z.of_nat p >=? getAccountCount wA)) = false).
  { apply orb_false_iff. split; [apply Z.ltb_ge; lia|].
    rewrite Z.geb_leb. apply Z.leb_gt. lia. }
  rewrite Hnorm in Hinit.
  assert (Hsmall : jsRem (Z.of_nat p) (getAccountCount wA) = Z.of_nat p).
  { rewrite jsRem_mod by lia. apply Z.mod_small. lia. }
  pose proof (getNextAvailableAccount_first E None wA r2 HneA HcA) as Hfirst.
  cbn zeta in Hfirst. rewrite Hinit in Hfirst. cbn [snd tick] in Hfirst.
  assert (Hget : arrayGet (accounts wA) (Z.of_nat p) = Some r2).
  { unfold arrayGet.
    assert (Hneg : (Z.of_nat p <? 0) = false) by (apply Z.ltb_ge; lia).
    by rewrite Hneg, Nat2Z.id. }
  assert (Hscan : scanned (mkWorld (heap wA) (accounts wA) (Z.of_nat p) (Z.of_nat p) true
                             (config w) (disk wA) (tick wA) (refreshLog wA) (fetchLog wA))
                    0 = Some r2).
  { unfold scanned, startIndexOf, getAccountCount. cbn [config accounts activeIndex
      roundRobinCursor]. rewrite Hrr, Z.add_0_r.
    change (Z.of_nat (length (accounts wA))) with (getAccountCount wA).
    by rewrite Hsmall. }
  assert (HavA : forall t, isAccountAvailable (config w) (deref wA r2) None t = true).
  { intros t. rewrite (limits_available w1 wA _ r2 None t HlimA), Hr2. apply Havail. }
  rewrite HcfgA in Hfirst. specialize (Hfirst Hscan (HavA _)).
  rewrite selectAt_run in Hfirst. cbn [snd config set_tick] in Hfirst.
  rewrite Hrr in Hfirst. unfold startIndexOf in Hfirst.
  cbn [config activeIndex roundRobinCursor] in Hfirst. rewrite Hrr in Hfirst.
  change (getAccountCount (set_tick _ _)) with (getAccountCount wA) in Hfirst.
  rewrite Hsmall in Hfirst.
  match type of Hfirst with _ = (_, ?w0) => set (wB := w0) in * end.
  assert (HidxB : forall x, index (deref wB x) = index (deref wA x)).
  { intros x. unfold deref, wB. cbn. destruct (decide (r2 = x)) as [->|Hne].
    - rewrite list_lookup_alter_eq. by destruct (heap wA !! x).
    - by rewrite list_lookup_alter_ne. }
  (* the activation as a whole *)
  assert (Hrun : executeStep E body r rc w =
                 (Ok (Done (Synthetic UNAUTHORIZED AllAccountsFailedTokenRefresh)), wB)).
  { unfold executeStep. rewrite (run_ok _ _ _ _ _ Htoken). cbn [negb].
    unfold onInvalidToken. fold wA. rewrite (run_ok _ _ _ _ _ Hfirst).
    rewrite (run_ok _ _ _ _ _ (failover_run r (Some r2) rc wB)).
    rewrite !HidxB, HidxA, Hidx2A, Z.eqb_refl. reflexivity. }
  unfold result. rewrite Hrun. cbn [fst snd].
  assert (HaccB : accounts wB = delete p (accounts w)) by (unfold wB; cbn; exact Hacc).
  split; [reflexivity|]. split; [|split; [|split; [|split]]].
  - rewrite HaccB. by apply not_elem_of_delete.
  - rewrite HaccB, <- Hacc. apply list_elem_of_lookup. eauto.
  - apply (getActiveAccount_at wB (accounts wA) (Z.of_nat p)); [reflexivity|exact Hget|].
    reflexivity.
  - intros t. change (config wB) with (config w).
    rewrite <- (HavA t). apply isAccountAvailable_fields; unfold deref, wB; cbn;
      rewrite list_lookup_alter_eq; by destruct (heap wA !! r2).
  - change (fetchLog wB) with (fetchLog wA). exact HlogA.
Qed.

(** Two accounts in sticky mode; the first one's token has expired and
    its refresh token is rejected. The request ends with the 401 although
    the second account is fine. *)
Lemma removed_account_blocks_failover_witness :
  let E := sampleEnv (RefreshThrows "Error: invalid_grant") 200 in
  let w := samplePool Sticky [set_expires (Some 1) (sampleAccount 0 "rt-1");
                              sampleAccount 1 "rt-2"] in
  fst (executeStep E NoBody 0%nat 0 w)
  = Ok (Done (Synthetic UNAUTHORIZED AllAccountsFailedTokenRefresh)).
Proof.
  intros E w.
  assert (Hok : poolOk w).
  { split; [|repeat constructor; vm_compute; lia].
    apply (bool_decide_unpack _). by vm_compute. }
  assert (Hd : dense w).
  { intros [|[|j]] r' Hj; cbn in Hj; try discriminate; injection Hj as <-; reflexivity. }
  assert (Hneeds : needsRefresh (config w) (deref w 0%nat) (dateNow E (tick w))).
  { exists 1. split; [reflexivity|]. split; [discriminate|]. vm_compute. discriminate. }
  assert (Hav : alwaysAvailable (config w) (deref w 1%nat) None).
  { intros t. by apply isAccountAvailable_unlimited. }
  destruct (removed_account_blocks_failover E NoBody w 0%nat 1%nat 0%nat 0
              "Error: invalid_grant" Hok Hd eq_refl eq_refl eq_refl eq_refl eq_refl
              eq_refl Hneeds eq_refl eq_refl eq_refl Hav) as (Hres & _).
  exact Hres.
Defined.

(** ** Further properties of the usage-snapshot tracker *)

Module CodexStatusFacts.
Import CodexStatusManager.
Import CodexStatus.

Section Values.
Context {V : Type} (P : V -> Prop).
Implicit Types (m : JsMap V) (k : string) (v : V).

Let all m : Prop := Forall (fun kv => P (snd kv)) m.

Lemma all_mapGet k v m : all m -> mapGet k m = Some v -> P v.
Proof.
  unfold all. induction m as [|[k0 v0] m IH]; cbn; [discriminate|].
  intros Hall. apply Forall_cons in Hall as [H0 Hall].
  destruct (String.eqb k0 k); [by intros [= <-]|by apply IH].
Qed.

Lemma all_mapSet k v m : P v -> all m -> all (mapSet k v m).
Proof.
  unfold all. intros Hv. induction m as [|[k0 v0] m IH]; cbn; intros Hall.
  - by apply Forall_singleton.
  - apply Forall_cons in Hall as [H0 Hall].
    destruct (String.eqb k0 k); apply Forall_cons; split; auto.
Qed.

Lemma all_mapDelete k m : all m -> all (mapDelete k m).
Proof.
  unfold all. induction m as [|[k0 v0] m IH]; cbn; intros Hall; [done|].
  apply Forall_cons in Hall as [H0 Hall].
  destruct (String.eqb k0 k); [by apply IH|].
  apply Forall_cons. split; [exact H0|by apply IH].
Qed.

Lemma all_mapOfEntries (entries : list (string * V)) :
  all entries -> all (mapOfEntries entries).
Proof.
  unfold mapOfEntries.
  assert (H : forall acc : JsMap V, all acc -> all entries ->
            all (fold_left (fun m kv => mapSet (fst kv) (snd kv) m) entries acc)).
  { induction entries as [|[k v] entries IH]; intros acc Hacc He; cbn; [done|].
    apply Forall_cons in He as [Hv He]. apply IH; [|exact He]. by apply all_mapSet. }
  apply H. apply Forall_nil_2.
Qed.

(** A list of entries without a repeated key is the map it builds. *)
Lemma mapSet_new k v m : k ∉ (fst <$> m) -> mapSet k v m = m ++ [(k, v)].
Proof.
  induction m as [|[k0 v0] m IH]; cbn; [done|].
  rewrite not_elem_of_cons. intros [Hne Hnot].
  assert (H0 : String.eqb k0 k = false) by (apply String.eqb_neq; congruence).
  by rewrite H0, IH.
Qed.

Lemma mapOfEntries_distinct m : distinctKeys m -> mapOfEntries m = m.
Proof.
  unfold mapOfEntries, distinctKeys.
  assert (H : forall acc : JsMap V, NoDup (fst <$> (acc ++ m)) ->
            fold_left (fun m kv => mapSet (fst kv) (snd kv) m) m acc = acc ++ m).
  { induction m as [|[k v] m IH]; intros acc Hnd; cbn; [by rewrite app_nil_r|].
    rewrite mapSet_new.
    - rewrite IH; [by rewrite <- app_assoc|]. by rewrite <- app_assoc.
    - rewrite fmap_app in Hnd. apply NoDup_app in Hnd as (_ & Hdisj & _).
      intros Hin. apply (Hdisj k Hin). cbn. by left. }
  intros Hnd. by rewrite (H [] Hnd).
Qed.

End Values.

Lemma all_mergeLoop (P : CodexRateLimitSnapshot -> Prop) memory : forall diskMap,
  Forall (fun kv => P (snd kv)) memory -> Forall (fun kv => P (snd kv)) diskMap ->
  Forall (fun kv => P (snd kv)) (mergeLoop memory diskMap).
Proof.
  induction memory as [|[k mv] memory IH]; intros diskMap Hm Hd; cbn [mergeLoop]; [done|].
  apply Forall_cons in Hm as [Hv Hm]. apply IH; [exact Hm|].
  destruct (mapGet k diskMap) as [dv|].
  - destruct (updatedAt mv >? updatedAt dv); [by apply all_mapSet|done].
  - by apply all_mapSet.
Qed.

Lemma all_pruneLoop (P : CodexRateLimitSnapshot -> Prop) now todo : forall diskMap,
  Forall (fun kv => P (snd kv)) diskMap ->
  Forall (fun kv => P (snd kv)) (pruneLoop now todo diskMap).
Proof.
  induction todo as [|[k v] todo IH]; intros diskMap Hd; cbn [pruneLoop]; [done|].
  apply IH. destruct (_ >? _); [by apply all_mapDelete|done].
Qed.

Lemma distinctKeys_saveToDisk now t :
  distinctKeys (snapshots t) -> distinctKeys (snapshots (saveToDisk now t)).
Proof.
  intros Hnd. unfold saveToDisk. destruct (file t); cbn [snapshots]; try exact Hnd.
  apply TrackerFacts.distinctKeys_pruneLoop, TrackerFacts.distinctKeys_mergeLoop,
    TrackerFacts.distinctKeys_mapOfEntries.
Qed.

(** X22. What [saveToDisk] writes, a new tracker reads back with [loadFromDisk]:
    its map is the one the writer holds after the save, entry for entry
    and in the same order. A file that is missing, cannot be parsed or is
    not an array leaves a tracker's map as it is. *)
Theorem snapshots_file_round_trip (now : Z) (t : Tracker) :
  distinctKeys (snapshots t) ->
  snapshots (loadFromDisk (tracker (newTracker (file (saveToDisk now t))))) =
    snapshots (saveToDisk now t) /\
  forall t0, (forall entries, file t0 <> SnapArray entries) -> loadFromDisk t0 = t0.
Proof.
  intros Hnd. split.
  - pose proof (distinctKeys_saveToDisk now t Hnd) as Hnd'.
    unfold newTracker, loadFromDisk. cbn [tracker file snapshots saveToDisk].
    by apply mapOfEntries_distinct.
  - intros t0 Hno. unfold loadFromDisk. destruct (file t0); try reflexivity.
    by destruct (Hno entries).
Qed.

(** A tracker with one snapshot and no file yet. *)
Lemma snapshots_file_round_trip_witness :
  let snap := mkSnapshot None "acct" "a@example.com" "plus" 1700000000000 None None None in
  let t := mkTracker [("k", snap)] SnapMissing in
  snapshots (loadFromDisk (tracker (newTracker (file (saveToDisk 1700000000001 t)))))
  = [("k", snap)].
Proof.
  intros snap t.
  destruct (snapshots_file_round_trip 1700000000001 t (NoDup_singleton _)) as (Hload & _).
  exact Hload.
Defined.


Section Headers.

Variables (toLowerCase sha256hex : string -> string).
Variables (numberQ : string -> option Q) (numberZ : string -> option Z).

Lemma mathMax_lower (x : Q) : (0 <= mathMax 0 x)%Q.
Proof.
  unfold mathMax. destruct (Qle_bool 0 x) eqn:H.
  - by apply Qle_bool_iff.
  - apply Qle_refl.
Qed.

Lemma clamp_upper (x : Q) : (mathMax 0 (mathMin 100 x) <= 100)%Q.
Proof.
  assert (Hmin : (mathMin 100 x <= 100)%Q).
  { unfold mathMin. destruct (Qle_bool 100 x) eqn:H; [apply Qle_refl|].
    apply Qlt_le_weak, Qnot_le_lt. intros Hle.
    apply Qle_bool_iff in Hle. congruence. }
  unfold mathMax. destruct (Qle_bool 0 (mathMin 100 x)); [exact Hmin|].
  unfold Qle. cbn. lia.
Qed.

Lemma windowOk_headerWindow used window reset existing :
  windowOk existing -> windowOk (headerWindow used window reset existing).
Proof.
  intros He. unfold headerWindow.
  destruct (notNull used || notNull window || notNull reset); [|exact He].
  cbn [windowOk CodexStatusManager.usedPercent CodexStatusManager.windowMinutes].
  split; [split|]; [apply mathMax_lower|apply clamp_upper|apply mathMax_lower].
Qed.

(** X23. [updateFromHeaders] keeps the usage figures in range. When every
    snapshot in memory and in the file has percentages between 0 and 100
    and window lengths that are not negative, then so it is after the
    call, whatever the headers say: what is read from them is clamped
    before it is stored. *)
Theorem updateFromHeaders_keeps_usage_in_range (now nowSave : Z)
    (account : ManagedAccount) (headers : gmap string string) (m : Manager) :
  trackerOk (tracker m) ->
  trackerOk (tracker (updateFromHeaders toLowerCase sha256hex numberQ numberZ
                        now nowSave account headers m)).
Proof.
  intros [Hmem Hfile].
  assert (H1 : trackerOk (tracker (ensureInitialized m))).
  { unfold ensureInitialized. destruct (initPromise m); [by split|].
    cbn [tracker]. unfold loadFromDisk.
    destruct (file (tracker m)) as [| | |entries] eqn:Hf;
      try (split; [exact Hmem|by rewrite Hf]).
    split; cbn [snapshots file]; [|exact Hfile].
    by apply (all_mapOfEntries snapshotOk). }
  unfold updateFromHeaders. set (m1 := ensureInitialized m) in *.
  destruct H1 as [Hmem1 Hfile1]. cbn [tracker].
  set (key := getSnapshotKey toLowerCase sha256hex account).
  set (existing := mapGet key (snapshots (tracker m1))).
  assert (Hex : forall s, existing = Some s -> snapshotOk s).
  { intros s Hs. by apply (all_mapGet snapshotOk key s (snapshots (tracker m1))). }
  set (snapshot := headerSnapshot toLowerCase numberQ numberZ now account headers existing).
  assert (Hsnap : snapshotOk snapshot).
  { unfold snapshot, headerSnapshot, snapshotOk.
    cbn [CodexStatusManager.primary CodexStatusManager.secondary].
    split; apply windowOk_headerWindow; destruct existing as [s|]; cbn; try done;
      by apply (Hex s). }
  assert (Hset : allOk (mapSet key snapshot (snapshots (tracker m1))))
    by (by apply (all_mapSet snapshotOk)).
  unfold saveToDisk. cbn [file snapshots].
  destruct (file (tracker m1)) as [| | |entries]; try (by split).
  assert (Hres : allOk (pruneLoop nowSave
                          (mergeLoop (mapSet key snapshot (snapshots (tracker m1)))
                             (mapOfEntries entries))
                          (mergeLoop (mapSet key snapshot (snapshots (tracker m1)))
                             (mapOfEntries entries)))).
  { apply all_pruneLoop, all_mergeLoop; [exact Hset|].
    by apply (all_mapOfEntries snapshotOk). }
  by split.
Qed.

End Headers.

(** A response that reports 250 percent: 100 is stored. *)
Lemma updateFromHeaders_keeps_usage_in_range_witness :
  let number (s : string) : option Q := Some 250%Q in
  let instant (s : string) : option Z := None in
  let headers : gmap string string := {[ "x-codex-primary-used-percent" := "250" ]} in
  trackerOk (tracker (updateFromHeaders id id number instant 1700000000000 1700000000001
                        (sampleAccount 0 "rt-1") headers (newTracker SnapMissing))).
Proof.
  intros number instant headers.
  apply updateFromHeaders_keeps_usage_in_range.
  split; [apply Forall_nil_2|exact I].
Defined.


Section Lookup.

Variables (toLowerCase sha256hex : string -> string).
Variables (numberQ : string -> option Q) (numberZ : string -> option Z).

Lemma initPromise_ensureInitialized m : initPromise (ensureInitialized m) = true.
Proof. unfold ensureInitialized. by destruct (initPromise m) eqn:H. Qed.

Lemma ensureInitialized_done m : initPromise m = true -> ensureInitialized m = m.
Proof. unfold ensureInitialized. by intros ->. Qed.

Lemma distinctKeys_ensureInitialized m :
  distinctKeys (snapshots (tracker m)) ->
  distinctKeys (snapshots (tracker (ensureInitialized m))).
Proof.
  intros Hnd. unfold ensureInitialized. destruct (initPromise m); [exact Hnd|].
  cbn [tracker]. unfold loadFromDisk. destruct (file (tracker m)); try exact Hnd.
  apply TrackerFacts.distinctKeys_mapOfEntries.
Qed.

(** The entry that [saveToDisk] leaves for a key that memory holds with a
    time stamp within the retention window. *)
Lemma saveToDisk_keeps_recent nowSave t k v :
  distinctKeys (snapshots t) -> mapGet k (snapshots t) = Some v ->
  nowSave - updatedAt v <= SNAPSHOT_RETENTION_MS ->
  exists s,
    mapGet k (snapshots (saveToDisk nowSave t)) = Some s /\
    updatedAt v <= updatedAt s /\
    (s = v \/ exists entries,
       file t = SnapArray entries /\ mapGet k (mapOfEntries entries) = Some s).
Proof.
  intros Hnd Hget Hrecent. unfold saveToDisk.
  destruct (file t) as [| | |entries] eqn:Hf; cbn [snapshots];
    try (exists v; split; [exact Hget|]; split; [lia|by left]).
  set (merged := mergeLoop (snapshots t) (mapOfEntries entries)).
  assert (Hm : distinctKeys merged)
    by (apply TrackerFacts.distinctKeys_mergeLoop, TrackerFacts.distinctKeys_mapOfEntries).
  rewrite (TrackerFacts.mapGet_prune_self nowSave merged k Hm).
  unfold merged. rewrite (TrackerFacts.mapGet_mergeLoop _ _ _ Hnd), Hget.
  assert (Hkeep : forall s, updatedAt v <= updatedAt s -> expired nowSave s = false).
  { intros s Hs. unfold expired. rewrite Z.gtb_ltb. apply Z.ltb_ge. lia. }
  destruct (mapGet k (mapOfEntries entries)) as [d|] eqn:Hd; cbn [mergedEntry].
  - destruct (updatedAt v >? updatedAt d) eqn:Hnewer.
    + exists v. rewrite (Hkeep v) by lia. split; [reflexivity|]. split; [lia|by left].
    + rewrite Z.gtb_ltb in Hnewer. apply Z.ltb_ge in Hnewer.
      exists d. rewrite (Hkeep d Hnewer). split; [reflexivity|]. split; [exact Hnewer|].
      right. by exists entries.
  - exists v. rewrite (Hkeep v) by lia. split; [reflexivity|]. split; [lia|by left].
Qed.

(** X24. After [updateFromHeaders] for an account at time [now], [getSnapshot]
    for that account finds a snapshot that is at least as recent as [now]:
    the one built from the headers, or an entry of the snapshots file that
    another process wrote later. Up to fifteen minutes after [now] it is
    not reported as stale. (The save that follows the update must not
    come more than the retention time of seven days after [now], or it
    prunes the entry at once.) *)
Theorem updateFromHeaders_then_getSnapshot (now nowSave t : Z) (account : ManagedAccount)
    (headers : gmap string string) (m : Manager) :
  distinctKeys (snapshots (tracker m)) ->
  nowSave - now <= SNAPSHOT_RETENTION_MS ->
  let m' := updateFromHeaders toLowerCase sha256hex numberQ numberZ
              now nowSave account headers m in
  exists s,
    getSnapshot toLowerCase sha256hex t account m' =
      (Some (s, t - updatedAt s >? STALENESS_TTL_MS), m') /\
    now <= updatedAt s /\
    (t - now <= STALENESS_TTL_MS -> (t - updatedAt s >? STALENESS_TTL_MS) = false) /\
    STALENESS_TTL_MS = 900000.
Proof.
  intros Hnd Hsave m'.
  set (m1 := ensureInitialized m).
  pose proof (distinctKeys_ensureInitialized m Hnd) as Hnd1. fold m1 in Hnd1.
  set (key := getSnapshotKey toLowerCase sha256hex account).
  set (snapshot := headerSnapshot toLowerCase numberQ numberZ now account headers
                     (mapGet key (snapshots (tracker m1)))).
  set (t2 := mkTracker (mapSet key snapshot (snapshots (tracker m1))) (file (tracker m1))).
  assert (Hm' : m' = mkManager (saveToDisk nowSave t2) true).
  { unfold m', updateFromHeaders. cbn zeta.
    rewrite (initPromise_ensureInitialized m). reflexivity. }
  assert (Hnd2 : distinctKeys (snapshots t2))
    by (by apply TrackerFacts.distinctKeys_mapSet).
  assert (Hget2 : mapGet key (snapshots t2) = Some snapshot).
  { unfold t2. cbn [snapshots]. by rewrite TrackerFacts.mapGet_mapSet, String.eqb_refl. }
  destruct (saveToDisk_keeps_recent nowSave t2 key snapshot Hnd2 Hget2 Hsave)
    as (s & Hs & Hrecent & _).
  change (updatedAt snapshot) with now in Hrecent.
  exists s. split; [|split; [exact Hrecent|split; [|reflexivity]]].
  - unfold getSnapshot. rewrite (ensureInitialized_done m') by (by rewrite Hm').
    fold key. rewrite Hm' at 1. cbn [tracker]. by rewrite Hs.
  - intros Ht. rewrite Z.gtb_ltb. apply Z.ltb_ge. lia.
Qed.

End Lookup.

(** Headers arrive for an account; ten minutes later its snapshot is
    there and not stale. *)
Lemma updateFromHeaders_then_getSnapshot_witness :
  let number (s : string) : option Q := Some 42%Q in
  let instant (s : string) : option Z := None in
  let headers : gmap string string := {[ "x-codex-primary-used-percent" := "42" ]} in
  let now := 1700000000000 in
  let m' := updateFromHeaders id id number instant now (now + 5)
              (sampleAccount 0 "rt-1") headers (newTracker SnapMissing) in
  exists s, fst (getSnapshot id id (now + 600000) (sampleAccount 0 "rt-1") m')
            = Some (s, false).
Proof.
  intros number instant headers now m'.
  destruct (updateFromHeaders_then_getSnapshot id id number instant now (now + 5)
              (now + 600000) (sampleAccount 0 "rt-1") headers (newTracker SnapMissing)
              (NoDup_nil_2 : distinctKeys (snapshots (tracker (newTracker SnapMissing))))
              ltac:(vm_compute; discriminate))
    as (s & Hget & _ & Hfresh & _).
  exists s. fold m' in Hget. rewrite Hget. cbn [fst].
  rewrite Hfresh; [reflexivity|vm_compute; discriminate].
Defined.

End CodexStatusFacts.

(** ** Properties of the models cache *)

Module CodexModelsFacts.
Import CodexModels.

(** X25. A list of models the endpoint has delivered is served from the cache
    for the next five minutes: a later call for the same account within
    that time returns the same list without asking the endpoint, whatever
    access token it is made with and whatever the endpoint would answer.
    Other accounts' entries are not touched. *)
Theorem fetched_models_are_cached (t0 t1 t t' : Z) (data : option (list ModelInfo))
    (net : ModelsOutcome) (token token' accountId : string)
    (cache : gmap string CacheEntry) :
  snd (fetchAvailableModels t0 t1 (ModelsOk data) token accountId cache) = true ->
  t - t1 < CACHE_TTL_MS ->
  let first := fetchAvailableModels t0 t1 (ModelsOk data) token accountId cache in
  let cache1 := snd (fst first) in
  fst (fst first) = default [] data /\
  fetchAvailableModels t t' net token' accountId cache1 = (default [] data, cache1, false) /\
  (forall other, other <> accountId -> cache1 !! other = cache !! other) /\
  CACHE_TTL_MS = 300000.
Proof.
  intros Hasked Ht. cbn zeta. unfold fetchAvailableModels in *. cbn zeta in *.
  destruct (match cache !! accountId with
            | Some c => t0 - fetchedAt c <? CACHE_TTL_MS
            | None => false
            end); [discriminate Hasked|].
  cbn [fst snd]. split; [reflexivity|]. split; [|split; [|reflexivity]].
  - rewrite lookup_insert_eq. cbn [fetchedAt models fmap option_fmap option_map default].
    assert (Hfresh : (t - t1 <? CACHE_TTL_MS) = true) by (by apply Z.ltb_lt).
    by rewrite Hfresh.
  - intros other Hne. by rewrite lookup_insert_ne.
Qed.

(** Models fetched at one time are still served four minutes later,
    though the endpoint has gone away. *)
Lemma fetched_models_are_cached_witness :
  let m := mkModelInfo "gpt-5.2-codex" "GPT-5.2 Codex" in
  let first := fetchAvailableModels 1000 1001 (ModelsOk (Some [m])) "jwt" "acct" ∅ in
  fetchAvailableModels 240000 240001 ModelsThrows "jwt-2" "acct" (snd (fst first))
  = ([m], snd (fst first), false).
Proof.
  intros m first.
  assert (Hasked : snd (fetchAvailableModels 1000 1001 (ModelsOk (Some [m])) "jwt" "acct" ∅)
                   = true).
  { unfold fetchAvailableModels. cbn zeta. by rewrite lookup_empty. }
  destruct (fetched_models_are_cached 1000 1001 240000 240001 (Some [m]) ModelsThrows
              "jwt" "jwt-2" "acct" ∅ Hasked eq_refl) as (_ & Hhit & _).
  exact Hhit.
Defined.

(** X26. When the endpoint cannot be reached or answers with an error,
    [fetchAvailableModels] does not throw: it returns the list it has in
    the cache for the account, however old, and the empty list when it has
    none; the cache stays as it is. *)
Theorem failed_fetch_falls_back_to_cache (t0 t1 : Z) (net : ModelsOutcome)
    (token accountId : string) (cache : gmap string CacheEntry) :
  (forall data, net <> ModelsOk data) ->
  fst (fetchAvailableModels t0 t1 net token accountId cache) =
  (match cache !! accountId with
   | Some c => models c
   | None => []
   end, cache).
Proof.
  intros Hfail. unfold fetchAvailableModels. cbn zeta.
  destruct (cache !! accountId) as [c|]; cbn [fmap option_fmap option_map default].
  - destruct (t0 - fetchedAt c <? CACHE_TTL_MS); [reflexivity|].
    destruct net as [data| |]; [by destruct (Hfail data)|reflexivity..].
  - destruct net as [data| |]; [by destruct (Hfail data)|reflexivity..].
Qed.

(** An entry from long ago and an endpoint that answers 500. *)
Lemma failed_fetch_falls_back_to_cache_witness :
  let m := mkModelInfo "gpt-5.2-codex" "GPT-5.2 Codex" in
  let cache : gmap string CacheEntry := {[ "acct" := mkEntry [m] 0 ]} in
  fst (fetchAvailableModels 1700000000000 1700000000001 (ModelsNotOk 500) "jwt" "acct" cache)
  = ([m], cache).
Proof.
  intros m cache.
  rewrite (failed_fetch_falls_back_to_cache 1700000000000 1700000000001 (ModelsNotOk 500)
             "jwt" "acct" cache ltac:(discriminate)).
  unfold cache. by rewrite lookup_singleton_eq.
Defined.

End CodexModelsFacts.

(** ** Properties of the toasts *)

Module ToastsFacts.
Import Toasts.

Lemma ceilDiv_bounds a b : 0 < b -> a <= ceilDiv a b * b < a + b.
Proof.
  intros Hb. unfold ceilDiv.
  pose proof (Z.div_mod (- a) b ltac:(lia)) as Hdiv.
  pose proof (Z.mod_pos_bound (- a) b Hb) as Hmod.
  nia.
Qed.

(** X27. The account toast is debounced. Two calls of [showAccountToast] for
    the same account less than five seconds apart show at most one toast
    between them, and when the first one showed a toast the second one
    does nothing at all. A call for another account is not held back: it
    shows its toast however soon it comes (unless toasts are off or there
    is a single account). *)
Theorem account_toast_is_debounced (quietMode : bool) (now1 now2 : Z)
    (account other : ManagedAccount) (totalAccounts : Z) (st : ToastState) :
  now2 - now1 < TOAST_DEBOUNCE_MS ->
  let st1 := showAccountToast quietMode now1 account totalAccounts st in
  let st2 := showAccountToast quietMode now2 account totalAccounts st1 in
  (length (shown st2) <= S (length (shown st)))%nat /\
  (shown st1 <> shown st -> st2 = st1) /\
  (quietMode = false -> 1 < totalAccounts -> index other <> index account ->
   shown st1 <> shown st ->
   length (shown (showAccountToast quietMode now2 other totalAccounts st1)) =
   S (length (shown st1))).
Proof.
  intros Hsoon st1 st2.
  assert (Hcases : st1 = st \/
            (lastToastAccountIndex st1 = Some (index account) /\ lastToastTime st1 = now1 /\
             length (shown st1) = S (length (shown st)) /\
             quietMode = false /\ (totalAccounts <=? 1) = false)).
  { unfold st1, showAccountToast.
    destruct quietMode; [by left|]. destruct (totalAccounts <=? 1); [by left|].
    destruct (_ && _); [by left|]. right. cbn. rewrite length_app. cbn.
    repeat split; lia. }
  assert (Hone : forall s, (length (shown (showAccountToast quietMode now2 account
                                             totalAccounts s)) <= S (length (shown s)))%nat).
  { intros s. unfold showAccountToast.
    destruct quietMode; [lia|]. destruct (totalAccounts <=? 1); [lia|].
    destruct (_ && _); [lia|]. cbn. rewrite length_app. cbn. lia. }
  assert (Hquiet : (lastToastAccountIndex st1 = Some (index account) /\
                    lastToastTime st1 = now1 /\
                    length (shown st1) = S (length (shown st)) /\
                    quietMode = false /\ (totalAccounts <=? 1) = false) -> st2 = st1).
  { intros (Hidx & Htime & _ & Hq & Htot). unfold st2, showAccountToast.
    rewrite Hq, Htot, Hidx, Htime, Z.eqb_refl.
    assert (Hlt : (now2 - now1 <? TOAST_DEBOUNCE_MS) = true) by (by apply Z.ltb_lt).
    by rewrite Hlt. }
  split; [|split].
  - destruct Hcases as [Heq|Hshown].
    + unfold st2. rewrite Heq. apply Hone.
    + rewrite (Hquiet Hshown). lia.
  - intros Hne. destruct Hcases as [Heq|Hshown]; [by rewrite Heq in Hne|by apply Hquiet].
  - intros Hq Htot Hother Hne.
    destruct Hcases as [Heq|(Hidx & _)]; [by rewrite Heq in Hne|].
    unfold showAccountToast at 1. rewrite Hq, Hidx.
    assert (Ht : (totalAccounts <=? 1) = false) by (apply Z.leb_gt; lia).
    assert (Hi : (index account =? index other) = false) by (apply Z.eqb_neq; congruence).
    rewrite Ht, Hi. cbn. rewrite length_app. cbn. lia.
Qed.

(** Two requests on the same account one second apart: one toast. *)
Lemma account_toast_is_debounced_witness :
  let a := sampleAccount 0 "rt-1" in
  let st1 := showAccountToast false 1700000000000 a 3 initialToastState in
  showAccountToast false 1700000001000 a 3 st1 = st1.
Proof.
  intros a st1.
  destruct (account_toast_is_debounced false 1700000000000 1700000001000 a a 3
              initialToastState eq_refl) as (_ & Hsame & _).
  apply Hsame. discriminate.
Defined.

(** X28. The wait the rate-limit toast announces is never shorter than the
    wait itself: for a wait that is a number the text is a whole number
    of minutes, or of hours from sixty minutes on, rounded up, so it
    overstates by less than one minute or one hour. For a wait that is
    [NaN], which is what the orchestrator passes on after a
    [Retry-After] header that is not a number, the text is [NaNm] and
    announces no wait at all. *)
Theorem retry_text_rounds_up :
  (forall retryAfterMs : Z, exists n,
     (retryText retryAfterMs = pretty n +:+ "m" /\ n < 60 /\
      retryAfterMs <= n * 60000 < retryAfterMs + 60000) \/
     (retryText retryAfterMs = pretty n +:+ "h" /\
      retryAfterMs <= n * 3600000 < retryAfterMs + 3600000)) /\
  retryText NaN = "NaNm" /\
  (forall account st,
     shown (showRateLimitToast false account NaN st) =
     shown st ++ [mkToast (accountLabel account +:+ " rate limited. Retry in NaNm.")
                          "warning"]).
Proof.
  split; [|split; reflexivity].
  intros retryAfterMs. unfold retryText. cbn zeta.
  pose proof (ceilDiv_bounds retryAfterMs 60000 ltac:(lia)) as Hm.
  set (m := ceilDiv retryAfterMs 60000) in *.
  destruct (m >=? 60) eqn:Hge.
  - pose proof (ceilDiv_bounds m 60 ltac:(lia)) as Hh.
    exists (ceilDiv m 60). right. split; [reflexivity|]. lia.
  - exists m. left. rewrite Z.geb_leb in Hge. apply Z.leb_gt in Hge.
    split; [reflexivity|]. lia.
Qed.

End ToastsFacts.

(** ** Properties of the [config] hook *)

Module PluginConfigFacts.
Import PluginConfig.

(** X29. The [config] hook registers the [codex-status] command and lists the
    tool among the primary tools once: the tools that were listed stay,
    in their order, the tool is appended only when it is not among them,
    and running the hook again changes nothing. *)
Theorem config_hook_registers_once (cfg : Config) :
  let tools := default [] (default (mkExperimental None) (experimental cfg)).(primary_tools) in
  let cfg' := configHook cfg in
  exists tools',
    experimental cfg' = Some (mkExperimental (Some tools')) /\
    "codex-status" ∈ tools' /\
    (tools' = tools \/ (tools' = tools ++ ["codex-status"] /\ "codex-status" ∉ tools)) /\
    (exists c, command cfg' = Some c /\ is_Some (c !! "codex-status") /\
       forall name, name <> "codex-status" ->
         c !! name = default ∅ (command cfg) !! name) /\
    configHook cfg' = cfg'.
Proof.
  cbn zeta. unfold configHook. cbn zeta.
  set (tools := default [] (primary_tools (default (mkExperimental None) (experimental cfg)))).
  destruct (bool_decide ("codex-status" ∈ tools)) eqn:Hin.
  - apply bool_decide_eq_true in Hin. exists tools. cbn.
    split; [reflexivity|]. split; [exact Hin|]. split; [by left|]. split.
    + eexists. split; [reflexivity|]. split; [by rewrite lookup_insert_eq|].
      intros name Hne. by rewrite lookup_insert_ne.
    + rewrite (bool_decide_eq_true_2 _ Hin). by rewrite insert_insert_eq.
  - apply bool_decide_eq_false in Hin. exists (tools ++ ["codex-status"]). cbn.
    assert (Hin' : "codex-status" ∈ tools ++ ["codex-status"]).
    { apply elem_of_app. right. by apply list_elem_of_singleton. }
    split; [reflexivity|]. split; [exact Hin'|]. split; [by right|]. split.
    + eexists. split; [reflexivity|]. split; [by rewrite lookup_insert_eq|].
      intros name Hne. by rewrite lookup_insert_ne.
    + rewrite (bool_decide_eq_true_2 _ Hin'). by rewrite insert_insert_eq.
Qed.

End PluginConfigFacts.
